(** * Session tokens of the demo server: [src/auth.py], [src/server.py]

    A shallow embedding of the authentication module and of the parts of the
    Python standard library it calls ([str.encode], [str.split], [hashlib],
    [hmac], [base64], [json], [datetime], [pydantic.BaseModel]), followed by
    the properties of credential checking, token issuance and token
    verification.  The handlers of [src/server.py] that use the module
    are embedded as well: what the web framework and the Vortex SDK do
    around them is no part of the repository and enters as arguments.

    Conventions.
    - A Python [str] is the list of its code points, a [bytes] object the
      list of its octets; both are lists of [Z].
    - A call that may raise returns a [result]; [try: ... except:] is
      [try_except].
    - What the module reads from its process is the record [runtime]: the
      global [JWT_SECRET], the clock behind [datetime.utcnow()], the
      recursion allowance of the interpreter and the zone of the process,
      in which [datetime.timestamp()] reads a naive [datetime].
    - A [float] is a binary64 number, written as the decimal that it is;
      parsing and arithmetic round to the nearest one, ties to even, and
      [repr] writes the shortest decimal that is read back.  The sign of
      zero is not kept, and a zone counts no leap seconds.
    - The library functions follow CPython 3.11: the lenient
      [binascii.a2b_base64], the C scanner of [json], the limit of 4300
      digits on the conversion of integers. *)

From Stdlib Require Import ZArith List Bool Lia String Ascii.
Import ListNotations.
Local Open Scope Z_scope.
#[local] Set Warnings "-register-all".

(* ================================================================== *)
(** * Exceptions *)

(** The exceptions that the module can meet.  [Unreachable] is none of
    Python's: it marks the exhaustion of a step bound of the loops of this
    model, which [loads_steps_suffice] shows never happens. *)
Inductive exn : Set :=
| UnicodeEncodeError
| UnicodeDecodeError
| ValueError
| BinasciiError
| JSONDecodeError
| AttributeError
| TypeError
| KeyError
| ValidationError
| OverflowError
| RecursionError
| Unreachable.

Inductive result (A : Type) : Type :=
| Ok (a : A)
| Raise (e : exn).

Arguments Ok {A} a.
Arguments Raise {A} e.

Definition bind {A B : Type} (m : result A) (k : A -> result B) : result B :=
  match m with
  | Ok a => k a
  | Raise e => Raise e
  end.

Notation "x <- m ;; k" := (bind m (fun x => k))
  (at level 61, m at next level, right associativity).
Notation "' p <- m ;; k" := (bind m (fun x => match x with p => k end))
  (at level 61, p pattern, m at next level, right associativity).

(** [try: body  except: handler] with a bare [except], which catches
    every exception. *)
Definition try_except {A : Type} (body handler : result A) : result A :=
  match body with
  | Ok a => Ok a
  | Raise _ => handler
  end.

(* ================================================================== *)
(** * Built-in strings and bytes *)

Definition str := list Z.
Definition bytes := list Z.

Definition ord (a : ascii) : Z := Z.of_N (N_of_ascii a).

(** A string literal of the source. *)
Definition lit (s : string) : str := map ord (list_ascii_of_string s).

Fixpoint str_eqb (a b : str) : bool :=
  match a, b with
  | [], [] => true
  | x :: a', y :: b' => (x =? y) && str_eqb a' b'
  | _, _ => false
  end.

Definition len {A : Type} (l : list A) : Z := Z.of_nat (List.length l).

Definition is_surrogate (c : Z) : bool := (0xD800 <=? c) && (c <=? 0xDFFF).

(** One code point to UTF-8; lone surrogates cannot be encoded. *)
Definition utf8_encode_char (c : Z) : result bytes :=
  if (c <? 0) || (0x10FFFF <? c) then Raise UnicodeEncodeError
  else if c <? 0x80 then Ok [c]
  else if c <? 0x800 then
    Ok [Z.lor 0xC0 (Z.shiftr c 6); Z.lor 0x80 (Z.land c 0x3F)]
  else if is_surrogate c then Raise UnicodeEncodeError
  else if c <? 0x10000 then
    Ok [Z.lor 0xE0 (Z.shiftr c 12);
        Z.lor 0x80 (Z.land (Z.shiftr c 6) 0x3F);
        Z.lor 0x80 (Z.land c 0x3F)]
  else
    Ok [Z.lor 0xF0 (Z.shiftr c 18);
        Z.lor 0x80 (Z.land (Z.shiftr c 12) 0x3F);
        Z.lor 0x80 (Z.land (Z.shiftr c 6) 0x3F);
        Z.lor 0x80 (Z.land c 0x3F)].

(** [s.encode()] *)
Fixpoint encode (s : str) : result bytes :=
  match s with
  | [] => Ok []
  | c :: r =>
      b <- utf8_encode_char c ;;
      bs <- encode r ;;
      Ok (b ++ bs)
  end.

(* ================================================================== *)
(** * hashlib.sha256 (FIPS 180-4) *)

Definition w32 (x : Z) : Z := x mod 4294967296.
Definition add32 (x y : Z) : Z := w32 (x + y).
Definition rotr (n x : Z) : Z :=
  Z.lor (Z.shiftr x n) (w32 (Z.shiftl x (32 - n))).
Definition not32 (x : Z) : Z := 4294967295 - x.

Definition Ch (x y z : Z) : Z := Z.lxor (Z.land x y) (Z.land (not32 x) z).
Definition Maj (x y z : Z) : Z :=
  Z.lxor (Z.lxor (Z.land x y) (Z.land x z)) (Z.land y z).
Definition bsig0 (x : Z) : Z := Z.lxor (Z.lxor (rotr 2 x) (rotr 13 x)) (rotr 22 x).
Definition bsig1 (x : Z) : Z := Z.lxor (Z.lxor (rotr 6 x) (rotr 11 x)) (rotr 25 x).
Definition ssig0 (x : Z) : Z := Z.lxor (Z.lxor (rotr 7 x) (rotr 18 x)) (Z.shiftr x 3).
Definition ssig1 (x : Z) : Z := Z.lxor (Z.lxor (rotr 17 x) (rotr 19 x)) (Z.shiftr x 10).

(** Round constants: fractional parts of the cube roots of the first 64
    primes. *)
Definition sha_K : list Z :=
  [1116352408; 1899447441; 3049323471; 3921009573; 961987163; 1508970993;
   2453635748; 2870763221; 3624381080; 310598401; 607225278; 1426881987;
   1925078388; 2162078206; 2614888103; 3248222580; 3835390401; 4022224774;
   264347078; 604807628; 770255983; 1249150122; 1555081692; 1996064986;
   2554220882; 2821834349; 2952996808; 3210313671; 3336571891; 3584528711;
   113926993; 338241895; 666307205; 773529912; 1294757372; 1396182291;
   1695183700; 1986661051; 2177026350; 2456956037; 2730485921; 2820302411;
   3259730800; 3345764771; 3516065817; 3600352804; 4094571909; 275423344;
   430227734; 506948616; 659060556; 883997877; 958139571; 1322822218;
   1537002063; 1747873779; 1955562222; 2024104815; 2227730452; 2361852424;
   2428436474; 2756734187; 3204031479; 3329325298].

(** Initial hash value: fractional parts of the square roots of the first
    8 primes. *)
Definition sha_H0 : list Z :=
  [1779033703; 3144134277; 1013904242; 2773480762;
   1359893119; 2600822924; 528734635; 1541459225].

(** Big-endian words. *)
Fixpoint be_bytes (n : nat) (x : Z) : bytes :=
  match n with
  | O => []
  | S n' => (Z.shiftr x (8 * Z.of_nat n')) mod 256 :: be_bytes n' x
  end.

Fixpoint words_of_bytes (b : bytes) : list Z :=
  match b with
  | b0 :: b1 :: b2 :: b3 :: r =>
      (b0 * 16777216 + b1 * 65536 + b2 * 256 + b3) :: words_of_bytes r
  | _ => []
  end.

(** Padding: a one bit, zeros up to 56 mod 64, the bit length on 64 bits. *)
Definition sha_pad (msg : bytes) : bytes :=
  let l := len msg in
  msg ++ [128] ++ repeat 0 (Z.to_nat ((55 - l) mod 64)) ++ be_bytes 8 (8 * l).

(** The message schedule, most recent word first. *)
Fixpoint schedule (n : nat) (rw : list Z) : list Z :=
  match n with
  | O => rw
  | S n' =>
      let x := add32 (add32 (ssig1 (nth 1 rw 0)) (nth 6 rw 0))
                     (add32 (ssig0 (nth 14 rw 0)) (nth 15 rw 0)) in
      schedule n' (x :: rw)
  end.

Definition sha_round (st : list Z) (kw : Z * Z) : list Z :=
  match st with
  | [a; b; c; d; e; f; g; h] =>
      let t1 := add32 (add32 (add32 h (bsig1 e)) (add32 (Ch e f g) (fst kw))) (snd kw) in
      let t2 := add32 (bsig0 a) (Maj a b c) in
      [add32 t1 t2; a; b; c; add32 d t1; e; f; g]
  | _ => st
  end.

Fixpoint zip_add (a b : list Z) : list Z :=
  match a, b with
  | x :: a', y :: b' => add32 x y :: zip_add a' b'
  | _, _ => []
  end.

Definition sha_block (h : list Z) (block : list Z) : list Z :=
  let w := rev (schedule 48 (rev block)) in
  zip_add h (fold_left sha_round (combine sha_K w) h).

Fixpoint sha_blocks (n : nat) (h : list Z) (ws : list Z) : list Z :=
  match n with
  | O => h
  | S n' =>
      match ws with
      | [] => h
      | _ => sha_blocks n' (sha_block h (firstn 16 ws)) (skipn 16 ws)
      end
  end.

(** [hashlib.sha256(msg).digest()] *)
Definition sha256 (msg : bytes) : bytes :=
  let ws := words_of_bytes (sha_pad msg) in
  flat_map (be_bytes 4) (sha_blocks (List.length ws) sha_H0 ws).

Definition hex_digit (n : Z) : Z := if n <? 10 then 48 + n else 87 + n.

(** [.hexdigest()]: lowercase hexadecimal, two characters per octet. *)
Definition hexlify (b : bytes) : str :=
  flat_map (fun x => [hex_digit (x / 16); hex_digit (x mod 16)]) b.

(* ================================================================== *)
(** * hmac.new(key, msg, hashlib.sha256) (RFC 2104) *)

Definition hmac_block_size : Z := 64.

Definition hmac_key (key : bytes) : bytes :=
  let k := if hmac_block_size <? len key then sha256 key else key in
  k ++ repeat 0 (Z.to_nat (hmac_block_size - len k)).

Definition hmac_sha256 (key msg : bytes) : bytes :=
  let k := hmac_key key in
  sha256 (map (Z.lxor 0x5C) k ++ sha256 (map (Z.lxor 0x36) k ++ msg)).

(* ================================================================== *)
(** * More of [str] and [bytes] *)

Abbreviation DOT := (46) (only parsing).
Abbreviation DQUOTE := (34) (only parsing).
Abbreviation BACKSLASH := (92) (only parsing).

(** [s.split(sep)] for a one-character separator. *)
Fixpoint split (sep : Z) (s : str) : list str :=
  match s with
  | [] => [[]]
  | c :: r =>
      if c =? sep then [] :: split sep r
      else match split sep r with
           | p :: ps => (c :: p) :: ps
           | [] => [[c]]
           end
  end.

(** [s.count(c)] for one character. *)
Fixpoint count (c : Z) (s : str) : nat :=
  match s with
  | [] => O
  | x :: r => if x =? c then S (count c r) else count c r
  end.

Definition is_cont (b : Z) : bool := (0x80 <=? b) && (b <=? 0xBF).

(** [b.decode()]: strict UTF-8; overlong forms, surrogates, code points
    above U+10FFFF and truncated sequences are rejected. *)
Fixpoint decode (b : bytes) : result str :=
  match b with
  | [] => Ok []
  | b0 :: r =>
      if (0 <=? b0) && (b0 <? 0x80) then
        t <- decode r ;; Ok (b0 :: t)
      else if (0xC0 <=? b0) && (b0 <=? 0xDF) then
        match r with
        | b1 :: r1 =>
            let c := Z.lor (Z.shiftl (Z.land b0 0x1F) 6) (Z.land b1 0x3F) in
            if is_cont b1 && (0x80 <=? c) then
              t <- decode r1 ;; Ok (c :: t)
            else Raise UnicodeDecodeError
        | _ => Raise UnicodeDecodeError
        end
      else if (0xE0 <=? b0) && (b0 <=? 0xEF) then
        match r with
        | b1 :: b2 :: r2 =>
            let c := Z.lor (Z.shiftl (Z.land b0 0x0F) 12)
                       (Z.lor (Z.shiftl (Z.land b1 0x3F) 6) (Z.land b2 0x3F)) in
            if is_cont b1 && is_cont b2 && (0x800 <=? c) && negb (is_surrogate c) then
              t <- decode r2 ;; Ok (c :: t)
            else Raise UnicodeDecodeError
        | _ => Raise UnicodeDecodeError
        end
      else if (0xF0 <=? b0) && (b0 <=? 0xF7) then
        match r with
        | b1 :: b2 :: b3 :: r3 =>
            let c := Z.lor (Z.shiftl (Z.land b0 0x07) 18)
                       (Z.lor (Z.shiftl (Z.land b1 0x3F) 12)
                          (Z.lor (Z.shiftl (Z.land b2 0x3F) 6) (Z.land b3 0x3F))) in
            if is_cont b1 && is_cont b2 && is_cont b3
               && (0x10000 <=? c) && (c <=? 0x10FFFF) then
              t <- decode r3 ;; Ok (c :: t)
            else Raise UnicodeDecodeError
        | _ => Raise UnicodeDecodeError
        end
      else Raise UnicodeDecodeError
  end.

(* ================================================================== *)
(** * base64 *)

Abbreviation PAD := (61) (only parsing).

(** The standard alphabet, [binascii]'s [table_b2a_base64]. *)
Definition b64_char (n : Z) : Z :=
  if n <? 26 then 65 + n
  else if n <? 52 then 71 + n
  else if n <? 62 then n - 4
  else if n =? 62 then 43
  else 47.

(** [binascii.b2a_base64(b, newline=False)] *)
Fixpoint b2a_base64 (b : bytes) : bytes :=
  match b with
  | [] => []
  | [x] =>
      [b64_char (Z.shiftr x 2); b64_char (Z.shiftl (Z.land x 3) 4); PAD; PAD]
  | [x; y] =>
      [b64_char (Z.shiftr x 2);
       b64_char (Z.lor (Z.shiftl (Z.land x 3) 4) (Z.shiftr y 4));
       b64_char (Z.shiftl (Z.land y 15) 2); PAD]
  | x :: y :: z :: r =>
      b64_char (Z.shiftr x 2)
      :: b64_char (Z.lor (Z.shiftl (Z.land x 3) 4) (Z.shiftr y 4))
      :: b64_char (Z.lor (Z.shiftl (Z.land y 15) 2) (Z.shiftr z 6))
      :: b64_char (Z.land z 63)
      :: b2a_base64 r
  end.

(** [bytes.translate] with [bytes.maketrans(b'+/', b'-_')] and back. *)
Definition urlsafe_encode_translation (c : Z) : Z :=
  if c =? 43 then 45 else if c =? 47 then 95 else c.
Definition urlsafe_decode_translation (c : Z) : Z :=
  if c =? 45 then 43 else if c =? 95 then 47 else c.

(** [base64.urlsafe_b64encode(b)] *)
Definition urlsafe_b64encode (b : bytes) : bytes :=
  map urlsafe_encode_translation (b2a_base64 b).

(** [binascii]'s [table_a2b_base64]: the value of an alphabet character. *)
Definition b64_value (c : Z) : option Z :=
  if (65 <=? c) && (c <=? 90) then Some (c - 65)
  else if (97 <=? c) && (c <=? 122) then Some (c - 71)
  else if (48 <=? c) && (c <=? 57) then Some (c + 4)
  else if c =? 43 then Some 62
  else if c =? 47 then Some 63
  else None.

(** [binascii.a2b_base64(s)] in its default, non-strict mode: characters
    outside the alphabet are skipped, a pad that completes a quad ends the
    input, and an incomplete final quad is an error. *)
Fixpoint a2b_base64 (s : bytes) (quad_pos leftchar pads : Z) : result bytes :=
  match s with
  | [] => if quad_pos =? 0 then Ok [] else Raise BinasciiError
  | c :: r =>
      if c =? PAD then
        if 2 <=? quad_pos then
          if 4 <=? quad_pos + (pads + 1) then Ok []
          else a2b_base64 r quad_pos leftchar (pads + 1)
        else a2b_base64 r quad_pos leftchar pads
      else
        match b64_value c with
        | None => a2b_base64 r quad_pos leftchar pads
        | Some v =>
            if quad_pos =? 0 then a2b_base64 r 1 v 0
            else if quad_pos =? 1 then
              t <- a2b_base64 r 2 (Z.land v 0x0F) 0 ;;
              Ok (Z.lor (Z.shiftl leftchar 2) (Z.shiftr v 4) :: t)
            else if quad_pos =? 2 then
              t <- a2b_base64 r 3 (Z.land v 0x03) 0 ;;
              Ok (Z.lor (Z.shiftl leftchar 4) (Z.shiftr v 2) :: t)
            else
              t <- a2b_base64 r 0 0 0 ;;
              Ok (Z.lor (Z.shiftl leftchar 6) v :: t)
        end
  end.

(** [base64._bytes_from_decode_data] on a [str]: ASCII only. *)
Definition bytes_from_decode_data (s : str) : result bytes :=
  if forallb (fun c => (0 <=? c) && (c <? 128)) s then Ok s
  else Raise ValueError.

(** [base64.urlsafe_b64decode(s)] *)
Definition urlsafe_b64decode (s : str) : result bytes :=
  b <- bytes_from_decode_data s ;;
  a2b_base64 (map urlsafe_decode_translation b) 0 0 0.

(* ================================================================== *)
(** * Numbers *)

(** A Python [float] is a binary64 number, an infinity or NaN.  A number
    is written as the decimal that it is exactly, [FFin m e] for
    [m * 10^e]: the binary [M * 2^q] with [q < 0] is [M * 5^(-q) * 10^q].
    What arithmetic and parsing compute exactly is rounded to binary64 by
    [round64].  The sign of zero is not kept. *)
Inductive pyfloat : Set :=
| FFin (m e : Z)
| FInf (negative : bool)
| FNaN.

Definition float_lt (a b : pyfloat) : bool :=
  match a, b with
  | FNaN, _ => false
  | _, FNaN => false
  | FInf true, FInf true => false
  | FInf true, _ => true
  | _, FInf true => false
  | FInf false, _ => false
  | FFin _ _, FInf false => true
  | FFin m1 e1, FFin m2 e2 =>
      let e := Z.min e1 e2 in
      m1 * 10 ^ (e1 - e) <? m2 * 10 ^ (e2 - e)
  end.

Definition is_digit (c : Z) : bool := (48 <=? c) && (c <=? 57).

(** Decimal digits, least significant first. *)
Fixpoint digits_rev (fuel : nat) (n : Z) : str :=
  match fuel with
  | O => []
  | S f =>
      if n <? 10 then [48 + n]
      else (48 + n mod 10) :: digits_rev f (n / 10)
  end.

Definition digits (n : Z) : str :=
  rev (digits_rev (S (Z.to_nat (Z.log2 n))) n).

(** [repr] of an [int]. *)
Definition int_repr (n : Z) : str :=
  if n <? 0 then 45 :: digits (- n) else digits n.

Definition digits_value (ds : str) : Z :=
  fold_left (fun a c => 10 * a + (c - 48)) ds 0.

Fixpoint strip_zeros (l : str) : str * Z :=
  match l with
  | c :: r =>
      if c =? 48 then let (d, z) := strip_zeros r in (d, z + 1) else (l, 0)
  | [] => ([], 0)
  end.

Definition zeros (n : Z) : str := repeat 48 (Z.to_nat n).

(** ** binary64 *)

(** [n / d] rounded to the nearest integer, ties to the even one. *)
Definition round_half_even (n d : Z) : Z :=
  let q := n / d in
  let r := n mod d in
  if 2 * r <? d then q
  else if d <? 2 * r then q + 1
  else if Z.even q then q else q + 1.

(** [floor (log2 (n / d))] for positive [n] and [d]. *)
Definition ilog2_ratio (n d : Z) : Z :=
  if d <=? n then Z.log2 (n / d) else - Z.log2_up ((d + n - 1) / n).

(** The number [m * 2^q] as a decimal. *)
Definition binary64 (m q : Z) : pyfloat :=
  if m =? 0 then FFin 0 0
  else if 0 <=? q then FFin (m * 2 ^ q) 0
  else FFin (m * 5 ^ (- q)) q.

(** The binary64 number nearest to [n / d], for positive [n] and [d]: 53
    bits, with exponents from -1074 (below [2^-1022] the numbers are
    subnormal) to 971, and an infinity from [2^1024] on. *)
Definition round64_ratio (negative : bool) (n d : Z) : pyfloat :=
  let k := ilog2_ratio n d in
  if 1024 <=? k then FInf negative
  else
    let q := Z.max (k - 52) (-1074) in
    let m := if 0 <=? q then round_half_even n (d * 2 ^ q)
             else round_half_even (n * 2 ^ (- q)) d in
    let q' := if m =? 2 ^ 53 then q + 1 else q in
    let m' := if m =? 2 ^ 53 then 2 ^ 52 else m in
    if 971 <? q' then FInf negative
    else binary64 (if negative then - m' else m') q'.

(** The binary64 number nearest to a decimal, ties to even: what
    [float(s)] is for the text [s] of the decimal, and what an operation
    on floats gives for its exact result. *)
Definition round64 (f : pyfloat) : pyfloat :=
  match f with
  | FFin m e =>
      if m =? 0 then FFin 0 0
      else if 0 <=? e then round64_ratio (m <? 0) (Z.abs m * 10 ^ e) 1
      else round64_ratio (m <? 0) (Z.abs m) (10 ^ (- e))
  | _ => f
  end.

(** [a == b] *)
Definition float_eqb (a b : pyfloat) : bool :=
  match a, b with
  | FFin m1 e1, FFin m2 e2 =>
      let e := Z.min e1 e2 in
      m1 * 10 ^ (e1 - e) =? m2 * 10 ^ (e2 - e)
  | FInf s1, FInf s2 => Bool.eqb s1 s2
  | _, _ => false
  end.

(** [a + b] *)
Definition float_add (a b : pyfloat) : pyfloat :=
  match a, b with
  | FFin m1 e1, FFin m2 e2 =>
      let e := Z.min e1 e2 in
      round64 (FFin (m1 * 10 ^ (e1 - e) + m2 * 10 ^ (e2 - e)) e)
  | FNaN, _ => FNaN
  | _, FNaN => FNaN
  | FInf s1, FInf s2 => if Bool.eqb s1 s2 then a else FNaN
  | FInf _, FFin _ _ => a
  | FFin _ _, FInf _ => b
  end.

(** [float(n)] of an [int] that is not beyond the range of [float]. *)
Definition float_of_int (n : Z) : pyfloat := round64 (FFin n 0).

(** [a / b] of two [int]s, [b] being a power of ten [10^k]. *)
Definition int_div_pow10 (a k : Z) : pyfloat := round64 (FFin a (- k)).

(** The decimal of [n] significant digits that is read back as the
    number [m * 10^e], if there is one: of the two decimals next to the
    number, below and above, the one that is read back, and the nearer
    one when both are. *)
Definition shortest_with (n m e : Z) : option pyfloat :=
  let a := Z.abs m in
  let drop := len (digits a) - n in
  if drop <=? 0 then Some (FFin m e)
  else
    let p := 10 ^ drop in
    let lo := a / p in
    let hi := lo + 1 in
    let signed := fun x : Z => if m <? 0 then - x else x in
    let below := FFin (signed lo) (e + drop) in
    let above := FFin (signed hi) (e + drop) in
    let ok_below := float_eqb (round64 below) (FFin m e) in
    let ok_above := float_eqb (round64 above) (FFin m e) in
    if ok_below && ok_above then
      Some (if a - lo * p <=? hi * p - a then below else above)
    else if ok_below then Some below
    else if ok_above then Some above
    else None.

Fixpoint shortest_from (tries : nat) (n m e : Z) : pyfloat :=
  match tries with
  | O => FFin m e
  | S k =>
      match shortest_with n m e with
      | Some d => d
      | None => shortest_from k (n + 1) m e
      end
  end.

(** The shortest decimal that is read back as the float, as [repr]
    finds it: 17 digits always suffice. *)
Definition shortest (f : pyfloat) : pyfloat :=
  match f with
  | FFin m e => if m =? 0 then f else shortest_from 17 1 m e
  | _ => f
  end.

(** The layout of [repr] for the digits of a decimal: without trailing
    zeros, in positional notation when the decimal point falls in
    (-4, 16], otherwise with an exponent of at least two digits. *)
Definition float_format (f : pyfloat) : str :=
  match f with
  | FNaN => lit "nan"
  | FInf false => lit "inf"
  | FInf true => lit "-inf"
  | FFin m e =>
      if m =? 0 then lit "0.0"
      else
        let (rd, z) := strip_zeros (digits_rev (S (Z.to_nat (Z.log2 (Z.abs m)))) (Z.abs m)) in
        let ds := rev rd in
        let k := len ds in
        let decpt := k + z + e in
        (if m <? 0 then [45] else []) ++
        (if (-4 <? decpt) && (decpt <=? 16) then
           if decpt <=? 0 then lit "0." ++ zeros (- decpt) ++ ds
           else if k <=? decpt then ds ++ zeros (decpt - k) ++ lit ".0"
           else firstn (Z.to_nat decpt) ds ++ [DOT] ++ skipn (Z.to_nat decpt) ds
         else
           let ex := decpt - 1 in
           firstn 1 ds ++ (if k =? 1 then [] else DOT :: skipn 1 ds)
           ++ [101] ++ (if ex <? 0 then [45] else [43])
           ++ (if Z.abs ex <? 10 then [48] else []) ++ digits (Z.abs ex))
  end.

(** [repr] of a [float]: the shortest decimal that is read back as the
    float. *)
Definition float_repr (f : pyfloat) : str := float_format (shortest f).

(* ================================================================== *)
(** * json *)

Inductive json : Type :=
| JNull
| JBool (b : bool)
| JInt (n : Z)
| JFloat (f : pyfloat)
| JStr (s : str)
| JList (l : list json)
| JDict (d : list (str * json)).

(** A [dict] with [str] keys, in insertion order. *)
Fixpoint dict_get {V : Type} (d : list (str * V)) (k : str) : option V :=
  match d with
  | [] => None
  | (k', v) :: r => if str_eqb k' k then Some v else dict_get r k
  end.

Fixpoint dict_set {V : Type} (d : list (str * V)) (k : str) (v : V) : list (str * V) :=
  match d with
  | [] => [(k, v)]
  | (k', v') :: r =>
      if str_eqb k' k then (k', v) :: r else (k', v') :: dict_set r k v
  end.

(** [dict(pairs)]: a later pair overwrites an earlier one with the same key. *)
Definition dict_of_pairs {V : Type} (pairs : list (str * V)) : list (str * V) :=
  fold_left (fun d kv => dict_set d (fst kv) (snd kv)) pairs [].

(** ** json.dumps *)

Definition hex4 (n : Z) : str :=
  [hex_digit (n / 4096); hex_digit ((n / 256) mod 16);
   hex_digit ((n / 16) mod 16); hex_digit (n mod 16)].

(** [encode_basestring_ascii] for one character: printable ASCII other than
    the quote and the backslash is kept, the rest is escaped, characters
    beyond the BMP as a surrogate pair. *)
Definition escape_char (c : Z) : str :=
  if c =? DQUOTE then [BACKSLASH; DQUOTE]
  else if c =? BACKSLASH then [BACKSLASH; BACKSLASH]
  else if (32 <=? c) && (c <=? 126) then [c]
  else if c =? 10 then [BACKSLASH; 110]
  else if c =? 13 then [BACKSLASH; 114]
  else if c =? 9 then [BACKSLASH; 116]
  else if c =? 12 then [BACKSLASH; 102]
  else if c =? 8 then [BACKSLASH; 98]
  else if c <? 0x10000 then BACKSLASH :: 117 :: hex4 c
  else
    let n := c - 0x10000 in
    let s1 := Z.lor 0xD800 (Z.land (Z.shiftr n 10) 0x3FF) in
    let s2 := Z.lor 0xDC00 (Z.land n 0x3FF) in
    (BACKSLASH :: 117 :: hex4 s1) ++ (BACKSLASH :: 117 :: hex4 s2).

Definition encode_basestring_ascii (s : str) : str :=
  DQUOTE :: flat_map escape_char s ++ [DQUOTE].

Definition float_json_repr (f : pyfloat) : str :=
  match f with
  | FNaN => lit "NaN"
  | FInf false => lit "Infinity"
  | FInf true => lit "-Infinity"
  | FFin _ _ => float_repr f
  end.

Fixpoint join (sep : str) (l : list str) : str :=
  match l with
  | [] => []
  | [x] => x
  | x :: r => x ++ sep ++ join sep r
  end.

(** [json.dumps(v)] with the default separators [", "] and [": "] and
    [ensure_ascii=True]. *)
Fixpoint dumps (v : json) : str :=
  match v with
  | JNull => lit "null"
  | JBool true => lit "true"
  | JBool false => lit "false"
  | JInt n => int_repr n
  | JFloat f => float_json_repr f
  | JStr s => encode_basestring_ascii s
  | JList l => [91] ++ join (lit ", ") (map dumps l) ++ [93]
  | JDict d =>
      [123]
      ++ join (lit ", ")
           (map (fun kv => encode_basestring_ascii (fst kv) ++ lit ": " ++ dumps (snd kv)) d)
      ++ [125]
  end.

(** ** json.loads *)

Definition is_ws (c : Z) : bool := (c =? 32) || (c =? 9) || (c =? 10) || (c =? 13).

Fixpoint skip_ws (s : str) : str :=
  match s with
  | c :: r => if is_ws c then skip_ws r else s
  | [] => []
  end.

Fixpoint strip_prefix (p s : str) : option str :=
  match p, s with
  | [], _ => Some s
  | a :: p', b :: s' => if a =? b then strip_prefix p' s' else None
  | _ :: _, [] => None
  end.

Definition hex_value (c : Z) : option Z :=
  if is_digit c then Some (c - 48)
  else if (97 <=? c) && (c <=? 102) then Some (c - 87)
  else if (65 <=? c) && (c <=? 70) then Some (c - 55)
  else None.

Definition hex4_value (a b c d : Z) : option Z :=
  match hex_value a, hex_value b, hex_value c, hex_value d with
  | Some x, Some y, Some z, Some w => Some (((x * 16 + y) * 16 + z) * 16 + w)
  | _, _, _, _ => None
  end.

(** The decoder's [BACKSLASH] table. *)
Definition backslash_escape (e : Z) : option Z :=
  if e =? DQUOTE then Some DQUOTE
  else if e =? BACKSLASH then Some BACKSLASH
  else if e =? 47 then Some 47
  else if e =? 98 then Some 8
  else if e =? 102 then Some 12
  else if e =? 110 then Some 10
  else if e =? 114 then Some 13
  else if e =? 116 then Some 9
  else None.

Definition is_high_surrogate (c : Z) : bool := (0xD800 <=? c) && (c <=? 0xDBFF).
Definition is_low_surrogate (c : Z) : bool := (0xDC00 <=? c) && (c <=? 0xDFFF).
Definition join_surrogates (hi lo : Z) : Z :=
  0x10000 + Z.lor (Z.shiftl (hi - 0xD800) 10) (lo - 0xDC00).

(** [scanstring(s, end)], strict, from just after the opening quote: the
    decoded string and what follows the closing quote.  An escaped high
    surrogate directly followed by an escaped low surrogate is one
    character. *)
Fixpoint scanstring (s : str) : result (str * str) :=
  match s with
  | [] => Raise JSONDecodeError
  | c :: r =>
      if c =? DQUOTE then Ok ([], r)
      else if c =? BACKSLASH then
        match r with
        | [] => Raise JSONDecodeError
        | e :: r1 =>
            if e =? 117 then
              match r1 with
              | h1 :: h2 :: h3 :: h4 :: r2 =>
                  match hex4_value h1 h2 h3 h4 with
                  | None => Raise JSONDecodeError
                  | Some u =>
                      match r2 with
                      | b :: e2 :: k1 :: k2 :: k3 :: k4 :: r3 =>
                          if is_high_surrogate u && (b =? BACKSLASH) && (e2 =? 117) then
                            match hex4_value k1 k2 k3 k4 with
                            | None => Raise JSONDecodeError
                            | Some u2 =>
                                if is_low_surrogate u2 then
                                  ' (t, rest) <- scanstring r3 ;;
                                  Ok (join_surrogates u u2 :: t, rest)
                                else
                                  ' (t, rest) <- scanstring r2 ;;
                                  Ok (u :: t, rest)
                            end
                          else
                            ' (t, rest) <- scanstring r2 ;;
                            Ok (u :: t, rest)
                      | _ =>
                          ' (t, rest) <- scanstring r2 ;;
                          Ok (u :: t, rest)
                      end
                  end
              | _ => Raise JSONDecodeError
              end
            else
              match backslash_escape e with
              | Some x =>
                  ' (t, rest) <- scanstring r1 ;;
                  Ok (x :: t, rest)
              | None => Raise JSONDecodeError
              end
        end
      else if c <? 32 then Raise JSONDecodeError
      else
        ' (t, rest) <- scanstring r ;;
        Ok (c :: t, rest)
  end.

Fixpoint span_digits (s : str) : str * str :=
  match s with
  | c :: r =>
      if is_digit c then let (d, t) := span_digits r in (c :: d, t)
      else ([], s)
  | [] => ([], [])
  end.

(** [0|[1-9][0-9]*] *)
Definition scan_int_part (s : str) : option (str * str) :=
  match s with
  | c :: r =>
      if c =? 48 then Some ([48], r)
      else if is_digit c then let (d, t) := span_digits r in Some (c :: d, t)
      else None
  | [] => None
  end.

(** [(\.[0-9]+)?]: the digits of the fraction, empty when there is none. *)
Definition scan_frac (s : str) : str * str :=
  match s with
  | c :: r =>
      if c =? DOT then
        match span_digits r with
        | ([], _) => ([], s)
        | (d, t) => (d, t)
        end
      else ([], s)
  | [] => ([], s)
  end.

(** [([eE][-+]?[0-9]+)?] *)
Definition scan_exp (s : str) : option Z * str :=
  match s with
  | c :: r =>
      if (c =? 101) || (c =? 69) then
        let (neg, r1) :=
          match r with
          | sg :: r' =>
              if sg =? 45 then (true, r')
              else if sg =? 43 then (false, r')
              else (false, r)
          | [] => (false, r)
          end in
        match span_digits r1 with
        | ([], _) => (None, s)
        | (d, t) => (Some (if neg then - digits_value d else digits_value d), t)
        end
      else (None, s)
  | [] => (None, s)
  end.

(** [sys.get_int_max_str_digits()], the default. *)
Definition int_max_str_digits : Z := 4300.

(** The scanner's [match_number]: [None] when no number starts here.  A
    number with a fraction or an exponent is a [float], the one nearest
    to the decimal written, otherwise an [int], whose conversion fails
    beyond [int_max_str_digits] digits. *)
Definition match_number (s : str) : option (result (json * str)) :=
  let (neg, s1) :=
    match s with
    | c :: r => if c =? 45 then (true, r) else (false, s)
    | [] => (false, s)
    end in
  match scan_int_part s1 with
  | None => None
  | Some (ip, s2) =>
      let (fp, s3) := scan_frac s2 in
      let (ex, s4) := scan_exp s3 in
      let sgn := fun x : Z => if neg then - x else x in
      match fp, ex with
      | [], None =>
          if int_max_str_digits <? len ip then Some (Raise ValueError)
          else Some (Ok (JInt (sgn (digits_value ip)), s4))
      | _, _ =>
          let e := match ex with Some e => e | None => 0 end in
          Some (Ok (JFloat (round64 (FFin (sgn (digits_value (ip ++ fp))) (e - len fp))),
                    s4))
      end
  end.

Section Containers.

(** The scanner for the values nested in a container. *)
Variable scan : str -> result (json * str).

(** The loop of [JSONArray], entered at the start of a value. *)
Fixpoint array_items (steps : nat) (s : str) : result (list json * str) :=
  match steps with
  | O => Raise Unreachable
  | S steps' =>
      ' (v, r) <- scan s ;;
      match skip_ws r with
      | c :: r' =>
          if c =? 93 then Ok ([v], r')
          else if c =? 44 then
            ' (vs, rest) <- array_items steps' (skip_ws r') ;;
            Ok (v :: vs, rest)
          else Raise JSONDecodeError
      | [] => Raise JSONDecodeError
      end
  end.

(** [JSONArray], from just after the opening bracket. *)
Definition parse_array (s : str) : result (json * str) :=
  match skip_ws s with
  | c :: r =>
      if c =? 93 then Ok (JList [], r)
      else
        ' (vs, rest) <- array_items (S (List.length s)) (skip_ws s) ;;
        Ok (JList vs, rest)
  | [] => Raise JSONDecodeError
  end.

(** The loop of [JSONObject], entered just after the opening quote of a
    key. *)
Fixpoint object_pairs (steps : nat) (s : str) : result (list (str * json) * str) :=
  match steps with
  | O => Raise Unreachable
  | S steps' =>
      ' (key, r) <- scanstring s ;;
      match skip_ws r with
      | c :: r1 =>
          if c =? 58 then
            ' (v, r2) <- scan (skip_ws r1) ;;
            match skip_ws r2 with
            | c2 :: r3 =>
                if c2 =? 125 then Ok ([(key, v)], r3)
                else if c2 =? 44 then
                  match skip_ws r3 with
                  | q :: r4 =>
                      if q =? DQUOTE then
                        ' (ps, rest) <- object_pairs steps' r4 ;;
                        Ok ((key, v) :: ps, rest)
                      else Raise JSONDecodeError
                  | [] => Raise JSONDecodeError
                  end
                else Raise JSONDecodeError
            | [] => Raise JSONDecodeError
            end
          else Raise JSONDecodeError
      | [] => Raise JSONDecodeError
      end
  end.

(** [JSONObject], from just after the opening brace. *)
Definition parse_object (s : str) : result (json * str) :=
  match skip_ws s with
  | c :: r =>
      if c =? 125 then Ok (JDict [], r)
      else if c =? DQUOTE then
        ' (ps, rest) <- object_pairs (S (List.length s)) r ;;
        Ok (JDict (dict_of_pairs ps), rest)
      else Raise JSONDecodeError
  | [] => Raise JSONDecodeError
  end.

End Containers.

Definition scan_literal (s : str) : option (json * str) :=
  match strip_prefix (lit "null") s with
  | Some r => Some (JNull, r)
  | None =>
  match strip_prefix (lit "true") s with
  | Some r => Some (JBool true, r)
  | None =>
  match strip_prefix (lit "false") s with
  | Some r => Some (JBool false, r)
  | None =>
  match strip_prefix (lit "NaN") s with
  | Some r => Some (JFloat FNaN, r)
  | None =>
  match strip_prefix (lit "Infinity") s with
  | Some r => Some (JFloat (FInf false), r)
  | None =>
  match strip_prefix (lit "-Infinity") s with
  | Some r => Some (JFloat (FInf true), r)
  | None => None
  end end end end end end.

(** [scan_once(s, idx)].  Entering a container takes one unit of the
    interpreter's recursion allowance [depth]. *)
Fixpoint scan_once (depth : nat) (s : str) : result (json * str) :=
  match s with
  | [] => Raise JSONDecodeError
  | c :: r =>
      if c =? DQUOTE then
        ' (t, rest) <- scanstring r ;;
        Ok (JStr t, rest)
      else if c =? 123 then
        match depth with
        | O => Raise RecursionError
        | S d => parse_object (scan_once d) r
        end
      else if c =? 91 then
        match depth with
        | O => Raise RecursionError
        | S d => parse_array (scan_once d) r
        end
      else
        match scan_literal s with
        | Some x => Ok x
        | None =>
            match match_number s with
            | Some x => x
            | None => Raise JSONDecodeError
            end
        end
  end.

(** [json.loads(s)] for a [str]. *)
Definition startswith_bom (s : str) : bool :=
  match s with
  | c :: _ => c =? 0xFEFF
  | [] => false
  end.

Definition loads (depth : nat) (s : str) : result json :=
  if startswith_bom s then Raise JSONDecodeError
  else
    ' (v, r) <- scan_once depth (skip_ws s) ;;
    match skip_ws r with
    | [] => Ok v
    | _ :: _ => Raise JSONDecodeError
    end.

(* ================================================================== *)
(** * datetime *)

(** A naive [datetime], counted in microseconds from 1970-01-01T00:00:00;
    the type ranges over the years 1 to 9999. *)
Definition datetime := Z.
Definition timedelta := Z.

Definition datetime_min : datetime := -62135596800000000.
Definition datetime_max : datetime := 253402300799999999.

(** [timedelta(hours=h)] *)
Definition timedelta_hours (h : Z) : timedelta := h * 3600 * 1000000.

(** [d + td] *)
Definition datetime_add (d : datetime) (td : timedelta) : result datetime :=
  let r := d + td in
  if (r <? datetime_min) || (datetime_max <? r) then Raise OverflowError
  else Ok r.

(** The zone of the process: the offset of its local time from UTC, in
    seconds, at each instant, an instant being counted in seconds from
    the epoch. *)
Definition zone := Z -> Z.

(** UTC as the zone of the process. *)
Definition utc : zone := fun _ => 0.

(** The first and the last second of the years 1 to 9999. *)
Definition seconds_min : Z := -62135596800.
Definition seconds_max : Z := 253402300799.

(** [local(u)] of [datetime]'s [local_to_seconds]: the reading of the
    local clock at the instant [u], in seconds; the reading must fall in
    the years 1 to 9999. *)
Definition local_seconds (utcoffset : zone) (u : Z) : result Z :=
  let lt := u + utcoffset u in
  if (lt <? seconds_min) || (seconds_max <? lt) then Raise ValueError
  else Ok lt.

Definition max_fold_seconds : Z := 24 * 3600.

(** [local_to_seconds] with [fold = 0]: an instant at which the local
    clock reads [t].  Where the clock reads [t] twice the earlier instant
    is found, and where it never does, in a gap, the instant that the
    offset before the gap gives. *)
Definition local_to_seconds (utcoffset : zone) (t : Z) : result Z :=
  lt <- local_seconds utcoffset t ;;
  let a := lt - t in
  let u1 := t - a in
  t1 <- local_seconds utcoffset u1 ;;
  b <- (if t1 =? t then
          lt' <- local_seconds utcoffset (u1 - max_fold_seconds) ;;
          Ok (lt' - (u1 - max_fold_seconds))
        else Ok (t1 - u1)) ;;
  if (t1 =? t) && (a =? b) then Ok u1
  else
    let u2 := t - b in
    t2 <- local_seconds utcoffset u2 ;;
    if t2 =? t then Ok u2
    else if t1 =? t then Ok u1
    else Ok (Z.max u1 u2).

(** [d.timestamp()] of a naive [datetime]: the reading is taken for one
    of the local clock, whatever clock wrote it, and the instant is
    [seconds + microsecond / 1e6] in float arithmetic. *)
Definition timestamp (utcoffset : zone) (d : datetime) : result pyfloat :=
  seconds <- local_to_seconds utcoffset (d / 1000000) ;;
  Ok (float_add (float_of_int seconds) (int_div_pow10 (d mod 1000000) 6)).

(** [a < b] for a value decoded from JSON against a [float]; [bool] is a
    subclass of [int], the other types are not ordered with numbers. *)
Definition py_lt (a : json) (b : pyfloat) : result bool :=
  match a with
  | JInt n => Ok (float_lt (FFin n 0) b)
  | JBool t => Ok (float_lt (FFin (if t then 1 else 0) 0) b)
  | JFloat f => Ok (float_lt f b)
  | _ => Raise TypeError
  end.

(* ================================================================== *)
(** * The models of [auth.py] *)

Record Group : Type := MkGroup {
  group_type : str;
  group_id : str;
  group_name : str
}.

Record DemoUser : Type := MkDemoUser {
  user_id : str;
  user_email : str;
  user_role : str;
  user_groups : list Group
}.

Record UserInDB : Type := MkUserInDB {
  db_id : str;
  db_email : str;
  db_password : str;
  db_role : str;
  db_groups : list Group
}.

(** What the module reads from the process it runs in: its global
    [JWT_SECRET], the clock behind [datetime.utcnow()], the recursion
    allowance left to the JSON scanner, and the zone that the process is
    set to. *)
Record runtime : Type := MkRuntime {
  JWT_SECRET : str;
  utcnow : datetime;
  recursion_limit : nat;
  utcoffset : zone
}.

(** [os.getenv("JWT_SECRET", "demo-secret-key")] *)
Definition getenv_JWT_SECRET (env : option str) : str :=
  match env with
  | Some s => s
  | None => lit "demo-secret-key"
  end.

(** ** pydantic.BaseModel *)

(** A [str] field accepts a string and nothing else that JSON can hold. *)
Definition validate_str (v : json) : result str :=
  match v with
  | JStr s => Ok s
  | _ => Raise ValidationError
  end.

(** A required field of the keyword arguments. *)
Definition required_str (kwargs : list (str * json)) (name : str) : result str :=
  match dict_get kwargs name with
  | Some v => validate_str v
  | None => Raise ValidationError
  end.

(** [Group] applied to keyword arguments; keywords that are not fields are ignored. *)
Definition Group_init (kwargs : list (str * json)) : result Group :=
  t <- required_str kwargs (lit "type") ;;
  i <- required_str kwargs (lit "id") ;;
  n <- required_str kwargs (lit "name") ;;
  Ok (MkGroup t i n).

(** [DemoUser(id=.., email=.., role=.., groups=..)] *)
Definition DemoUser_init (i e r : json) (gs : list Group) : result DemoUser :=
  i' <- validate_str i ;;
  e' <- validate_str e ;;
  r' <- validate_str r ;;
  Ok (MkDemoUser i' e' r' gs).

(** [group.model_dump()] *)
Definition model_dump (g : Group) : json :=
  JDict [(lit "type", JStr (group_type g));
         (lit "id", JStr (group_id g));
         (lit "name", JStr (group_name g))].

(** ** Operations on decoded JSON *)

(** The receiver of [payload.get]: only a [dict] has the method. *)
Definition as_dict (v : json) : result (list (str * json)) :=
  match v with
  | JDict d => Ok d
  | _ => Raise AttributeError
  end.

(** [d.get(k, default)] *)
Definition get_default (d : list (str * json)) (k : str) (default : json) : json :=
  match dict_get d k with
  | Some v => v
  | None => default
  end.

(** [d[k]] *)
Definition getitem (d : list (str * json)) (k : str) : result json :=
  match dict_get d k with
  | Some v => Ok v
  | None => Raise KeyError
  end.

(** [for x in v]: a list yields its items, a [dict] its keys, a [str] its
    characters. *)
Definition iterate (v : json) : result (list json) :=
  match v with
  | JList l => Ok l
  | JDict d => Ok (map (fun kv => JStr (fst kv)) d)
  | JStr s => Ok (map (fun c => JStr [c]) s)
  | _ => Raise TypeError
  end.

(** The argument unpacked into keywords: a mapping. *)
Definition as_kwargs (v : json) : result (list (str * json)) :=
  match v with
  | JDict d => Ok d
  | _ => Raise TypeError
  end.

Fixpoint mapM {A B : Type} (f : A -> result B) (l : list A) : result (list B) :=
  match l with
  | [] => Ok []
  | x :: r =>
      y <- f x ;;
      ys <- mapM f r ;;
      Ok (y :: ys)
  end.

(** ** The module *)

Definition simple_hash (password : str) : result str :=
  b <- encode password ;;
  Ok (hexlify (sha256 b)).

Definition verify_simple_password (plain_password hashed_password : str) : result bool :=
  h <- simple_hash plain_password ;;
  Ok (str_eqb h hashed_password).

(** The module-level list, built when the module is imported. *)
Definition demo_users_db : result (list UserInDB) :=
  h1 <- simple_hash (lit "password123") ;;
  h2 <- simple_hash (lit "userpass") ;;
  Ok [ MkUserInDB (lit "user-1") (lit "admin@example.com") h1 (lit "admin")
         [ MkGroup (lit "team") (lit "team-1") (lit "Engineering");
           MkGroup (lit "organization") (lit "org-1") (lit "Acme Corp") ];
       MkUserInDB (lit "user-2") (lit "user@example.com") h2 (lit "user")
         [ MkGroup (lit "team") (lit "team-1") (lit "Engineering") ] ].

Fixpoint first_with_email (db : list UserInDB) (email : str) : option UserInDB :=
  match db with
  | [] => None
  | user :: rest =>
      if str_eqb (db_email user) email then Some user
      else first_with_email rest email
  end.

Definition get_user_by_email (email : str) : result (option UserInDB) :=
  db <- demo_users_db ;;
  Ok (first_with_email db email).

Definition authenticate_user (email password : str) : result (option DemoUser) :=
  user_db <- get_user_by_email email ;;
  match user_db with
  | None => Ok None
  | Some u =>
      ok <- verify_simple_password password (db_password u) ;;
      if negb ok then Ok None
      else Ok (Some (MkDemoUser (db_id u) (db_email u) (db_role u) (db_groups u)))
  end.

(** [hmac.new(JWT_SECRET.encode(), payload_b64.encode(), hashlib.sha256).hexdigest()] *)
Definition sign (secret payload_b64 : str) : result str :=
  key <- encode secret ;;
  msg <- encode payload_b64 ;;
  Ok (hexlify (hmac_sha256 key msg)).

Definition claims (user : DemoUser) (expire : pyfloat) : json :=
  JDict [(lit "sub", JStr (user_email user));
         (lit "userId", JStr (user_id user));
         (lit "email", JStr (user_email user));
         (lit "role", JStr (user_role user));
         (lit "groups", JList (map model_dump (user_groups user)));
         (lit "exp", JFloat expire)].

Definition create_simple_jwt (rt : runtime) (user : DemoUser) : result str :=
  expire_at <- datetime_add (utcnow rt) (timedelta_hours 24) ;;
  expire <- timestamp (utcoffset rt) expire_at ;;
  let payload := claims user expire in
  let payload_str := dumps payload in
  payload_bytes <- encode payload_str ;;
  payload_b64 <- decode (urlsafe_b64encode payload_bytes) ;;
  signature <- sign (JWT_SECRET rt) payload_b64 ;;
  Ok (payload_b64 ++ [DOT] ++ signature).

(** The body of the [try] block of [verify_simple_jwt]. *)
Definition verify_body (rt : runtime) (token : str) : result (option DemoUser) :=
  let parts := split DOT token in
  if negb (len parts =? 2) then Ok None
  else
  match parts with
  | [payload_b64; signature] =>
      expected_signature <- sign (JWT_SECRET rt) payload_b64 ;;
      if negb (str_eqb signature expected_signature) then Ok None
      else
        raw <- urlsafe_b64decode payload_b64 ;;
        payload_str <- decode raw ;;
        payload <- loads (recursion_limit rt) payload_str ;;
        d <- as_dict payload ;;
        now <- timestamp (utcoffset rt) (utcnow rt) ;;
        expired <- py_lt (get_default d (lit "exp") (JInt 0)) now ;;
        if expired then Ok None
        else
          i <- getitem d (lit "userId") ;;
          e <- getitem d (lit "email") ;;
          r <- getitem d (lit "role") ;;
          g <- getitem d (lit "groups") ;;
          items <- iterate g ;;
          groups <- mapM (fun group => kw <- as_kwargs group ;; Group_init kw) items ;;
          user <- DemoUser_init i e r groups ;;
          Ok (Some user)
  | _ => Raise ValueError
  end.

Definition verify_simple_jwt (rt : runtime) (token : str) : result (option DemoUser) :=
  try_except (verify_body rt token) (Ok None).

Definition create_session_jwt := create_simple_jwt.
Definition verify_session_jwt := verify_simple_jwt.

(* ================================================================== *)
(** * Notions used in the statements and the proofs *)

Definition is_byte (x : Z) : Prop := 0 <= x < 256.
Definition is_ascii (c : Z) : Prop := 0 <= c < 128.
Fixpoint upto (n : nat) (from : Z) : list Z :=
  match n with
  | O => []
  | S k => from :: upto k (from + 1)
  end.

Definition below (n : Z) : list Z := upto (Z.to_nat n) 0.

(** An alphabet character as it reaches [a2b_base64] after the two
    translations. *)
Definition wire (n : Z) : Z :=
  urlsafe_decode_translation (urlsafe_encode_translation (b64_char n)).

Definition sextet1 (x : Z) : Z := Z.shiftr x 2.
Definition sextet2 (x y : Z) : Z := Z.lor (Z.shiftl (Z.land x 3) 4) (Z.shiftr y 4).
Definition sextet3 (y z : Z) : Z := Z.lor (Z.shiftl (Z.land y 15) 2) (Z.shiftr z 6).
Definition sextet4 (z : Z) : Z := Z.land z 63.

Definition in64 (v : Z) : bool := (0 <=? v) && (v <? 64).

(** A character that may stand in a token segment: ASCII and not the dot. *)
Definition segment_char (c : Z) : Prop := is_ascii c /\ c <> DOT.

Definition segment_charb (c : Z) : bool := (0 <=? c) && (c <? 128) && negb (c =? DOT).

(** A Unicode scalar value: a code point that is not a surrogate. *)
Definition scalar (c : Z) : Prop := 0 <= c <= 0x10FFFF /\ is_surrogate c = false.
Definition text (s : str) : Prop := Forall scalar s.

(** The value of a list of digit characters, least significant first. *)
Fixpoint rvalue (l : str) : Z :=
  match l with
  | [] => 0
  | c :: r => (c - 48) + 10 * rvalue r
  end.

Definition digitc (c : Z) : Prop := is_digit c = true.

(** What may follow a number without being taken for a part of it. *)
Definition stops (rest : str) : Prop :=
  match rest with
  | [] => True
  | c :: _ => is_digit c = false /\ c <> DOT /\ c <> 101 /\ c <> 69
  end.

(** The first character of a value: no white space, no closing bracket. *)
Definition starts_value (t : str) : Prop :=
  match t with
  | c :: _ => is_ws c = false /\ c <> 93
  | [] => False
  end.

(** [scan] reads the text [t] as the value [v], whatever follows. *)
Definition scans (scan : str -> result (json * str)) (t : str) (v : json) : Prop :=
  starts_value t /\ forall rest, stops rest -> scan (t ++ rest) = Ok (v, rest).

(** The text of the members of an object after the opening quote of the
    first key. *)
Fixpoint after_quote (d : list (str * json)) : str :=
  match d with
  | [] => []
  | (k, v) :: more =>
      flat_map escape_char k ++ [DQUOTE; 58; 32] ++ dumps v
      ++ match more with
         | [] => []
         | _ :: _ => [44; 32; DQUOTE] ++ after_quote more
         end
  end.

Definition member_text (kv : str * json) : str :=
  encode_basestring_ascii (fst kv) ++ lit ": " ++ dumps (snd kv).

(** A member whose key is text and whose value [scan] reads back. *)
Definition member_scans (scan : str -> result (json * str)) (kv kv' : str * json) : Prop :=
  fst kv = fst kv' /\ text (fst kv) /\ scans scan (dumps (snd kv)) (snd kv').

Definition valid_group (g : Group) : Prop :=
  text (group_type g) /\ text (group_id g) /\ text (group_name g).

(** A valid identity: every string is Unicode text. *)
Definition valid_identity (u : DemoUser) : Prop :=
  text (user_id u) /\ text (user_email u) /\ text (user_role u)
  /\ Forall valid_group (user_groups u).

(** A code point, and a Python [str]. *)
Definition codepoint (c : Z) : Prop := 0 <= c <= 0x10FFFF.
Definition pystr (s : str) : Prop := Forall codepoint s.

Definition pystr_group (g : Group) : Prop :=
  pystr (group_type g) /\ pystr (group_id g) /\ pystr (group_name g).

Definition pystr_identity (u : DemoUser) : Prop :=
  pystr (user_id u) /\ pystr (user_email u) /\ pystr (user_role u)
  /\ Forall pystr_group (user_groups u).

(** The claims read from the first segment of a token: lines 137-138 of
    [verify_simple_jwt]. *)
Definition read_claims (limit : nat) (payload_b64 : str) : result json :=
  raw <- urlsafe_b64decode payload_b64 ;;
  payload_str <- decode raw ;;
  loads limit payload_str.

(** The identity made from the claims, unless they have expired: lines
    141-149 of [verify_simple_jwt]. *)
Definition identity_of_claims (rt : runtime) (payload : json) : result (option DemoUser) :=
  d <- as_dict payload ;;
  now <- timestamp (utcoffset rt) (utcnow rt) ;;
  expired <- py_lt (get_default d (lit "exp") (JInt 0)) now ;;
  if expired then Ok None
  else
    i <- getitem d (lit "userId") ;;
    e <- getitem d (lit "email") ;;
    r <- getitem d (lit "role") ;;
    g <- getitem d (lit "groups") ;;
    items <- iterate g ;;
    groups <- mapM (fun group => kw <- as_kwargs group ;; Group_init kw) items ;;
    user <- DemoUser_init i e r groups ;;
    Ok (Some user).

(** A JSON object that carries the three fields of a group as strings. *)
Definition group_json (j : json) (g : Group) : Prop :=
  exists kw, j = JDict kw
    /\ dict_get kw (lit "type") = Some (JStr (group_type g))
    /\ dict_get kw (lit "id") = Some (JStr (group_id g))
    /\ dict_get kw (lit "name") = Some (JStr (group_name g)).

(** A token whose first segment is the given text, signed with [key]. *)
Definition signed_segment (key : bytes) (payload_b64 : str) : str :=
  payload_b64 ++ [DOT] ++ hexlify (hmac_sha256 key payload_b64).

(** A token with the given claims, signed with [key]. *)
Definition signed_token (key : bytes) (payload : json) : str :=
  signed_segment key (urlsafe_b64encode (dumps payload)).

(** A token of [u] that expires at [expire]. *)
Definition wire_token (key : bytes) (u : DemoUser) (expire : pyfloat) : str :=
  signed_token key (claims u expire).

(** Deciders for the hypotheses on strings. *)
Definition scalarb (c : Z) : bool :=
  (0 <=? c) && (c <=? 0x10FFFF) && negb (is_surrogate c).
Definition textb (s : str) : bool := forallb scalarb s.
Definition valid_groupb (g : Group) : bool :=
  textb (group_type g) && textb (group_id g) && textb (group_name g).
Definition valid_identityb (u : DemoUser) : bool :=
  textb (user_id u) && textb (user_email u) && textb (user_role u)
  && forallb valid_groupb (user_groups u).

(** The number that a decoded JSON value is in a comparison, if any. *)
Definition number_value (v : json) : option pyfloat :=
  match v with
  | JInt n => Some (FFin n 0)
  | JBool b => Some (FFin (if b then 1 else 0) 0)
  | JFloat f => Some f
  | _ => None
  end.

(** Two floats that denote the same number. *)
Definition float_eq (a b : pyfloat) : Prop :=
  match a, b with
  | FFin m1 e1, FFin m2 e2 =>
      m1 * 10 ^ (e1 - Z.min e1 e2) = m2 * 10 ^ (e2 - Z.min e1 e2)
  | FInf s1, FInf s2 => s1 = s2
  | _, _ => False
  end.

(** The first demo user, as [authenticate_user] returns it. *)
Definition admin : DemoUser :=
  MkDemoUser (lit "user-1") (lit "admin@example.com") (lit "admin")
    [ MkGroup (lit "team") (lit "team-1") (lit "Engineering");
      MkGroup (lit "organization") (lit "org-1") (lit "Acme Corp") ].

(** The zone America/New_York in 2024: five hours behind UTC, and four
    from 2024-03-10T07:00Z to 2024-11-03T06:00Z. *)
Definition new_york_2024 : zone :=
  fun u => if u <? 1710054000 then -18000
           else if u <? 1730613600 then -14400
           else -18000.

(** A process with the default secret, at 2023-11-14T22:13:20. *)
Definition demo_runtime (now : datetime) : runtime :=
  MkRuntime (getenv_JWT_SECRET None) now 1000 utc.
Definition t0 : datetime := 1700000000000000.

Definition codepointb (c : Z) : bool := (0 <=? c) && (c <=? 0x10FFFF).
Definition pystrb (s : str) : bool := forallb codepointb s.
Definition pystr_groupb (g : Group) : bool :=
  pystrb (group_type g) && pystrb (group_id g) && pystrb (group_name g).
Definition pystr_identityb (u : DemoUser) : bool :=
  pystrb (user_id u) && pystrb (user_email u) && pystrb (user_role u)
  && forallb pystr_groupb (user_groups u).

(** A JSON string literal, and the literal of a fixed key. *)
Definition spec_string (s : str) : str := encode_basestring_ascii s.
Definition spec_key (name : string) : str := [DQUOTE] ++ lit name ++ [DQUOTE].

(** An object with the members [type], [id] and [name]. *)
Definition spec_group (g : Group) : str :=
  lit "{" ++ spec_key "type" ++ lit ": " ++ spec_string (group_type g)
  ++ lit ", " ++ spec_key "id" ++ lit ": " ++ spec_string (group_id g)
  ++ lit ", " ++ spec_key "name" ++ lit ": " ++ spec_string (group_name g)
  ++ lit "}".

(** An object with the members [sub] (the email), [userId], [email],
    [role], [groups] and [exp] (seconds since the epoch, as the text of
    a number), in this order. *)
Definition spec_claims (u : DemoUser) (expire : str) : str :=
  lit "{" ++ spec_key "sub" ++ lit ": " ++ spec_string (user_email u)
  ++ lit ", " ++ spec_key "userId" ++ lit ": " ++ spec_string (user_id u)
  ++ lit ", " ++ spec_key "email" ++ lit ": " ++ spec_string (user_email u)
  ++ lit ", " ++ spec_key "role" ++ lit ": " ++ spec_string (user_role u)
  ++ lit ", " ++ spec_key "groups" ++ lit ": "
  ++ lit "[" ++ join (lit ", ") (map spec_group (user_groups u)) ++ lit "]"
  ++ lit ", " ++ spec_key "exp" ++ lit ": " ++ expire
  ++ lit "}".

(** The token with the given text for [exp]: the base64url text of the
    claims, a dot, and the lowercase hexadecimal HMAC-SHA256 of that text
    under the secret. *)
Definition spec_token_with (key : bytes) (u : DemoUser) (expire : str) : str :=
  let base64url_payload := urlsafe_b64encode (spec_claims u expire) in
  base64url_payload ++ lit "." ++ hexlify (hmac_sha256 key base64url_payload).

(** The token whose claims expire exactly 24 hours after [now]: [exp] is
    the decimal of that instant in seconds, to the microsecond. *)
Definition spec_token (key : bytes) (u : DemoUser) (now : datetime) : str :=
  spec_token_with key u (float_format (FFin (now + 24 * 3600 * 1000000) (-6))).

(** An instant in seconds as a [float]: the whole seconds plus the
    microseconds divided by [1e6], each rounded as binary64 rounds. *)
Definition unix_seconds (d : datetime) : pyfloat :=
  float_add (float_of_int (d / 1000000)) (int_div_pow10 (d mod 1000000) 6).

(** The token whose claims expire 24 hours after [now] as far as a
    [float] tells: [exp] is that instant in seconds as a [float], written
    as JSON writes it. *)
Definition spec_token_binary64 (key : bytes) (u : DemoUser) (now : datetime) : str :=
  spec_token_with key u (float_json_repr (unix_seconds (now + 24 * 3600 * 1000000))).

(** The first microsecond of the year 2300. *)
Definition year_2300 : datetime := 10413792000000001.

(** Claims like those of [admin], without [sub] and with an integer
    expiry. *)
Definition claims_without_sub (expire : Z) : json :=
  JDict [(lit "userId", JStr (lit "user-1"));
         (lit "email", JStr (lit "admin@example.com"));
         (lit "role", JStr (lit "admin"));
         (lit "groups", JList (map model_dump (user_groups admin)));
         (lit "exp", JInt expire)].


Definition demo_key : bytes := lit "demo-secret-key".
Definition day : Z := 86400000000.

(** Two secrets that are the same HMAC key: the first is longer than a
    block, the second is the text that the SHA-256 digest of the first
    happens to be in UTF-8. *)
Definition long_secret : str :=
  lit "demo-secret-key-xxxxxxxxxxxxxxxxxxxxxxxxxxxxxxxxxxxxxxxxxxxxxxxxx54765388".
Definition digest_secret : str :=
  [47; 8; 71; 120; 87; 1934; 108; 93; 22; 19; 108; 49; 67; 92; 89; 399; 88; 92;
   26; 819; 22; 82; 475117; 25; 32; 69].

(** A result that consumed input and is no exhaustion of a step bound. *)
Definition progress {A : Type} (s : str) (res : result (A * str)) : Prop :=
  match res with
  | Ok (_, r) => (List.length r < List.length s)%nat
  | Raise e => e <> Unreachable
  end.

(** The same for what is read after an opening bracket or brace. *)
Definition progress_after {A : Type} (s : str) (res : result (A * str)) : Prop :=
  match res with
  | Ok (_, r) => (List.length r <= List.length s)%nat
  | Raise e => e <> Unreachable
  end.

(** Claims of [admin] whose role is the given JSON value. *)
Definition claims_with_role (role : json) : json :=
  JDict [(lit "userId", JStr (lit "user-1"));
         (lit "email", JStr (lit "admin@example.com"));
         (lit "role", role);
         (lit "groups", JList []);
         (lit "exp", JFloat (FInf false))].

(** The token that CPython 3.11 issues to the administrator at [t0] under
    the default secret. *)
Definition admin_token : str :=
  lit "eyJzdWIiOiAiYWRtaW5AZXhhbXBsZS5jb20iLCAidXNlcklkIjogInVzZXIt"
     ++ lit "MSIsICJlbWFpbCI6ICJhZG1pbkBleGFtcGxlLmNvbSIsICJyb2xlIjogImFk"
     ++ lit "bWluIiwgImdyb3VwcyI6IFt7InR5cGUiOiAidGVhbSIsICJpZCI6ICJ0ZWFt"
     ++ lit "LTEiLCAibmFtZSI6ICJFbmdpbmVlcmluZyJ9LCB7InR5cGUiOiAib3JnYW5p"
     ++ lit "emF0aW9uIiwgImlkIjogIm9yZy0xIiwgIm5hbWUiOiAiQWNtZSBDb3JwIn1d"
     ++ lit "LCAiZXhwIjogMTcwMDA4NjQwMC4wfQ==.75e08b5931586df290623b091cc"
     ++ lit "0255e37e85f93a1ede35f893e820691b041f3".

(* ================================================================== *)
(** * The rest of [auth.py] *)

(** A lowercase hexadecimal digit. *)
Definition lower_hex (c : Z) : Prop := 48 <= c <= 57 \/ 97 <= c <= 102.

Definition lower_hexb (c : Z) : bool :=
  ((48 <=? c) && (c <=? 57)) || ((97 <=? c) && (c <=? 102)).

(** [get_demo_users()] *)
Definition get_demo_users : result (list json) :=
  db <- demo_users_db ;;
  Ok (map (fun user =>
             JDict [(lit "id", JStr (db_id user));
                    (lit "email", JStr (db_email user));
                    (lit "role", JStr (db_role user));
                    (lit "groups", JList (map model_dump (db_groups user)))])
          db).

(** The second demo user, as [authenticate_user] returns it. *)
Definition plain_user : DemoUser :=
  MkDemoUser (lit "user-2") (lit "user@example.com") (lit "user")
    [ MkGroup (lit "team") (lit "team-1") (lit "Engineering") ].

(** The two records of [demo_users_db]. *)
Definition admin_record : UserInDB :=
  MkUserInDB (lit "user-1") (lit "admin@example.com")
    (hexlify (sha256 (lit "password123"))) (lit "admin")
    [ MkGroup (lit "team") (lit "team-1") (lit "Engineering");
      MkGroup (lit "organization") (lit "org-1") (lit "Acme Corp") ].
Definition user_record : UserInDB :=
  MkUserInDB (lit "user-2") (lit "user@example.com")
    (hexlify (sha256 (lit "userpass"))) (lit "user")
    [ MkGroup (lit "team") (lit "team-1") (lit "Engineering") ].

(** What the server shows of an identity: [id], [email], [role] and
    [groups]. *)
Definition shown (user : DemoUser) : json :=
  JDict [(lit "id", JStr (user_id user));
         (lit "email", JStr (user_email user));
         (lit "role", JStr (user_role user));
         (lit "groups", JList (map model_dump (user_groups user)))].

(** The identity that [authenticate_user] makes of a record. *)
Definition identity_of (user_db : UserInDB) : DemoUser :=
  MkDemoUser (db_id user_db) (db_email user_db) (db_role user_db) (db_groups user_db).

(** A character of the URL-safe base64 alphabet, or the pad. *)
Definition b64url_char (c : Z) : Prop :=
  65 <= c <= 90 \/ 97 <= c <= 122 \/ 48 <= c <= 57 \/ c = 45 \/ c = 95 \/ c = PAD.

Definition b64url_charb (c : Z) : bool :=
  ((65 <=? c) && (c <=? 90)) || ((97 <=? c) && (c <=? 122))
  || ((48 <=? c) && (c <=? 57)) || (c =? 45) || (c =? 95) || (c =? PAD).

(** The claims have a string under the key. *)
Definition string_field (d : list (str * json)) (k : str) : Prop :=
  exists s, dict_get d k = Some (JStr s).

(** A zone nine hours ahead of UTC the year round, as Asia/Tokyo is. *)
Definition tokyo : zone := fun _ => 9 * 3600.

(** 9999-12-30T20:00:00 and 9999-12-31T20:00:00. *)
Definition last_day_but_one : datetime := 253402200000000000.
Definition last_day : datetime := 253402286400000000.

(* ================================================================== *)
(** * The models of [server.py] *)

(** What a route handler does: it returns a value, raises
    [HTTPException], or lets another exception escape to the framework. *)
Inductive outcome (A : Type) : Type :=
| Return (a : A)
| HTTPException (status_code : Z) (detail : str)
| Escapes (e : exn).

Arguments Return {A} a.
Arguments HTTPException {A} status_code detail.
Arguments Escapes {A} e.

(** A call of a function of [auth.py] in a handler. *)
Definition call {A B : Type} (m : result A) (k : A -> outcome B) : outcome B :=
  match m with
  | Ok a => k a
  | Raise e => Escapes e
  end.

(** [bool(s)] of a [str]: the empty string is false. *)
Definition str_bool (s : str) : bool :=
  match s with
  | [] => false
  | _ :: _ => true
  end.

Abbreviation COLON := (58) (only parsing).

Record LoginRequest : Type := MkLoginRequest {
  login_email : str;
  login_password : str
}.

Record LoginResponse : Type := MkLoginResponse {
  response_success : bool;
  response_user : option json;
  response_error : option str
}.

(** The arguments of one [response.set_cookie] call. *)
Record Cookie : Type := MkCookie {
  cookie_key : str;
  cookie_value : str;
  httponly : bool;
  secure : bool;
  samesite : str;
  max_age : Z
}.

(** The [Response] that the framework hands to a handler, as far as the
    handlers use it: the cookies set on it, in order. *)
Definition Response := list Cookie.

Definition set_cookie (response : Response) (key value : str)
    (httponly secure : bool) (samesite : str) (max_age : Z) : Response :=
  response ++ [MkCookie key value httponly secure samesite max_age].

(** [os.getenv("NODE_ENV") == "production"] *)
Definition production (NODE_ENV : option str) : bool :=
  match NODE_ENV with
  | Some v => str_eqb v (lit "production")
  | None => false
  end.

(** [get_current_user(session)], where [session] is the cookie of that
    name, if the request has one. *)
Definition get_current_user (rt : runtime) (session : option str) : result (option DemoUser) :=
  match session with
  | None => Ok None
  | Some s => if negb (str_bool s) then Ok None else verify_session_jwt rt s
  end.

(** [demo_user_to_vortex_format(user)] *)
Definition demo_user_to_vortex_format (user : DemoUser) : json :=
  JDict [(lit "userId", JStr (user_id user));
         (lit "identifiers", JDict [(lit "email", JStr (user_email user))]);
         (lit "groups",
          JList (map (fun group => JStr (group_type group ++ [COLON] ++ group_id group))
                     (user_groups user)));
         (lit "role", JStr (user_role user))].

(** [login(request, response)]: the handler of [POST /api/auth/login].
    The cookie is set after the last call that can raise, so that a
    response is changed only when the handler returns. *)
Definition login (rt : runtime) (NODE_ENV : option str)
    (request : LoginRequest) (response : Response) : outcome (LoginResponse * Response) :=
  if negb (str_bool (login_email request)) || negb (str_bool (login_password request)) then
    HTTPException 400 (lit "Email and password required")
  else
    call (authenticate_user (login_email request) (login_password request)) (fun user =>
    match user with
    | None => Return (MkLoginResponse false None (Some (lit "Invalid credentials")), response)
    | Some user =>
        call (create_session_jwt rt user) (fun session_token =>
        let response :=
          set_cookie response (lit "session") session_token
            true (production NODE_ENV) (lit "lax") (24 * 60 * 60) in
        Return (MkLoginResponse true
                  (Some (JDict [(lit "id", JStr (user_id user));
                                (lit "email", JStr (user_email user));
                                (lit "role", JStr (user_role user));
                                (lit "groups", JList (map model_dump (user_groups user)))]))
                  None,
                response))
    end).

(** [get_me(current_user)]: the handler of [GET /api/auth/me]. *)
Definition get_me (current_user : option DemoUser) : outcome json :=
  match current_user with
  | None => HTTPException 401 (lit "Not authenticated")
  | Some current_user =>
      Return (JDict [(lit "user",
                      JDict [(lit "id", JStr (user_id current_user));
                             (lit "email", JStr (user_email current_user));
                             (lit "role", JStr (user_role current_user));
                             (lit "groups",
                              JList (map model_dump (user_groups current_user)))])])
  end.

(** A request to [GET /api/auth/me]: the framework resolves the
    dependency [get_current_user] on the [session] cookie and passes its
    result to the handler. *)
Definition get_me_request (rt : runtime) (session : option str) : outcome json :=
  call (get_current_user rt session) get_me.

(** [get_demo_users_endpoint()]: the handler of [GET /api/demo/users]. *)
Definition get_demo_users_endpoint : outcome json :=
  call get_demo_users (fun users => Return (JDict [(lit "users", JList users)])).

(** The administrator with other names for the same groups. *)
Definition admin_renamed : DemoUser :=
  MkDemoUser (lit "user-1") (lit "admin@example.com") (lit "admin")
    [ MkGroup (lit "team") (lit "team-1") (lit "Platform");
      MkGroup (lit "organization") (lit "org-1") (lit "Acme") ].

(** ** The route that issues a Vortex token *)

(** The body of a request to [POST /api/vortex/jwt]; every field is
    optional. *)
Record JwtRequest : Type := MkJwtRequest {
  jwt_user_id : option str;
  jwt_identifiers : option (list (str * str));
  jwt_groups : option (list json);
  jwt_role : option str
}.

(** [bool(x)] of an optional [str] and of an optional [dict]: [None] and
    the empty value are false. *)
Definition opt_str_bool (o : option str) : bool :=
  match o with
  | Some s => str_bool s
  | None => false
  end.

Definition opt_dict_bool {V : Type} (o : option (list (str * V))) : bool :=
  match o with
  | Some (_ :: _) => true
  | _ => false
  end.

(** The fields of the request as the objects that are passed on. *)
Definition object_of_str (o : option str) : json :=
  match o with
  | Some s => JStr s
  | None => JNull
  end.

Definition object_of_identifiers (o : option (list (str * str))) : json :=
  match o with
  | Some d => JDict (map (fun kv => (fst kv, JStr (snd kv))) d)
  | None => JNull
  end.

Definition object_of_list (o : option (list json)) : json :=
  match o with
  | Some l => JList l
  | None => JNull
  end.

(** [v[k]] *)
Definition subscript (v : json) (k : str) : result json :=
  match v with
  | JDict d => getitem d k
  | _ => Raise TypeError
  end.

(** [request and request.user_id and request.identifiers] *)
Definition names_user (request : option JwtRequest) : bool :=
  match request with
  | Some request =>
      opt_str_bool (jwt_user_id request) && opt_dict_bool (jwt_identifiers request)
  | None => false
  end.

(** The Vortex SDK is no part of the repository.  Its client, its
    [JwtPayload], the token it generates and the exceptions it raises are
    parameters, and so is [str(e)] of an exception. *)
Section Vortex.

Variables Vortex JwtPayload Jwt SdkError : Type.

(** What can be raised in the [try] block of [generate_jwt]; each is an
    [Exception]. *)
Inductive raised : Type :=
| RaisedHTTP (status_code : Z) (detail : str)
| RaisedPython (e : exn)
| RaisedSdk (e : SdkError).

Variable JwtPayload_init : json -> json -> json -> json -> JwtPayload + SdkError.
Variable client_generate_jwt : Vortex -> JwtPayload -> Jwt + SdkError.
Variable exception_str : raised -> str.

Definition sdk {A B : Type} (m : A + SdkError) (k : A -> B + raised) : B + raised :=
  match m with
  | inl a => k a
  | inr e => inr (RaisedSdk e)
  end.

Definition python {A B : Type} (m : result A) (k : A -> B + raised) : B + raised :=
  match m with
  | Ok a => k a
  | Raise e => inr (RaisedPython e)
  end.

(** The [try] block of [generate_jwt]. *)
Definition generate_jwt_try (client : Vortex) (request : option JwtRequest)
    (current_user : option DemoUser) : list (str * Jwt) + raised :=
  let finish payload :=
    sdk (client_generate_jwt client payload) (fun jwt_token =>
    inl [(lit "jwt", jwt_token)]) in
  let from_session :=
    match current_user with
    | Some current_user =>
        let vortex_user := demo_user_to_vortex_format current_user in
        python (subscript vortex_user (lit "userId")) (fun user_id =>
        python (subscript vortex_user (lit "identifiers")) (fun identifiers =>
        python (subscript vortex_user (lit "groups")) (fun groups =>
        python (subscript vortex_user (lit "role")) (fun role =>
        sdk (JwtPayload_init user_id identifiers groups role) finish))))
    | None => inr (RaisedHTTP 401 (lit "Authentication required"))
    end in
  match request with
  | Some request =>
      if opt_str_bool (jwt_user_id request) && opt_dict_bool (jwt_identifiers request) then
        sdk (JwtPayload_init (object_of_str (jwt_user_id request))
                             (object_of_identifiers (jwt_identifiers request))
                             (object_of_list (jwt_groups request))
                             (object_of_str (jwt_role request))) finish
      else from_session
  | None => from_session
  end.

(** [generate_jwt(request, current_user)]: the handler of
    [POST /api/vortex/jwt]; [vortex_client] is the global, [None] when the
    SDK could not be imported. *)
Definition generate_jwt (vortex_client : option Vortex) (request : option JwtRequest)
    (current_user : option DemoUser) : outcome (list (str * Jwt)) :=
  match vortex_client with
  | None => HTTPException 503 (lit "Vortex SDK not available")
  | Some client =>
      match generate_jwt_try client request current_user with
      | inl v => Return v
      | inr e => HTTPException 500 (lit "Failed to generate JWT: " ++ exception_str e)
      end
  end.

End Vortex.

Arguments RaisedHTTP {SdkError} status_code detail.
Arguments RaisedPython {SdkError} e.
Arguments RaisedSdk {SdkError} e.
Arguments generate_jwt_try {Vortex JwtPayload Jwt SdkError}.
Arguments generate_jwt {Vortex JwtPayload Jwt SdkError}.

(** A stand-in for the SDK: the payload is the list of its four fields
    and the token their JSON text. *)
Definition toy_payload (user_id identifiers groups role : json) : list json + unit :=
  inl [user_id; identifiers; groups; role].
Definition toy_generate_jwt (client : unit) (payload : list json) : str + unit :=
  inl (dumps (JList payload)).
Definition toy_str (e : @raised unit) : str :=
  match e with
  | RaisedHTTP status_code detail => int_repr status_code ++ lit ": " ++ detail
  | _ => lit "error"
  end.

(* ================================================================== *)
(** * Properties *)

(* ================================================================== *)
(** * Strings *)

Lemma str_eqb_refl (a : str) : str_eqb a a = true.
Proof.
  induction a as [|x a IH]; simpl; [reflexivity|].
  now rewrite Z.eqb_refl, IH.
Qed.

Lemma str_eqb_eq (a b : str) : str_eqb a b = true <-> a = b.
Proof.
  split.
  - revert b; induction a as [|x a IH]; intros [|y b]; simpl; try discriminate; auto.
    intros H. apply andb_true_iff in H as [H1 H2].
    apply Z.eqb_eq in H1. apply IH in H2. congruence.
  - intros ->. apply str_eqb_refl.
Qed.

Lemma str_eqb_neq (a b : str) : a <> b -> str_eqb a b = false.
Proof.
  intros H. destruct (str_eqb a b) eqn:E; [|reflexivity].
  apply str_eqb_eq in E. contradiction.
Qed.

Lemma split_nonempty (sep : Z) (s : str) : split sep s <> [].
Proof.
  induction s as [|c r IH]; simpl; [discriminate|].
  destruct (c =? sep); [discriminate|].
  destruct (split sep r); [contradiction|discriminate].
Qed.

Lemma split_length (sep : Z) (s : str) :
  List.length (split sep s) = S (count sep s).
Proof.
  induction s as [|c r IH]; simpl; [reflexivity|].
  destruct (c =? sep); simpl; [now rewrite IH|].
  destruct (split sep r) eqn:E; simpl in *; [discriminate|assumption].
Qed.

Lemma count_app (c : Z) (a b : str) : count c (a ++ b) = (count c a + count c b)%nat.
Proof.
  induction a as [|x a IH]; simpl; [reflexivity|].
  destruct (x =? c); simpl; now rewrite IH.
Qed.

Lemma count_zero_notin (c : Z) (s : str) : ~ In c s -> count c s = O.
Proof.
  induction s as [|x s IH]; simpl; [reflexivity|].
  intros H. destruct (Z.eqb_spec x c) as [->|_]; [exfalso; auto|]. apply IH. tauto.
Qed.

Lemma split_without (sep : Z) (s : str) : ~ In sep s -> split sep s = [s].
Proof.
  induction s as [|c r IH]; simpl; [reflexivity|].
  intros H. destruct (Z.eqb_spec c sep) as [->|_]; [exfalso; auto|].
  rewrite IH by tauto. reflexivity.
Qed.

Lemma split_app_sep (sep : Z) (a b : str) :
  ~ In sep a -> split sep (a ++ sep :: b) = a :: split sep b.
Proof.
  induction a as [|c r IH]; simpl; intros H.
  - now rewrite Z.eqb_refl.
  - destruct (Z.eqb_spec c sep) as [->|_]; [exfalso; auto|].
    rewrite IH by tauto. reflexivity.
Qed.

(** A token made of two segments without dots splits into them. *)
Lemma split_token (a b : str) :
  ~ In DOT a -> ~ In DOT b -> split DOT (a ++ [DOT] ++ b) = [a; b].
Proof.
  intros Ha Hb. simpl. rewrite split_app_sep by assumption.
  now rewrite split_without.
Qed.

(* ================================================================== *)
(** * The segment-count guard and totality *)

Lemma verify_unless_two_parts (rt : runtime) (token : str) :
  List.length (split DOT token) <> 2%nat -> verify_body rt token = Ok None.
Proof.
  intros H. unfold verify_body.
  destruct (len (split DOT token) =? 2) eqn:E; [|reflexivity].
  apply Z.eqb_eq in E. unfold len in E. lia.
Qed.

Lemma verify_body_unless_one_dot (rt : runtime) (token : str) :
  count DOT token <> 1%nat -> verify_body rt token = Ok None.
Proof.
  intros H. apply verify_unless_two_parts. rewrite split_length. lia.
Qed.

(** C7. A string that does not split into exactly two parts at its dots,
    having no dot or more than one, is verified as nobody, and no fault
    is raised. *)
Theorem segment_count_guard (rt : runtime) (token : str) :
  count DOT token <> 1%nat -> verify_simple_jwt rt token = Ok None.
Proof.
  intros H. unfold verify_simple_jwt.
  now rewrite verify_body_unless_one_dot.
Qed.

Lemma segment_count_guard_witness :
  verify_simple_jwt (MkRuntime (lit "demo-secret-key") 1700000000000000 100 utc) (lit "a.b.c") = Ok None
  /\ verify_simple_jwt (MkRuntime (lit "demo-secret-key") 1700000000000000 100 utc) (lit "abc") = Ok None.
Proof.
  split; apply segment_count_guard; vm_compute; lia.
Defined.

(** C9. [verify_simple_jwt] is total: for every input string, whatever
    its claims segment decodes to or fails to decode to, it returns an
    identity or the one failure value and raises nothing. *)
Theorem verify_never_raises (rt : runtime) (token : str) :
  verify_simple_jwt rt token = Ok None
  \/ exists user, verify_simple_jwt rt token = Ok (Some user).
Proof.
  unfold verify_simple_jwt, try_except.
  destruct (verify_body rt token) as [[user|]|e]; eauto.
Qed.

(* ================================================================== *)
(** * Checking a property of small numbers by enumeration *)

Lemma upto_complete (n : nat) (from x : Z) :
  from <= x < from + Z.of_nat n -> In x (upto n from).
Proof.
  revert from. induction n as [|n IH]; intros from H; [lia|].
  cbn [upto]. destruct (Z.eq_dec from x) as [->|N]; [now left|].
  right. apply IH. lia.
Qed.

Lemma below_complete (n x : Z) : 0 <= x < n -> In x (below n).
Proof. intros H. apply upto_complete. lia. Qed.

Lemma forall_below (n : Z) (P : Z -> bool) :
  forallb P (below n) = true -> forall x, 0 <= x < n -> P x = true.
Proof.
  intros H x Hx. rewrite forallb_forall in H. apply H, below_complete, Hx.
Qed.

Lemma forall_below2 (n m : Z) (P : Z -> Z -> bool) :
  forallb (fun x => forallb (P x) (below m)) (below n) = true ->
  forall x y, 0 <= x < n -> 0 <= y < m -> P x y = true.
Proof.
  intros H x y Hx Hy.
  apply (forall_below m (P x)); [|assumption].
  apply (forall_below n (fun x => forallb (P x) (below m))); assumption.
Qed.

(* ================================================================== *)
(** * base64 *)

Lemma wire_value (n : Z) :
  0 <= n < 64 -> (wire n =? PAD) = false /\ b64_value (wire n) = Some n.
Proof.
  intros H.
  assert (E : ((negb (wire n =? PAD)) && match b64_value (wire n) with
               | Some v => v =? n | None => false end) = true).
  { revert n H. apply (forall_below 64). vm_compute. reflexivity. }
  apply andb_true_iff in E as [E1 E2]. split.
  - now apply negb_true_iff.
  - destruct (b64_value (wire n)); [|discriminate]. apply Z.eqb_eq in E2. now subst.
Qed.

Arguments sextet1 : simpl never.
Arguments sextet2 : simpl never.
Arguments sextet3 : simpl never.
Arguments sextet4 : simpl never.
Arguments wire : simpl never.

Lemma in64_range (v : Z) : in64 v = true -> 0 <= v < 64.
Proof. unfold in64. intros H. apply andb_true_iff in H. lia. Qed.

Lemma sextets_first (x y : Z) :
  is_byte x -> is_byte y ->
  0 <= sextet1 x < 64 /\ 0 <= sextet2 x y < 64 /\
  Z.lor (Z.shiftl (sextet1 x) 2) (Z.shiftr (sextet2 x y) 4) = x /\
  Z.land (sextet2 x y) 0x0F = Z.shiftr y 4.
Proof.
  intros Hx Hy.
  assert (E : (in64 (sextet1 x) && in64 (sextet2 x y)
               && (Z.lor (Z.shiftl (sextet1 x) 2) (Z.shiftr (sextet2 x y) 4) =? x)
               && (Z.land (sextet2 x y) 0x0F =? Z.shiftr y 4)) = true).
  { revert x y Hx Hy. apply (forall_below2 256 256). vm_compute. reflexivity. }
  do 3 (apply andb_true_iff in E as [E ?]).
  repeat split; try (apply in64_range; assumption); now apply Z.eqb_eq.
Qed.

Lemma sextets_second (y z : Z) :
  is_byte y -> is_byte z ->
  0 <= sextet3 y z < 64 /\ 0 <= sextet4 z < 64 /\
  Z.lor (Z.shiftl (Z.shiftr y 4) 4) (Z.shiftr (sextet3 y z) 2) = y /\
  Z.lor (Z.shiftl (Z.land (sextet3 y z) 0x03) 6) (sextet4 z) = z.
Proof.
  intros Hy Hz.
  assert (E : (in64 (sextet3 y z) && in64 (sextet4 z)
               && (Z.lor (Z.shiftl (Z.shiftr y 4) 4) (Z.shiftr (sextet3 y z) 2) =? y)
               && (Z.lor (Z.shiftl (Z.land (sextet3 y z) 0x03) 6) (sextet4 z) =? z)) = true).
  { revert y z Hy Hz. apply (forall_below2 256 256). vm_compute. reflexivity. }
  do 3 (apply andb_true_iff in E as [E ?]).
  repeat split; try (apply in64_range; assumption); now apply Z.eqb_eq.
Qed.

Lemma sextet_tails (x : Z) :
  is_byte x ->
  Z.shiftl (Z.land x 3) 4 = sextet2 x 0 /\ Z.shiftl (Z.land x 15) 2 = sextet3 x 0.
Proof.
  intros Hx.
  assert (E : ((Z.shiftl (Z.land x 3) 4 =? sextet2 x 0)
               && (Z.shiftl (Z.land x 15) 2 =? sextet3 x 0)) = true).
  { revert x Hx. apply (forall_below 256). vm_compute. reflexivity. }
  apply andb_true_iff in E as [E1 E2]. split; now apply Z.eqb_eq.
Qed.

(** One step of the decoder on an alphabet character. *)
Lemma a2b_step (n : Z) (r : bytes) (quad_pos leftchar pads : Z) :
  0 <= n < 64 ->
  a2b_base64 (wire n :: r) quad_pos leftchar pads =
    if quad_pos =? 0 then a2b_base64 r 1 n 0
    else if quad_pos =? 1 then
      t <- a2b_base64 r 2 (Z.land n 0x0F) 0 ;;
      Ok (Z.lor (Z.shiftl leftchar 2) (Z.shiftr n 4) :: t)
    else if quad_pos =? 2 then
      t <- a2b_base64 r 3 (Z.land n 0x03) 0 ;;
      Ok (Z.lor (Z.shiftl leftchar 4) (Z.shiftr n 2) :: t)
    else
      t <- a2b_base64 r 0 0 0 ;;
      Ok (Z.lor (Z.shiftl leftchar 6) n :: t).
Proof.
  intros H. destruct (wire_value n H) as [E1 E2].
  cbn [a2b_base64]. rewrite E1, E2. reflexivity.
Qed.

Lemma list_ind3 {A : Type} (P : list A -> Prop) :
  P [] -> (forall x, P [x]) -> (forall x y, P [x; y]) ->
  (forall x y z r, P r -> P (x :: y :: z :: r)) ->
  forall l, P l.
Proof.
  intros H0 H1 H2 H3.
  assert (H : forall l, P l /\ (forall x, P (x :: l)) /\ (forall x y, P (x :: y :: l))).
  { induction l as [|a l (IH0 & IH1 & IH2)]; auto. }
  intros l. apply H.
Qed.

Lemma wired_1 (x : Z) :
  is_byte x ->
  map urlsafe_decode_translation (map urlsafe_encode_translation (b2a_base64 [x]))
  = [wire (sextet1 x); wire (sextet2 x 0); PAD; PAD].
Proof.
  intros Hx. destruct (sextet_tails x Hx) as [T1 _].
  cbn [b2a_base64 map]. rewrite T1. reflexivity.
Qed.

Lemma wired_2 (x y : Z) :
  is_byte y ->
  map urlsafe_decode_translation (map urlsafe_encode_translation (b2a_base64 [x; y]))
  = [wire (sextet1 x); wire (sextet2 x y); wire (sextet3 y 0); PAD].
Proof.
  intros Hy. destruct (sextet_tails y Hy) as [_ T2].
  cbn [b2a_base64 map]. rewrite T2. reflexivity.
Qed.

Lemma wired_3 (x y z : Z) (r : bytes) :
  map urlsafe_decode_translation (map urlsafe_encode_translation (b2a_base64 (x :: y :: z :: r)))
  = wire (sextet1 x) :: wire (sextet2 x y) :: wire (sextet3 y z) :: wire (sextet4 z)
    :: map urlsafe_decode_translation (map urlsafe_encode_translation (b2a_base64 r)).
Proof. reflexivity. Qed.

Theorem a2b_b2a (b : bytes) :
  Forall is_byte b ->
  a2b_base64 (map urlsafe_decode_translation (urlsafe_b64encode b)) 0 0 0 = Ok b.
Proof.
  unfold urlsafe_b64encode.
  induction b as [|x|x y|x y z r IH] using list_ind3; intros Hb.
  - reflexivity.
  - inversion_clear Hb as [|? ? Hx _].
    assert (H0 : is_byte 0) by (unfold is_byte; lia).
    destruct (sextets_first x 0 Hx H0) as (R1 & R2 & E1 & _).
    rewrite wired_1 by assumption.
    rewrite ?a2b_step by assumption. rewrite E1. reflexivity.
  - inversion_clear Hb as [|? ? Hx Hb']. inversion_clear Hb' as [|? ? Hy _].
    assert (H0 : is_byte 0) by (unfold is_byte; lia).
    destruct (sextets_first x y Hx Hy) as (R1 & R2 & E1 & E2).
    destruct (sextets_second y 0 Hy H0) as (R3 & _ & E3 & _).
    rewrite wired_2 by assumption.
    rewrite ?a2b_step by assumption. rewrite E1, E2, E3. reflexivity.
  - inversion_clear Hb as [|? ? Hx Hb']. inversion_clear Hb' as [|? ? Hy Hb''].
    inversion_clear Hb'' as [|? ? Hz Hr].
    destruct (sextets_first x y Hx Hy) as (R1 & R2 & E1 & E2).
    destruct (sextets_second y z Hy Hz) as (R3 & R4 & E3 & E4).
    rewrite wired_3.
    rewrite ?a2b_step by assumption.
    rewrite (IH Hr), E1, E2, E3, E4. reflexivity.
Qed.

Lemma encode_ascii (s : str) : Forall is_ascii s -> encode s = Ok s.
Proof.
  induction 1 as [|c s Hc _ IH]; [reflexivity|].
  cbn [encode]. rewrite IH. unfold utf8_encode_char, is_ascii in *.
  replace ((c <? 0) || (1114111 <? c)) with false by lia.
  replace (c <? 128) with true by lia. reflexivity.
Qed.

Lemma decode_ascii (b : bytes) : Forall is_ascii b -> decode b = Ok b.
Proof.
  induction 1 as [|c s Hc _ IH]; [reflexivity|].
  cbn [decode]. rewrite IH. unfold is_ascii in *.
  replace ((0 <=? c) && (c <? 128)) with true by lia. reflexivity.
Qed.

Lemma bytes_from_decode_data_ascii (s : str) :
  Forall is_ascii s -> bytes_from_decode_data s = Ok s.
Proof.
  intros H. unfold bytes_from_decode_data.
  replace (forallb _ s) with true; [reflexivity|].
  symmetry. apply forallb_forall. intros c Hc.
  rewrite Forall_forall in H. specialize (H c Hc). unfold is_ascii in H. lia.
Qed.

Lemma segment_chars_ascii (s : str) : Forall segment_char s -> Forall is_ascii s.
Proof. apply Forall_impl. now intros c [H _]. Qed.

Lemma segment_chars_no_dot (s : str) : Forall segment_char s -> ~ In DOT s.
Proof.
  intros H Hin. rewrite Forall_forall in H. destruct (H _ Hin) as [_ N]. now apply N.
Qed.

Lemma segment_charb_ok (c : Z) : segment_charb c = true -> segment_char c.
Proof.
  unfold segment_charb, segment_char, is_ascii. intros H.
  apply andb_true_iff in H as [H1 H2]. apply negb_true_iff in H2. lia.
Qed.

Lemma alphabet_segment_char (n : Z) :
  0 <= n < 64 -> segment_char (urlsafe_encode_translation (b64_char n)).
Proof.
  intros H. apply segment_charb_ok. revert n H.
  apply (forall_below 64). vm_compute. reflexivity.
Qed.

Lemma pad_segment_char : segment_char (urlsafe_encode_translation PAD).
Proof. apply segment_charb_ok. reflexivity. Qed.

Lemma urlsafe_b64encode_chars (b : bytes) :
  Forall is_byte b -> Forall segment_char (urlsafe_b64encode b).
Proof.
  unfold urlsafe_b64encode.
  induction b as [|x|x y|x y z r IH] using list_ind3; intros Hb.
  - constructor.
  - inversion_clear Hb as [|? ? Hx _].
    assert (H0 : is_byte 0) by (unfold is_byte; lia).
    destruct (sextets_first x 0 Hx H0) as (R1 & R2 & _).
    destruct (sextet_tails x Hx) as [T1 _].
    cbn [b2a_base64 map]. rewrite T1.
    repeat constructor; try apply alphabet_segment_char; try apply pad_segment_char; assumption.
  - inversion_clear Hb as [|? ? Hx Hb']. inversion_clear Hb' as [|? ? Hy _].
    assert (H0 : is_byte 0) by (unfold is_byte; lia).
    destruct (sextets_first x y Hx Hy) as (R1 & R2 & _).
    destruct (sextets_second y 0 Hy H0) as (R3 & _).
    destruct (sextet_tails y Hy) as [_ T2].
    cbn [b2a_base64 map]. rewrite T2.
    repeat constructor; try apply alphabet_segment_char; try apply pad_segment_char; assumption.
  - inversion_clear Hb as [|? ? Hx Hb']. inversion_clear Hb' as [|? ? Hy Hb''].
    inversion_clear Hb'' as [|? ? Hz Hr].
    destruct (sextets_first x y Hx Hy) as (R1 & R2 & _).
    destruct (sextets_second y z Hy Hz) as (R3 & R4 & _).
    cbn [b2a_base64 map].
    repeat (constructor; [apply alphabet_segment_char; assumption|]).
    apply IH, Hr.
Qed.

Lemma be_bytes_range (n : nat) (x : Z) : Forall is_byte (be_bytes n x).
Proof.
  induction n as [|n IH]; cbn [be_bytes]; constructor; [|assumption].
  unfold is_byte. apply Z.mod_pos_bound. lia.
Qed.

Lemma sha256_range (msg : bytes) : Forall is_byte (sha256 msg).
Proof.
  unfold sha256. apply Forall_flat_map. apply Forall_forall.
  intros w _. apply be_bytes_range.
Qed.

Lemma hexlify_chars (b : bytes) : Forall is_byte b -> Forall segment_char (hexlify b).
Proof.
  induction 1 as [|x b Hx _ IH]; [constructor|].
  unfold hexlify. cbn [flat_map app].
  assert (E : (segment_charb (hex_digit (x / 16)) && segment_charb (hex_digit (x mod 16))) = true).
  { revert x Hx. apply (forall_below 256). vm_compute. reflexivity. }
  apply andb_true_iff in E as [E1 E2].
  constructor; [now apply segment_charb_ok|].
  constructor; [now apply segment_charb_ok|]. exact IH.
Qed.

Lemma signature_chars (key msg : bytes) : Forall segment_char (hexlify (hmac_sha256 key msg)).
Proof. apply hexlify_chars. unfold hmac_sha256. apply sha256_range. Qed.

Lemma ascii_is_byte (s : str) : Forall is_ascii s -> Forall is_byte s.
Proof. apply Forall_impl. unfold is_ascii, is_byte. lia. Qed.

(* ================================================================== *)
(** * Bits *)

Lemma lor_shiftl_add (hi lo k : Z) :
  0 <= k -> 0 <= lo < 2 ^ k -> Z.lor (Z.shiftl hi k) lo = hi * 2 ^ k + lo.
Proof.
  intros Hk Hlo.
  assert (D : Z.land (Z.shiftl hi k) lo = 0).
  { apply Z.bits_inj'. intros i Hi. rewrite Z.land_spec, Z.bits_0.
    destruct (Z.lt_ge_cases i k) as [L|G].
    - now rewrite Z.shiftl_spec_low.
    - rewrite <- (Z.mod_small lo (2 ^ k)) by lia.
      rewrite Z.mod_pow2_bits_high by lia. apply andb_false_r. }
  rewrite <- Z.lxor_lor by exact D.
  rewrite <- Z.add_nocarry_lxor by exact D.
  now rewrite Z.shiftl_mul_pow2.
Qed.

Lemma land_low_bits (n k : Z) : 0 <= k -> Z.land n (2 ^ k - 1) = n mod 2 ^ k.
Proof.
  intros Hk. rewrite <- Z.land_ones by exact Hk. f_equal.
  rewrite Z.ones_equiv. lia.
Qed.

(** The surrogate pair written for a character beyond the BMP, and what the
    scanner makes of it. *)
Lemma surrogate_pair (c : Z) :
  0x10000 <= c <= 0x10FFFF ->
  let n := c - 0x10000 in
  let s1 := Z.lor 0xD800 (Z.land (Z.shiftr n 10) 0x3FF) in
  let s2 := Z.lor 0xDC00 (Z.land n 0x3FF) in
  0xD800 <= s1 <= 0xDBFF /\ 0xDC00 <= s2 <= 0xDFFF /\ join_surrogates s1 s2 = c.
Proof.
  intros Hc n s1 s2.
  assert (Hn : 0 <= n < 2 ^ 20) by (unfold n; lia).
  assert (E1 : Z.land (Z.shiftr n 10) 0x3FF = n / 2 ^ 10).
  { change 0x3FF with (2 ^ 10 - 1). rewrite land_low_bits by lia.
    rewrite Z.shiftr_div_pow2 by lia. apply Z.mod_small.
    split; [apply Z.div_pos; lia|]. apply Z.div_lt_upper_bound; lia. }
  assert (E2 : Z.land n 0x3FF = n mod 2 ^ 10).
  { change 0x3FF with (2 ^ 10 - 1). apply land_low_bits. lia. }
  assert (Hhi : 0 <= n / 2 ^ 10 < 2 ^ 10).
  { split; [apply Z.div_pos; lia|]. apply Z.div_lt_upper_bound; lia. }
  assert (Hlo : 0 <= n mod 2 ^ 10 < 2 ^ 10) by (apply Z.mod_pos_bound; lia).
  assert (S1 : s1 = 0xD800 + n / 2 ^ 10).
  { unfold s1. rewrite E1. change 0xD800 with (Z.shiftl 54 10).
    rewrite lor_shiftl_add by lia. rewrite Z.shiftl_mul_pow2 by lia. reflexivity. }
  assert (S2 : s2 = 0xDC00 + n mod 2 ^ 10).
  { unfold s2. rewrite E2. change 0xDC00 with (Z.shiftl 55 10).
    rewrite lor_shiftl_add by lia. rewrite Z.shiftl_mul_pow2 by lia. reflexivity. }
  split; [|split].
  - rewrite S1. lia.
  - rewrite S2. lia.
  - unfold join_surrogates. rewrite S1, S2.
    replace (0xD800 + n / 2 ^ 10 - 0xD800) with (n / 2 ^ 10) by lia.
    replace (0xDC00 + n mod 2 ^ 10 - 0xDC00) with (n mod 2 ^ 10) by lia.
    rewrite lor_shiftl_add by lia.
    pose proof (Z.div_mod n (2 ^ 10)). unfold n in *. lia.
Qed.

Lemma hex4_value_hex4 (n : Z) :
  0 <= n < 65536 ->
  hex4_value (hex_digit (n / 4096)) (hex_digit ((n / 256) mod 16))
             (hex_digit ((n / 16) mod 16)) (hex_digit (n mod 16)) = Some n.
Proof.
  intros H.
  assert (E : match hex4_value (hex_digit (n / 4096)) (hex_digit ((n / 256) mod 16))
                    (hex_digit ((n / 16) mod 16)) (hex_digit (n mod 16)) with
              | Some v => v =? n
              | None => false
              end = true).
  { revert n H. apply (forall_below 65536). vm_compute. reflexivity. }
  destruct hex4_value; [|discriminate]. apply Z.eqb_eq in E. now subst.
Qed.

(* ================================================================== *)
(** * Scanning an escaped string *)

Lemma scan_keep (c : Z) (r : str) :
  (c =? DQUOTE) = false -> (c =? BACKSLASH) = false -> (c <? 32) = false ->
  scanstring (c :: r) = ' (t, rest) <- scanstring r ;; Ok (c :: t, rest).
Proof. intros H1 H2 H3. cbn [scanstring]. now rewrite H1, H2, H3. Qed.

Lemma scan_escape (e x : Z) (r : str) :
  (e =? 117) = false -> backslash_escape e = Some x ->
  scanstring (BACKSLASH :: e :: r) = ' (t, rest) <- scanstring r ;; Ok (x :: t, rest).
Proof. intros H1 H2. cbn [scanstring]. cbn [Z.eqb Pos.eqb]. now rewrite H1, H2. Qed.

Lemma scan_u_single (h1 h2 h3 h4 u : Z) (r : str) :
  hex4_value h1 h2 h3 h4 = Some u -> is_high_surrogate u = false ->
  scanstring (BACKSLASH :: 117 :: h1 :: h2 :: h3 :: h4 :: r)
  = ' (t, rest) <- scanstring r ;; Ok (u :: t, rest).
Proof.
  intros H1 H2. cbn [scanstring]. cbn [Z.eqb Pos.eqb]. rewrite H1, H2.
  destruct r as [|b [|e2 [|k1 [|k2 [|k3 [|k4 r3]]]]]]; reflexivity.
Qed.

Lemma scan_u_pair (h1 h2 h3 h4 k1 k2 k3 k4 u u2 : Z) (r : str) :
  hex4_value h1 h2 h3 h4 = Some u -> is_high_surrogate u = true ->
  hex4_value k1 k2 k3 k4 = Some u2 -> is_low_surrogate u2 = true ->
  scanstring (BACKSLASH :: 117 :: h1 :: h2 :: h3 :: h4
              :: BACKSLASH :: 117 :: k1 :: k2 :: k3 :: k4 :: r)
  = ' (t, rest) <- scanstring r ;; Ok (join_surrogates u u2 :: t, rest).
Proof.
  intros H1 H2 H3 H4. cbn [scanstring]. cbn [Z.eqb Pos.eqb].
  rewrite H1, H2. cbn [andb]. now rewrite H3, H4.
Qed.

Lemma scan_escape_char (c : Z) (r : str) :
  scalar c ->
  scanstring (escape_char c ++ r) = ' (t, rest) <- scanstring r ;; Ok (c :: t, rest).
Proof.
  intros [Hr Hs]. unfold is_surrogate in Hs. unfold escape_char.
  destruct (Z.eqb_spec c DQUOTE) as [->|N1]; [reflexivity|].
  destruct (Z.eqb_spec c BACKSLASH) as [->|N2]; [reflexivity|].
  destruct ((32 <=? c) && (c <=? 126)) eqn:P.
  { cbn [app]. apply scan_keep; lia. }
  destruct (Z.eqb_spec c 10) as [->|N3]; [reflexivity|].
  destruct (Z.eqb_spec c 13) as [->|N4]; [reflexivity|].
  destruct (Z.eqb_spec c 9) as [->|N5]; [reflexivity|].
  destruct (Z.eqb_spec c 12) as [->|N6]; [reflexivity|].
  destruct (Z.eqb_spec c 8) as [->|N7]; [reflexivity|].
  destruct (Z.ltb_spec c 0x10000) as [L|G].
  - cbn [app hex4]. apply scan_u_single.
    + apply hex4_value_hex4. lia.
    + unfold is_high_surrogate. lia.
  - destruct (surrogate_pair c) as (S1 & S2 & J); [lia|].
    cbn zeta in S1, S2, J.
    set (s1 := Z.lor 0xD800 (Z.land (Z.shiftr (c - 0x10000) 10) 0x3FF)) in *.
    set (s2 := Z.lor 0xDC00 (Z.land (c - 0x10000) 0x3FF)) in *.
    cbn [app hex4]. rewrite (scan_u_pair _ _ _ _ _ _ _ _ s1 s2).
    + now rewrite J.
    + apply hex4_value_hex4. lia.
    + unfold is_high_surrogate. lia.
    + apply hex4_value_hex4. lia.
    + unfold is_low_surrogate. lia.
Qed.

(** What [encode_basestring_ascii] writes between the quotes is read back
    as the string itself. *)
Lemma scanstring_escaped (s rest : str) :
  text s -> scanstring (flat_map escape_char s ++ DQUOTE :: rest) = Ok (s, rest).
Proof.
  induction 1 as [|c s Hc _ IH]; [reflexivity|].
  cbn [flat_map]. rewrite <- app_assoc, scan_escape_char by exact Hc.
  now rewrite IH.
Qed.

(* ================================================================== *)
(** * Decimal digits *)

Lemma len_app {A : Type} (a b : list A) : len (a ++ b) = len a + len b.
Proof. unfold len. rewrite length_app. lia. Qed.

Lemma len_nonneg {A : Type} (a : list A) : 0 <= len a.
Proof. unfold len. lia. Qed.

Lemma digits_value_snoc (a : str) (c : Z) :
  digits_value (a ++ [c]) = 10 * digits_value a + (c - 48).
Proof. unfold digits_value. now rewrite fold_left_app. Qed.

Lemma digits_value_rev (l : str) : digits_value (rev l) = rvalue l.
Proof.
  induction l as [|c l IH]; [reflexivity|].
  cbn [rev rvalue]. rewrite digits_value_snoc, IH. lia.
Qed.

Lemma digits_value_app (a b : str) :
  digits_value (a ++ b) = digits_value a * 10 ^ len b + digits_value b.
Proof.
  induction b as [|c b IH] using rev_ind.
  - rewrite app_nil_r. cbn. lia.
  - rewrite app_assoc, !digits_value_snoc, IH, len_app.
    change (len [c]) with 1. rewrite Z.pow_add_r by (pose proof (len_nonneg b); lia).
    lia.
Qed.

Lemma digits_value_zeros (n : Z) : digits_value (zeros n) = 0.
Proof.
  unfold zeros. induction (Z.to_nat n) as [|k IH]; [reflexivity|].
  change (repeat 48 (S k)) with ([48] ++ repeat 48 k).
  rewrite digits_value_app, IH. reflexivity.
Qed.

Lemma len_zeros (n : Z) : 0 <= n -> len (zeros n) = n.
Proof. intros H. unfold len, zeros. rewrite repeat_length. lia. Qed.

Lemma zeros_digits (n : Z) : Forall digitc (zeros n).
Proof.
  unfold zeros. induction (Z.to_nat n); cbn [repeat]; constructor; [reflexivity|assumption].
Qed.

(** The digits of a positive number: they are digits, they denote it, the
    most significant one is not zero, and their count is its magnitude. *)
Lemma digits_rev_spec (fuel : nat) (m : Z) :
  0 < m < 10 ^ Z.of_nat fuel ->
  let D := digits_rev fuel m in
  Forall digitc D /\ rvalue D = m /\ last D 48 <> 48
  /\ 10 ^ (len D - 1) <= m < 10 ^ len D.
Proof.
  revert m. induction fuel as [|f IH]; intros m Hm.
  - cbn in Hm. lia.
  - cbn [digits_rev]. destruct (Z.ltb_spec m 10) as [L|G].
    + cbv zeta. change (len [48 + m]) with 1. cbn [rvalue last].
      change (10 ^ (1 - 1)) with 1. change (10 ^ 1) with 10.
      repeat split; try lia.
      constructor; [unfold digitc, is_digit; lia|constructor].
    + assert (Hq : 0 < m / 10 < 10 ^ Z.of_nat f).
      { split; [apply Z.div_str_pos; lia|].
        apply Z.div_lt_upper_bound; [lia|].
        rewrite Nat2Z.inj_succ, Z.pow_succ_r in Hm by lia. lia. }
      destruct (IH _ Hq) as (F & V & Lst & Mag).
      set (D := digits_rev f (m / 10)) in *.
      pose proof (Z.div_mod m 10 ltac:(lia)) as DM.
      pose proof (Z.mod_pos_bound m 10 ltac:(lia)) as MB.
      assert (ND : D <> []).
      { intros E. rewrite E in V. cbn in V. lia. }
      cbv zeta. repeat split.
      * constructor; [unfold digitc, is_digit; lia|exact F].
      * cbn [rvalue]. rewrite V. lia.
      * destruct D as [|d D']; [contradiction|exact Lst].
      * replace (len ((48 + m mod 10) :: D) - 1) with (Z.succ (len D - 1))
          by (unfold len; cbn [List.length]; lia).
        rewrite Z.pow_succ_r; [lia|].
        destruct D; [contradiction|unfold len; cbn [List.length]; lia].
      * replace (len ((48 + m mod 10) :: D)) with (Z.succ (len D))
          by (unfold len; cbn [List.length]; lia).
        rewrite Z.pow_succ_r by apply len_nonneg. lia.
Qed.

Lemma digits_fuel (m : Z) : 0 < m -> 0 < m < 10 ^ Z.of_nat (S (Z.to_nat (Z.log2 m))).
Proof.
  intros H. split; [exact H|].
  pose proof (Z.log2_nonneg m) as L0.
  destruct (Z.log2_spec m H) as [_ U].
  replace (Z.of_nat (S (Z.to_nat (Z.log2 m)))) with (Z.succ (Z.log2 m)) by lia.
  eapply Z.lt_le_trans; [exact U|].
  apply Z.pow_le_mono_l. lia.
Qed.

Lemma strip_zeros_spec (D rd : str) (z : Z) :
  strip_zeros D = (rd, z) ->
  0 <= z /\ rvalue D = rvalue rd * 10 ^ z /\ len D = z + len rd
  /\ (Forall digitc D -> Forall digitc rd)
  /\ (last D 48 <> 48 -> rd <> [] /\ last rd 48 = last D 48).
Proof.
  revert rd z. induction D as [|c D IH]; intros rd z E.
  - cbn in E. injection E as <- <-.
    split; [lia|]. split; [reflexivity|]. split; [reflexivity|]. split; [auto|].
    intros H. exfalso. now apply H.
  - cbn [strip_zeros] in E. destruct (Z.eqb_spec c 48) as [->|N].
    + destruct (strip_zeros D) as [d z'] eqn:S. injection E as <- <-.
      destruct (IH _ _ eq_refl) as (Z0 & V & L & F & Lst).
      split; [lia|]. split; [|split; [|split]].
      * cbn [rvalue]. rewrite V, Z.pow_add_r by lia. lia.
      * unfold len in *. cbn [List.length]. lia.
      * intros H. inversion H. auto.
      * destruct D as [|d0 D']; [intros H; exfalso; now apply H|].
        intros H. now apply Lst.
    + injection E as <- <-.
      split; [lia|]. split; [change (10 ^ 0) with 1; lia|]. split; [lia|].
      split; [auto|]. intros _. split; [discriminate|reflexivity].
Qed.

(* ================================================================== *)
(** * Scanning a number *)

Lemma span_digits_app (ds rest : str) :
  Forall digitc ds ->
  match rest with [] => True | c :: _ => is_digit c = false end ->
  span_digits (ds ++ rest) = (ds, rest).
Proof.
  intros H R. induction H as [|c ds Hc _ IH].
  - destruct rest as [|c r]; [reflexivity|]. cbn. now rewrite R.
  - cbn [app span_digits]. rewrite Hc, IH. reflexivity.
Qed.

(** A number written as digits, a dot and digits is read as these digits
    scaled by the count of those after the dot. *)
Lemma match_number_positional (c : Z) (t fp rest : str) :
  49 <= c <= 57 -> Forall digitc t -> Forall digitc fp -> fp <> [] -> stops rest ->
  match_number ((c :: t) ++ [DOT] ++ fp ++ rest)
  = Some (Ok (JFloat (round64 (FFin (digits_value ((c :: t) ++ fp)) (0 - len fp))), rest)).
Proof.
  intros Hc Ht Hf Nf Hr. unfold match_number. cbn [app].
  replace (c =? 45) with false by lia.
  unfold scan_int_part. replace (c =? 48) with false by lia.
  replace (is_digit c) with true by (unfold is_digit; lia).
  rewrite (span_digits_app t (DOT :: fp ++ rest) Ht) by reflexivity.
  unfold scan_frac. rewrite Z.eqb_refl.
  rewrite (span_digits_app fp rest Hf) by (destruct rest; [exact I|apply Hr]).
  destruct fp as [|f0 fp']; [contradiction|].
  assert (E : scan_exp rest = (None, rest)).
  { destruct rest as [|x r]; [reflexivity|]. destruct Hr as (_ & _ & N1 & N2).
    unfold scan_exp. replace (x =? 101) with false by lia.
    replace (x =? 69) with false by lia. reflexivity. }
  rewrite E. reflexivity.
Qed.

(** A decimal of microseconds, of at least one second, that is laid out
    as [repr] does is read back as the [float] nearest to a decimal of
    the same value. *)
Lemma timestamp_repr_scans (m : Z) :
  10 ^ 6 <= m < 10 ^ 22 ->
  exists m' e' c t,
    float_format (FFin m (-6)) = c :: t /\ is_digit c = true
    /\ -6 <= e' /\ m' * 10 ^ (e' + 6) = m
    /\ forall rest, stops rest ->
       match_number (float_format (FFin m (-6)) ++ rest)
       = Some (Ok (JFloat (round64 (FFin m' e')), rest)).
Proof.
  intros Hm. assert (Pm : 0 < m) by lia.
  unfold float_format.
  replace (m =? 0) with false by lia. replace (m <? 0) with false by lia.
  rewrite Z.abs_eq by lia.
  destruct (digits_rev_spec _ _ (digits_fuel m Pm)) as (F & V & Lst & Mag).
  set (D := digits_rev (S (Z.to_nat (Z.log2 m))) m) in *.
  destruct (strip_zeros D) as [rd z] eqn:ES.
  destruct (strip_zeros_spec _ _ _ ES) as (Z0 & VS & LS & FS & LastS).
  specialize (FS F). destruct (LastS Lst) as [Nrd Lrd].
  assert (Lk : len (rev rd) = len rd) by (unfold len; now rewrite length_rev).
  rewrite Lk.
  assert (LD : 7 <= len D <= 22).
  { split.
    - destruct (Z.lt_ge_cases (len D) 7) as [L|]; [|lia].
      assert (10 ^ len D <= 10 ^ 6) by (apply Z.pow_le_mono_r; lia). lia.
    - destruct (Z.lt_ge_cases 22 (len D)) as [L|]; [|lia].
      assert (10 ^ 22 <= 10 ^ (len D - 1)) by (apply Z.pow_le_mono_r; lia). lia. }
  assert (Vd : digits_value (rev rd) * 10 ^ z = m) by (rewrite digits_value_rev; lia).
  assert (Fd : Forall digitc (rev rd)) by (apply Forall_rev; exact FS).
  destruct (rev rd) as [|c t] eqn:R.
  { exfalso. apply Nrd. rewrite <- (rev_involutive rd), R. reflexivity. }
  assert (Hc : 49 <= c <= 57).
  { assert (E : last rd 48 = c).
    { rewrite <- (rev_involutive rd), R. cbn [rev]. apply last_last. }
    inversion_clear Fd as [|? ? Dc _]. unfold digitc, is_digit in Dc. lia. }
  inversion_clear Fd as [|? ? Dc Ft].
  set (decpt := len rd + z + -6).
  assert (Hd : 1 <= decpt <= 16) by (unfold decpt; lia).
  replace ((-4 <? decpt) && (decpt <=? 16)) with true by lia.
  replace (decpt <=? 0) with false by lia.
  cbn [app].
  assert (Lct : len (c :: t) = len rd) by exact Lk.
  destruct (Z.leb_spec (len rd) decpt) as [A|B].
  - (* whole seconds *)
    exists (digits_value (((c :: t) ++ zeros (decpt - len rd)) ++ [48])), (0 - len [48]), c,
      (t ++ zeros (decpt - len rd) ++ lit ".0").
    split; [reflexivity|]. split; [exact Dc|].
    split; [|split]; [| |intros rest Hr].
    3: { change (lit ".0") with ([DOT] ++ [48]).
      etransitivity;
        [|apply (match_number_positional c (t ++ zeros (decpt - len rd)) [48] rest);
          try assumption].
      * f_equal. cbn [app]. now rewrite <- !app_assoc.
      * apply Forall_app. split; [exact Ft|apply zeros_digits].
      * now repeat constructor.
      * discriminate. }
    + change (len [48]) with 1. lia.
    + change (len [48]) with 1.
      rewrite digits_value_snoc, digits_value_app, digits_value_zeros.
      rewrite len_zeros by lia.
      replace z with ((decpt - len rd) + 6) in Vd by (unfold decpt; lia).
      rewrite Z.pow_add_r in Vd by lia.
      change (10 ^ (0 - 1 + 6)) with (10 ^ 5). change (10 ^ 6) with (10 * 10 ^ 5) in Vd. lia.
  - (* a fraction of a second *)
    set (n := Z.to_nat decpt).
    assert (Hn : (0 < n < List.length (c :: t))%nat) by (unfold n, len in *; lia).
    pose proof (firstn_skipn n (c :: t)) as FSk.
    assert (Fs : Forall digitc (firstn n (c :: t)) /\ Forall digitc (skipn n (c :: t))).
    { apply Forall_app. rewrite FSk. constructor; assumption. }
    destruct Fs as [Ff Fk].
    assert (Lsk : len (skipn n (c :: t)) = len rd - decpt).
    { unfold len in *. rewrite length_skipn. unfold n. lia. }
    destruct n as [|n']; [lia|]. cbn [firstn] in *.
    exists (digits_value ((c :: firstn n' t) ++ skipn (S n') (c :: t))),
      (0 - len (skipn (S n') (c :: t))), c,
      (firstn n' t ++ [DOT] ++ skipn (S n') (c :: t)).
    split; [reflexivity|]. split; [exact Dc|].
    split; [|split]; [| |intros rest Hr].
    3: { etransitivity;
        [|apply (match_number_positional c (firstn n' t) (skipn (S n') (c :: t)) rest);
          try assumption].
      * f_equal. cbn [app]. now rewrite <- !app_assoc.
      * now inversion Ff.
      * intros E. rewrite E in Lsk. unfold len in Lsk at 1. cbn in Lsk. lia. }
    + rewrite Lsk. unfold decpt; lia.
    + rewrite Lsk, FSk. replace (0 - (len rd - decpt) + 6) with z by (unfold decpt; lia).
      exact Vd.
Qed.

(* ================================================================== *)
(** * Scanning containers *)

Lemma skip_ws_value (t rest : str) : starts_value t -> skip_ws (t ++ rest) = t ++ rest.
Proof.
  destruct t as [|c t]; [intros []|]. intros [H _]. cbn. now rewrite H.
Qed.

Lemma starts_value_join (t : str) (ts : list str) (sep : str) :
  starts_value t -> starts_value (join sep (t :: ts)).
Proof.
  destruct t as [|c t]; [intros []|]. intros H.
  destruct ts; cbn; exact H.
Qed.

Lemma join_length (sep : str) (ts : list str) :
  Forall starts_value ts -> (List.length ts <= List.length (join sep ts))%nat.
Proof.
  induction ts as [|t ts IH]; intros H; [cbn; lia|].
  inversion_clear H as [|? ? Ht Hts]. specialize (IH Hts).
  destruct t as [|c t]; [destruct Ht|].
  destruct ts as [|t2 ts]; [cbn; lia|].
  change (join sep ((c :: t) :: t2 :: ts)) with ((c :: t) ++ sep ++ join sep (t2 :: ts)).
  rewrite !length_app. cbn [List.length] in *. lia.
Qed.

Section Loops.

Variable scan : str -> result (json * str).

Lemma array_items_join (texts : list str) (vals : list json) :
  Forall2 (scans scan) texts vals -> texts <> [] ->
  forall (n : nat) (rest : str), (List.length texts <= n)%nat ->
  array_items scan n (join (lit ", ") texts ++ 93 :: rest) = Ok (vals, rest).
Proof.
  induction 1 as [|t v ts vs [Ht Hv] Hrest IH]; [congruence|].
  intros _ n rest Hn. destruct n as [|n]; [cbn in Hn; lia|].
  destruct ts as [|t2 ts].
  - inversion Hrest; subst. cbn [join array_items].
    rewrite Hv by (cbn; repeat split; discriminate). reflexivity.
  - change (join (lit ", ") (t :: t2 :: ts))
      with (t ++ [44; 32] ++ join (lit ", ") (t2 :: ts)).
    rewrite <- !app_assoc. cbn [array_items].
    rewrite Hv by (cbn; repeat split; discriminate).
    cbn [bind app skip_ws is_ws Z.eqb Pos.eqb orb].
    assert (S2 : starts_value (join (lit ", ") (t2 :: ts))).
    { apply starts_value_join. inversion Hrest as [|? ? ? ? [H2 _]]; subst. exact H2. }
    rewrite (skip_ws_value _ _ S2).
    rewrite IH; [reflexivity|discriminate|cbn in *; lia].
Qed.

Lemma parse_array_join (texts : list str) (vals : list json) (rest : str) :
  Forall2 (scans scan) texts vals ->
  parse_array scan (join (lit ", ") texts ++ 93 :: rest) = Ok (JList vals, rest).
Proof.
  intros H. unfold parse_array. destruct texts as [|t ts].
  - inversion H; subst. reflexivity.
  - assert (St : starts_value (join (lit ", ") (t :: ts))).
    { apply starts_value_join. inversion H as [|? ? ? ? [H2 _]]; subst. exact H2. }
    rewrite (skip_ws_value _ _ St).
    destruct (join (lit ", ") (t :: ts)) as [|c j] eqn:J; [destruct St|].
    destruct St as [_ N]. cbn [app]. replace (c =? 93) with false by lia.
    change (c :: j ++ 93 :: rest) with ((c :: j) ++ 93 :: rest).
    rewrite <- J.
    rewrite (array_items_join _ _ H); [reflexivity|discriminate|].
    rewrite length_app.
    assert (F : Forall starts_value (t :: ts)).
    { clear -H. induction H as [|? ? ? ? [S _]]; constructor; assumption. }
    pose proof (join_length (lit ", ") _ F). lia.
Qed.

Lemma object_pairs_members (d d' : list (str * json)) :
  Forall2 (member_scans scan) d d' -> d <> [] ->
  forall (n : nat) (rest : str), (List.length d <= n)%nat ->
  object_pairs scan n (after_quote d ++ 125 :: rest) = Ok (d', rest).
Proof.
  induction 1 as [|[k v] [k' v'] more more' (Hk & Tk & Sv & Hv) Hrest IH]; [congruence|].
  cbn [fst snd] in *. subst k'. intros _ n rest Hn.
  destruct n as [|n]; [cbn in Hn; lia|].
  cbn [after_quote object_pairs]. rewrite <- !app_assoc.
  change ([DQUOTE; 58; 32] ++ ?x) with (DQUOTE :: [58; 32] ++ x).
  rewrite scanstring_escaped by exact Tk.
  cbn [bind app skip_ws is_ws Z.eqb Pos.eqb orb].
  rewrite (skip_ws_value _ _ Sv).
  destruct more as [|m more].
  - inversion Hrest; subst. cbn [app].
    rewrite Hv by (cbn; repeat split; discriminate). reflexivity.
  - cbn [app].
    rewrite Hv by (cbn; repeat split; discriminate).
    cbn [bind app skip_ws is_ws Z.eqb Pos.eqb orb].
    rewrite IH; [reflexivity|discriminate|cbn in *; lia].
Qed.

Lemma after_quote_length (d : list (str * json)) :
  (List.length d <= List.length (after_quote d))%nat.
Proof.
  induction d as [|[k v] more IH]; [cbn; lia|].
  cbn [after_quote]. rewrite !length_app. cbn [List.length].
  destruct more; [cbn; lia|]. rewrite length_app. cbn [List.length] in *. lia.
Qed.

Lemma join_members (d : list (str * json)) :
  d <> [] -> join (lit ", ") (map member_text d) = DQUOTE :: after_quote d.
Proof.
  induction d as [|[k v] more IH]; [congruence|]. intros _.
  destruct more as [|m more].
  - cbn [map join after_quote]. unfold member_text, encode_basestring_ascii.
    cbn [fst snd]. change (lit ": ") with [58; 32]. cbn [app].
    rewrite <- !app_assoc. rewrite app_nil_r. reflexivity.
  - change (join (lit ", ") (map member_text ((k, v) :: m :: more)))
      with (member_text (k, v) ++ lit ", " ++ join (lit ", ") (map member_text (m :: more))).
    rewrite IH by discriminate.
    unfold member_text, encode_basestring_ascii. cbn [fst snd after_quote].
    change (lit ": ") with [58; 32]. change (lit ", ") with [44; 32].
    cbn [app]. rewrite <- !app_assoc. reflexivity.
Qed.

Lemma parse_object_members (d d' : list (str * json)) (rest : str) :
  Forall2 (member_scans scan) d d' ->
  parse_object scan (join (lit ", ") (map member_text d) ++ 125 :: rest)
  = Ok (JDict (dict_of_pairs d'), rest).
Proof.
  intros H. unfold parse_object. destruct d as [|m d].
  - inversion H; subst. reflexivity.
  - rewrite join_members by discriminate.
    cbn [app skip_ws is_ws Z.eqb Pos.eqb orb].
    rewrite (object_pairs_members _ _ H); [reflexivity|discriminate|].
    pose proof (after_quote_length (m :: d)) as L.
    cbn [List.length] in *. rewrite length_app. lia.
Qed.

End Loops.

(* ================================================================== *)
(** * Scanning what [dumps] wrote *)

Lemma scans_JStr (depth : nat) (s : str) :
  text s -> scans (scan_once depth) (dumps (JStr s)) (JStr s).
Proof.
  intros Hs. split; [cbn; split; [reflexivity|discriminate]|].
  intros rest _. cbn [dumps]. unfold encode_basestring_ascii.
  cbn [app]. rewrite <- app_assoc. cbn [app].
  destruct depth; cbn [scan_once Z.eqb Pos.eqb];
    now rewrite scanstring_escaped.
Qed.

Lemma scans_JList (depth : nat) (l l' : list json) :
  Forall2 (fun v v' => scans (scan_once depth) (dumps v) v') l l' ->
  scans (scan_once (S depth)) (dumps (JList l)) (JList l').
Proof.
  intros H. split; [cbn; split; [reflexivity|discriminate]|].
  intros rest _. cbn [dumps app]. rewrite <- app_assoc. cbn [app].
  cbn [scan_once Z.eqb Pos.eqb].
  apply parse_array_join.
  induction H; cbn [map]; constructor; assumption.
Qed.

Lemma scans_JDict (depth : nat) (d d' : list (str * json)) :
  Forall2 (member_scans (scan_once depth)) d d' ->
  scans (scan_once (S depth)) (dumps (JDict d)) (JDict (dict_of_pairs d')).
Proof.
  intros H. split; [cbn; split; [reflexivity|discriminate]|].
  intros rest _. cbn [dumps app]. rewrite <- app_assoc. cbn [app].
  cbn [scan_once Z.eqb Pos.eqb].
  now apply parse_object_members.
Qed.

Lemma scan_literal_digit (c : Z) (r : str) : is_digit c = true -> scan_literal (c :: r) = None.
Proof.
  unfold is_digit. intros H. unfold scan_literal.
  change (lit "null") with [110; 117; 108; 108].
  change (lit "true") with [116; 114; 117; 101].
  change (lit "false") with [102; 97; 108; 115; 101].
  change (lit "NaN") with [78; 97; 78].
  change (lit "Infinity") with [73; 110; 102; 105; 110; 105; 116; 121].
  change (lit "-Infinity") with [45; 73; 110; 102; 105; 110; 105; 116; 121].
  cbn [strip_prefix].
  replace (110 =? c) with false by lia. replace (116 =? c) with false by lia.
  replace (102 =? c) with false by lia. replace (78 =? c) with false by lia.
  replace (73 =? c) with false by lia. replace (45 =? c) with false by lia.
  reflexivity.
Qed.

(** A number that starts with a digit is read by the scanner as
    [match_number] reads it. *)
Lemma scans_number (depth : nat) (c : Z) (t : str) (v : json) :
  is_digit c = true ->
  (forall rest, stops rest -> match_number ((c :: t) ++ rest) = Some (Ok (v, rest))) ->
  scans (scan_once depth) (c :: t) v.
Proof.
  intros Dc Sc.
  assert (Hc : 48 <= c <= 57) by (unfold is_digit in Dc; lia).
  split.
  - cbn. unfold is_ws. split; lia.
  - intros rest Hr. specialize (Sc rest Hr). cbn [app] in *.
    assert (L : scan_literal (c :: t ++ rest) = None) by now apply scan_literal_digit.
    destruct depth; cbn [scan_once];
      replace (c =? DQUOTE) with false by lia;
      replace (c =? 123) with false by lia;
      replace (c =? 91) with false by lia;
      now rewrite L, Sc.
Qed.

(* ================================================================== *)
(** * The claims of a token, written and read back *)

Lemma text_lit_keys :
  text (lit "sub") /\ text (lit "userId") /\ text (lit "email") /\ text (lit "role")
  /\ text (lit "groups") /\ text (lit "exp") /\ text (lit "type") /\ text (lit "id")
  /\ text (lit "name").
Proof.
  repeat split; repeat constructor; try reflexivity; cbn; lia.
Qed.

Lemma scans_model_dump (depth : nat) (g : Group) :
  valid_group g -> scans (scan_once (S depth)) (dumps (model_dump g)) (model_dump g).
Proof.
  intros (Ht & Hi & Hn). destruct text_lit_keys as (_ & _ & _ & _ & _ & _ & Kt & Ki & Kn).
  unfold model_dump.
  change (JDict [(lit "type", JStr (group_type g)); (lit "id", JStr (group_id g));
                 (lit "name", JStr (group_name g))])
    with (JDict (dict_of_pairs [(lit "type", JStr (group_type g)); (lit "id", JStr (group_id g));
                 (lit "name", JStr (group_name g))])) at 2.
  apply scans_JDict.
  repeat (apply Forall2_cons;
          [split; [reflexivity|split; [assumption|apply scans_JStr; assumption]]|]).
  apply Forall2_nil.
Qed.

(** The claims are read back as they were written, with the expiry that
    the scanner reads for the one written. *)
Lemma scans_claims (depth : nat) (u : DemoUser) (f f' : pyfloat) :
  valid_identity u ->
  scans (scan_once (S (S depth))) (dumps (JFloat f)) (JFloat f') ->
  scans (scan_once (S (S (S depth)))) (dumps (claims u f)) (claims u f').
Proof.
  intros (Hi & He & Hr & Hg) Sc.
  destruct text_lit_keys as (K1 & K2 & K3 & K4 & K5 & K6 & _).
  unfold claims.
  match goal with
  | |- scans _ _ (JDict ?d) => change (JDict d) with (JDict (dict_of_pairs d))
  end.
  apply scans_JDict.
  repeat (apply Forall2_cons;
          [split; [reflexivity|split; [assumption|try (apply scans_JStr; assumption)]]|]).
  3: apply Forall2_nil.
  - apply scans_JList.
    induction Hg as [|g gs Hg1 _ IH]; cbn [map]; constructor; [|exact IH].
    now apply scans_model_dump.
  - exact Sc.
Qed.

(** [json.loads(json.dumps(claims))] *)
Theorem loads_dumps_claims (limit : nat) (u : DemoUser) (f f' : pyfloat) :
  valid_identity u -> (3 <= limit)%nat ->
  (forall depth, scans (scan_once depth) (dumps (JFloat f)) (JFloat f')) ->
  loads limit (dumps (claims u f)) = Ok (claims u f').
Proof.
  intros Hu Hl Hf.
  destruct limit as [|[|[|depth]]]; try lia.
  destruct (scans_claims depth u f f' Hu (Hf _)) as [St Sc].
  unfold loads.
  specialize (Sc [] I). rewrite app_nil_r in Sc.
  assert (E : exists t, dumps (claims u f) = 123 :: t) by (eexists; reflexivity).
  destruct E as [t E]. rewrite E in *.
  cbn [startswith_bom skip_ws is_ws Z.eqb Pos.eqb orb].
  rewrite Sc. reflexivity.
Qed.

(* ================================================================== *)
(** * What [dumps] writes is ASCII *)

Lemma text_pystr (s : str) : text s -> pystr s.
Proof. apply Forall_impl. now intros c [H _]. Qed.

Lemma valid_identity_pystr (u : DemoUser) : valid_identity u -> pystr_identity u.
Proof.
  intros (H1 & H2 & H3 & H4). repeat split; try now apply text_pystr.
  eapply Forall_impl; [|exact H4].
  intros g (G1 & G2 & G3). repeat split; now apply text_pystr.
Qed.

Lemma digit_ascii (s : str) : Forall digitc s -> Forall is_ascii s.
Proof. apply Forall_impl. unfold digitc, is_digit, is_ascii. lia. Qed.

Lemma digits_rev_digits (fuel : nat) (n : Z) : 0 <= n -> Forall digitc (digits_rev fuel n).
Proof.
  revert n. induction fuel as [|f IH]; intros n Hn; cbn [digits_rev]; [constructor|].
  destruct (Z.ltb_spec n 10).
  - constructor; [unfold digitc, is_digit; lia|constructor].
  - pose proof (Z.mod_pos_bound n 10 ltac:(lia)).
    constructor; [unfold digitc, is_digit; lia|].
    apply IH. apply Z.div_pos; lia.
Qed.

Lemma digits_digits (n : Z) : 0 <= n -> Forall digitc (digits n).
Proof. intros H. unfold digits. apply Forall_rev. now apply digits_rev_digits. Qed.

Lemma Forall_firstn {A : Type} (P : A -> Prop) (n : nat) (l : list A) :
  Forall P l -> Forall P (firstn n l).
Proof.
  intros H. rewrite <- (firstn_skipn n l) in H. now apply Forall_app in H.
Qed.

Lemma Forall_skipn {A : Type} (P : A -> Prop) (n : nat) (l : list A) :
  Forall P l -> Forall P (skipn n l).
Proof.
  intros H. rewrite <- (firstn_skipn n l) in H. now apply Forall_app in H.
Qed.

Lemma ascii_cons (c : Z) (s : str) : 0 <= c < 128 -> Forall is_ascii s -> Forall is_ascii (c :: s).
Proof. intros H Hs. constructor; [exact H|exact Hs]. Qed.

Ltac ascii :=
  repeat first
    [ assumption
    | apply Forall_nil
    | apply Forall_app; split
    | apply ascii_cons; [lia|]
    | apply Forall_firstn
    | apply Forall_skipn
    | apply digit_ascii;
      solve [ assumption | apply zeros_digits | apply digits_digits; lia ] ].

Lemma float_format_ascii (m e : Z) : Forall is_ascii (float_format (FFin m e)).
Proof.
  unfold float_format. destruct (m =? 0); [cbn; ascii|].
  pose proof (digits_rev_digits (S (Z.to_nat (Z.log2 (Z.abs m)))) (Z.abs m) (Z.abs_nonneg m)) as F.
  destruct (strip_zeros _) as [rd z] eqn:ES.
  destruct (strip_zeros_spec _ _ _ ES) as (_ & _ & _ & FS & _). specialize (FS F).
  assert (Fr : Forall digitc (rev rd)) by now apply Forall_rev.
  apply Forall_app. split; [destruct (m <? 0); ascii|].
  destruct ((-4 <? _) && (_ <=? 16)).
  - destruct (_ <=? 0); [change (lit "0.") with [48; 46]; cbn [app]; ascii|].
    destruct (_ <=? _); [change (lit ".0") with [46; 48]; ascii|ascii].
  - repeat (apply Forall_app; split); try solve [ascii].
    + destruct (_ =? 1); ascii.
    + destruct (_ <? 0); ascii.
    + destruct (_ <? 10); ascii.
Qed.

(** The shortest decimal of a number is a number. *)
Lemma shortest_finite (m e : Z) : exists m' e', shortest (FFin m e) = FFin m' e'.
Proof.
  unfold shortest. destruct (m =? 0); [now exists m, e|].
  generalize 1. generalize 17%nat. intros tries.
  induction tries as [|k IH]; intros n; cbn [shortest_from]; [now exists m, e|].
  unfold shortest_with.
  destruct (_ <=? 0); [now exists m, e|].
  destruct (_ && _); [destruct (_ <=? _); eexists; eexists; reflexivity|].
  destruct (float_eqb _ _); [eexists; eexists; reflexivity|].
  destruct (float_eqb _ _); [eexists; eexists; reflexivity|apply IH].
Qed.

Lemma float_repr_ascii (m e : Z) : Forall is_ascii (float_repr (FFin m e)).
Proof.
  unfold float_repr. destruct (shortest_finite m e) as (m' & e' & ->).
  apply float_format_ascii.
Qed.

Lemma float_json_repr_ascii (f : pyfloat) : Forall is_ascii (float_json_repr f).
Proof.
  destruct f as [m e|[|]|]; cbn [float_json_repr].
  - apply float_repr_ascii.
  - change (lit "-Infinity") with [45; 73; 110; 102; 105; 110; 105; 116; 121]. ascii.
  - change (lit "Infinity") with [73; 110; 102; 105; 110; 105; 116; 121]. ascii.
  - change (lit "NaN") with [78; 97; 78]. ascii.
Qed.

Lemma hex_digit_ascii (n : Z) : 0 <= n < 16 -> 0 <= hex_digit n < 128.
Proof. unfold hex_digit. destruct (n <? 10); lia. Qed.

Lemma hex4_ascii (n : Z) : 0 <= n < 65536 -> Forall is_ascii (hex4 n).
Proof.
  intros H. unfold hex4.
  assert (0 <= n / 4096 < 16).
  { split; [apply Z.div_pos; lia|apply Z.div_lt_upper_bound; lia]. }
  pose proof (Z.mod_pos_bound (n / 256) 16 ltac:(lia)).
  pose proof (Z.mod_pos_bound (n / 16) 16 ltac:(lia)).
  pose proof (Z.mod_pos_bound n 16 ltac:(lia)).
  repeat (apply ascii_cons; [now apply hex_digit_ascii|]). constructor.
Qed.

Lemma escape_char_ascii (c : Z) : codepoint c -> Forall is_ascii (escape_char c).
Proof.
  unfold codepoint. intros Hc. unfold escape_char.
  destruct (c =? DQUOTE); [ascii|]. destruct (c =? BACKSLASH); [ascii|].
  destruct ((32 <=? c) && (c <=? 126)) eqn:P; [ascii|].
  destruct (c =? 10); [ascii|]. destruct (c =? 13); [ascii|].
  destruct (c =? 9); [ascii|]. destruct (c =? 12); [ascii|]. destruct (c =? 8); [ascii|].
  destruct (Z.ltb_spec c 0x10000).
  - apply ascii_cons; [lia|]. apply ascii_cons; [lia|]. apply hex4_ascii. lia.
  - destruct (surrogate_pair c ltac:(lia)) as (S1 & S2 & _). cbv zeta in S1, S2.
    apply Forall_app. split; (apply ascii_cons; [lia|]; apply ascii_cons; [lia|];
      apply hex4_ascii; lia).
Qed.

Lemma encode_basestring_ascii_ascii (s : str) :
  pystr s -> Forall is_ascii (encode_basestring_ascii s).
Proof.
  intros H. unfold encode_basestring_ascii. apply ascii_cons; [lia|].
  apply Forall_app. split; [|ascii].
  apply Forall_flat_map. eapply Forall_impl; [|exact H]. apply escape_char_ascii.
Qed.

Lemma join_ascii (sep : str) (ts : list str) :
  Forall is_ascii sep -> Forall (Forall is_ascii) ts -> Forall is_ascii (join sep ts).
Proof.
  intros Hs H. induction H as [|t ts Ht Hts IH]; [constructor|].
  destruct ts as [|t2 ts]; [exact Ht|].
  change (join sep (t :: t2 :: ts)) with (t ++ sep ++ join sep (t2 :: ts)). ascii.
Qed.

Lemma member_ascii (k : str) (v : json) :
  pystr k -> Forall is_ascii (dumps v) -> Forall is_ascii (member_text (k, v)).
Proof.
  intros Hk Hv. unfold member_text. cbn [fst snd]. change (lit ": ") with [58; 32].
  apply Forall_app. split; [now apply encode_basestring_ascii_ascii|]. ascii.
Qed.

Lemma dumps_object_ascii (d : list (str * json)) :
  Forall (fun kv => pystr (fst kv) /\ Forall is_ascii (dumps (snd kv))) d ->
  Forall is_ascii (dumps (JDict d)).
Proof.
  intros H. cbn [dumps]. apply ascii_cons; [lia|].
  apply Forall_app. split; [|ascii].
  apply join_ascii; [change (lit ", ") with [44; 32]; ascii|].
  apply Forall_map. eapply Forall_impl; [|exact H].
  intros [k v] [Hk Hv]. now apply member_ascii.
Qed.

Lemma pystr_lit_keys :
  pystr (lit "sub") /\ pystr (lit "userId") /\ pystr (lit "email") /\ pystr (lit "role")
  /\ pystr (lit "groups") /\ pystr (lit "exp") /\ pystr (lit "type") /\ pystr (lit "id")
  /\ pystr (lit "name").
Proof.
  destruct text_lit_keys as (K1 & K2 & K3 & K4 & K5 & K6 & K7 & K8 & K9).
  repeat split; now apply text_pystr.
Qed.

Lemma dumps_model_dump_ascii (g : Group) :
  pystr_group g -> Forall is_ascii (dumps (model_dump g)).
Proof.
  intros (H1 & H2 & H3). destruct pystr_lit_keys as (_ & _ & _ & _ & _ & _ & K7 & K8 & K9).
  unfold model_dump. apply dumps_object_ascii.
  repeat (apply Forall_cons; [cbn [fst snd]; split;
    [assumption|now apply encode_basestring_ascii_ascii]|]).
  constructor.
Qed.

Lemma dumps_claims_ascii (u : DemoUser) (f : pyfloat) :
  pystr_identity u -> Forall is_ascii (dumps (claims u f)).
Proof.
  intros (H1 & H2 & H3 & H4).
  destruct pystr_lit_keys as (K1 & K2 & K3 & K4 & K5 & K6 & _).
  unfold claims. apply dumps_object_ascii.
  repeat (apply Forall_cons; [cbn [fst snd]; split;
    [assumption|try (now apply encode_basestring_ascii_ascii)]|]).
  3: constructor.
  - cbn [dumps]. apply ascii_cons; [lia|]. apply Forall_app. split; [|ascii].
    apply join_ascii; [change (lit ", ") with [44; 32]; ascii|].
    apply Forall_map. apply Forall_map. eapply Forall_impl; [|exact H4].
    apply dumps_model_dump_ascii.
  - apply float_json_repr_ascii.
Qed.

(* ================================================================== *)
(** * Verification, step by step *)

Lemma verify_body_parts (rt : runtime) (token b64 sig : str) :
  split DOT token = [b64; sig] -> sign (JWT_SECRET rt) b64 = Ok sig ->
  verify_body rt token
  = (payload <- read_claims (recursion_limit rt) b64 ;;
     identity_of_claims rt payload).
Proof.
  intros Hs Hg. unfold verify_body. rewrite Hs. cbn [len List.length Z.of_nat].
  cbn [Z.eqb Pos.of_succ_nat Pos.succ Pos.eqb negb]. rewrite Hg. cbn [bind].
  rewrite str_eqb_refl. cbn [negb].
  unfold read_claims, identity_of_claims.
  destruct (urlsafe_b64decode b64) as [raw|]; [|reflexivity]. cbn [bind].
  destruct (decode raw) as [ps|]; [|reflexivity]. cbn [bind].
  destruct (loads (recursion_limit rt) ps) as [payload|]; reflexivity.
Qed.

Lemma verify_body_bad_signature (rt : runtime) (token b64 sig sig' : str) :
  split DOT token = [b64; sig] -> sign (JWT_SECRET rt) b64 = Ok sig' -> sig <> sig' ->
  verify_body rt token = Ok None.
Proof.
  intros Hs Hg N. unfold verify_body. rewrite Hs. cbn [len List.length Z.of_nat].
  cbn [Z.eqb Pos.of_succ_nat Pos.succ Pos.eqb negb]. rewrite Hg. cbn [bind].
  now rewrite (str_eqb_neq _ _ N).
Qed.

Lemma groups_of_json (gl : list json) (gs : list Group) :
  Forall2 group_json gl gs ->
  mapM (fun group => kw <- as_kwargs group ;; Group_init kw) gl = Ok gs.
Proof.
  induction 1 as [|j g gl gs (kw & -> & Ht & Hi & Hn) _ IH]; [reflexivity|].
  cbn [mapM]. rewrite IH. cbn [as_kwargs bind]. unfold Group_init, required_str.
  rewrite Ht, Hi, Hn. cbn [validate_str bind].
  destruct g; reflexivity.
Qed.

(** Claims that have not expired and carry the four fields of an identity
    give that identity. *)
Lemma identity_of_claims_ok (rt : runtime) (d : list (str * json)) (now : pyfloat)
    (i e r : str) (gl : list json) (gs : list Group) :
  timestamp (utcoffset rt) (utcnow rt) = Ok now ->
  py_lt (get_default d (lit "exp") (JInt 0)) now = Ok false ->
  dict_get d (lit "userId") = Some (JStr i) ->
  dict_get d (lit "email") = Some (JStr e) ->
  dict_get d (lit "role") = Some (JStr r) ->
  dict_get d (lit "groups") = Some (JList gl) ->
  Forall2 group_json gl gs ->
  identity_of_claims rt (JDict d) = Ok (Some (MkDemoUser i e r gs)).
Proof.
  intros Hn Hx Hi He Hr Hg Hgs. unfold identity_of_claims. cbn [as_dict bind].
  rewrite Hn. cbn [bind].
  rewrite Hx. cbn [bind]. unfold getitem. rewrite Hi, He, Hr, Hg. cbn [bind iterate].
  rewrite (groups_of_json _ _ Hgs). reflexivity.
Qed.

Lemma identity_of_claims_expired (rt : runtime) (d : list (str * json)) (now : pyfloat) :
  timestamp (utcoffset rt) (utcnow rt) = Ok now ->
  py_lt (get_default d (lit "exp") (JInt 0)) now = Ok true ->
  identity_of_claims rt (JDict d) = Ok None.
Proof.
  intros Hn Hx. unfold identity_of_claims. cbn [as_dict bind]. rewrite Hn. cbn [bind].
  now rewrite Hx.
Qed.

(** Where the clock cannot be read as a time stamp, nothing is made of
    the claims. *)
Lemma identity_of_claims_no_clock (rt : runtime) (payload : json) (e : exn) :
  timestamp (utcoffset rt) (utcnow rt) = Raise e ->
  exists e', identity_of_claims rt payload = Raise e'.
Proof.
  intros Hn. unfold identity_of_claims.
  destruct (as_dict payload) as [d|e']; cbn [bind]; [|now exists e'].
  rewrite Hn. now exists e.
Qed.

Lemma model_dump_group_json (gs : list Group) : Forall2 group_json (map model_dump gs) gs.
Proof.
  induction gs as [|g gs IH]; cbn [map]; constructor; [|exact IH].
  eexists. split; [reflexivity|]. repeat split.
Qed.

(** The claims of a token of [u], read at the time of [rt]. *)
Lemma identity_of_issued_claims (rt : runtime) (u : DemoUser) (expire now : pyfloat) :
  timestamp (utcoffset rt) (utcnow rt) = Ok now ->
  identity_of_claims rt (claims u expire)
  = Ok (if float_lt expire now then None else Some u).
Proof.
  intros Hn. destruct (float_lt expire now) eqn:X.
  - apply (identity_of_claims_expired rt _ now Hn).
    change (get_default _ (lit "exp") (JInt 0)) with (JFloat expire).
    cbn [py_lt]. now rewrite X.
  - replace u with (MkDemoUser (user_id u) (user_email u) (user_role u) (user_groups u)) at 2
      by (destruct u; reflexivity).
    apply identity_of_claims_ok with (now := now) (gl := map model_dump (user_groups u));
      try reflexivity; [exact Hn| |apply model_dump_group_json].
    change (get_default _ (lit "exp") (JInt 0)) with (JFloat expire).
    cbn [py_lt]. now rewrite X.
Qed.

(* ================================================================== *)
(** * Issuance *)

Lemma encode_text (s : str) : text s -> exists key, encode s = Ok key.
Proof.
  induction 1 as [|c s [Hr Hs] _ [key IH]]; [now exists []|].
  cbn [encode]. rewrite IH. unfold utf8_encode_char.
  replace ((c <? 0) || (1114111 <? c)) with false by lia. rewrite Hs.
  destruct (c <? 128); [eexists; reflexivity|].
  destruct (c <? 2048); [eexists; reflexivity|].
  destruct (c <? 65536); eexists; reflexivity.
Qed.

Lemma sign_segment (secret : str) (key : bytes) (b64 : str) :
  encode secret = Ok key -> Forall segment_char b64 ->
  sign secret b64 = Ok (hexlify (hmac_sha256 key b64)).
Proof.
  intros Hk Hb. unfold sign. rewrite Hk. cbn [bind].
  now rewrite (encode_ascii b64 (segment_chars_ascii _ Hb)).
Qed.

Lemma payload_b64_chars (u : DemoUser) (f : pyfloat) :
  pystr_identity u -> Forall segment_char (urlsafe_b64encode (dumps (claims u f))).
Proof.
  intros Hu. apply urlsafe_b64encode_chars, ascii_is_byte. now apply dumps_claims_ascii.
Qed.

(** What [create_simple_jwt] returns. *)
Lemma create_simple_jwt_eq (rt : runtime) (u : DemoUser) (key : bytes) (expire : pyfloat) :
  pystr_identity u -> encode (JWT_SECRET rt) = Ok key ->
  datetime_min <= utcnow rt + timedelta_hours 24 <= datetime_max ->
  timestamp (utcoffset rt) (utcnow rt + timedelta_hours 24) = Ok expire ->
  create_simple_jwt rt u = Ok (wire_token key u expire).
Proof.
  intros Hu Hk Ht He. unfold create_simple_jwt, datetime_add.
  replace ((_ <? datetime_min) || (datetime_max <? _)) with false by lia.
  cbn [bind]. rewrite He. cbn [bind].
  pose proof (dumps_claims_ascii u expire Hu) as A.
  pose proof (payload_b64_chars u expire Hu) as B.
  rewrite (encode_ascii _ A). cbn [bind].
  rewrite (decode_ascii _ (segment_chars_ascii _ B)). cbn [bind].
  rewrite (sign_segment _ _ _ Hk B). reflexivity.
Qed.

(** The claims of a token are read from its first segment as the
    scanner reads them, the expiry as it reads the expiry written. *)
Lemma read_issued_claims (limit : nat) (u : DemoUser) (f f' : pyfloat) :
  valid_identity u -> (3 <= limit)%nat ->
  (forall depth, scans (scan_once depth) (dumps (JFloat f)) (JFloat f')) ->
  read_claims limit (urlsafe_b64encode (dumps (claims u f))) = Ok (claims u f').
Proof.
  intros Hu Hl Hf.
  pose proof (loads_dumps_claims limit u f f' Hu Hl Hf) as L.
  pose proof (valid_identity_pystr u Hu) as Pu.
  pose proof (dumps_claims_ascii u f Pu) as A.
  pose proof (payload_b64_chars u f Pu) as B.
  unfold read_claims, urlsafe_b64decode in *.
  rewrite (bytes_from_decode_data_ascii _ (segment_chars_ascii _ B)). cbn [bind].
  rewrite (a2b_b2a _ (ascii_is_byte _ A)). cbn [bind].
  rewrite (decode_ascii _ A). cbn [bind]. exact L.
Qed.

(** A token of [u] issued with the key of the verifier's secret is
    verified as what its claims, read back, say at the verifier's time. *)
Lemma verify_wire_token (rt : runtime) (key : bytes) (u : DemoUser) (f f' : pyfloat) :
  valid_identity u -> encode (JWT_SECRET rt) = Ok key ->
  (3 <= recursion_limit rt)%nat ->
  (forall depth, scans (scan_once depth) (dumps (JFloat f)) (JFloat f')) ->
  verify_simple_jwt rt (wire_token key u f)
  = try_except (identity_of_claims rt (claims u f')) (Ok None).
Proof.
  intros Hu Hk Hl Hf.
  pose proof (valid_identity_pystr u Hu) as Pu.
  pose proof (payload_b64_chars u f Pu) as B.
  pose proof (read_issued_claims _ u f f' Hu Hl Hf) as R.
  unfold verify_simple_jwt, wire_token.
  rewrite (verify_body_parts rt _
             (urlsafe_b64encode (dumps (claims u f)))
             (hexlify (hmac_sha256 key (urlsafe_b64encode (dumps (claims u f)))))).
  - rewrite R. reflexivity.
  - apply split_token.
    + apply segment_chars_no_dot. exact B.
    + apply segment_chars_no_dot, signature_chars.
  - now apply sign_segment.
Qed.

Lemma textb_ok (s : str) : textb s = true -> text s.
Proof.
  unfold textb, text. rewrite forallb_forall, Forall_forall.
  intros H c Hc. specialize (H c Hc). unfold scalarb in H.
  apply andb_true_iff in H as [H1 H2]. apply negb_true_iff in H2.
  split; [lia|exact H2].
Qed.

Lemma valid_identityb_ok (u : DemoUser) : valid_identityb u = true -> valid_identity u.
Proof.
  unfold valid_identityb, valid_identity. intros H.
  apply andb_true_iff in H as [H Hg]. apply andb_true_iff in H as [H Hr].
  apply andb_true_iff in H as [Hi He].
  repeat split; try now apply textb_ok.
  rewrite forallb_forall in Hg. apply Forall_forall. intros g Hin.
  specialize (Hg g Hin). unfold valid_groupb in Hg.
  apply andb_true_iff in Hg as [Hg G3]. apply andb_true_iff in Hg as [G1 G2].
  repeat split; now apply textb_ok.
Qed.

Lemma py_lt_number (v : json) (f g : pyfloat) :
  number_value v = Some f -> py_lt v g = Ok (float_lt f g).
Proof. destruct v; cbn; intros E; try discriminate; now injection E as <-. Qed.

Lemma float_eq_not_lt (a b : pyfloat) : float_eq a b -> float_lt a b = false.
Proof.
  destruct a as [m1 e1|s1|], b as [m2 e2|s2|]; cbn; try contradiction.
  - intros E. rewrite E. apply Z.ltb_irrefl.
  - intros <-. now destruct s1.
Qed.

(* ================================================================== *)
(** * The claims of the specification *)

(** C1. The round trip of a token fails where the zone of the process
    changes its offset between issuance and verification, because
    [create_simple_jwt] and [verify_simple_jwt] take the reading of the
    UTC clock for one of the local clock.  In New York the token issued
    to the administrator when [utcnow()] reads 2024-03-09T03:10 expires
    when it reads 2024-03-10T03:10; it is rejected when it reads
    2024-03-10T02:30, 23 hours and 20 minutes after issuance and under
    the same secret: the local clock never shows 02:30 on that day. *)
Theorem issue_verify_roundtrip_fails_across_dst :
  exists token,
    create_simple_jwt (MkRuntime (lit "demo-secret-key") 1709953800000000 1000 new_york_2024) admin
    = Ok token
    /\ 1710037800000000 < 1709953800000000 + timedelta_hours 24
    /\ verify_simple_jwt (MkRuntime (lit "demo-secret-key") 1710037800000000 1000 new_york_2024) token
       = Ok None.
Proof.
  eexists. split; [vm_compute; reflexivity|]. split; [reflexivity|].
  vm_compute. reflexivity.
Qed.

Lemma pystrb_ok (s : str) : pystrb s = true -> pystr s.
Proof.
  unfold pystrb, pystr. rewrite forallb_forall, Forall_forall.
  intros H c Hc. specialize (H c Hc). unfold codepointb, codepoint in *. lia.
Qed.

Lemma pystr_identityb_ok (u : DemoUser) : pystr_identityb u = true -> pystr_identity u.
Proof.
  unfold pystr_identityb, pystr_identity. intros H.
  apply andb_true_iff in H as [H Hg]. apply andb_true_iff in H as [H Hr].
  apply andb_true_iff in H as [Hi He].
  repeat split; try now apply pystrb_ok.
  rewrite forallb_forall in Hg. apply Forall_forall. intros g Hin.
  specialize (Hg g Hin). unfold pystr_groupb in Hg.
  apply andb_true_iff in Hg as [Hg G3]. apply andb_true_iff in Hg as [G1 G2].
  repeat split; now apply pystrb_ok.
Qed.

Lemma dumps_model_dump (g : Group) : dumps (model_dump g) = spec_group g.
Proof.
  unfold model_dump, spec_group, spec_string, spec_key.
  cbn [dumps map join fst snd]. rewrite <- !app_assoc. reflexivity.
Qed.

Lemma dumps_claims (u : DemoUser) (f : pyfloat) :
  dumps (claims u f) = spec_claims u (float_json_repr f).
Proof.
  unfold claims, spec_claims, spec_string, spec_key.
  cbn [dumps map join fst snd].
  rewrite map_map. rewrite (map_ext _ _ dumps_model_dump).
  rewrite <- !app_assoc. reflexivity.
Qed.

Lemma local_seconds_constant (utcoffset : zone) (c u : Z) :
  (forall x, utcoffset x = c) -> seconds_min <= u + c <= seconds_max ->
  local_seconds utcoffset u = Ok (u + c).
Proof.
  intros Hc Hr. unfold local_seconds. rewrite Hc.
  replace ((_ <? seconds_min) || (seconds_max <? _)) with false by lia. reflexivity.
Qed.

(** In a zone of one offset the local clock reads [t] at one instant. *)
Lemma local_to_seconds_constant (utcoffset : zone) (c t : Z) :
  (forall x, utcoffset x = c) ->
  seconds_min <= t + c <= seconds_max -> seconds_min + max_fold_seconds <= t <= seconds_max ->
  local_to_seconds utcoffset t = Ok (t - c).
Proof.
  intros Hc R1 R2. unfold local_to_seconds, max_fold_seconds in *.
  rewrite (local_seconds_constant utcoffset c t Hc R1). cbn [bind].
  replace (t - (t + c - t)) with (t - c) by lia.
  rewrite (local_seconds_constant utcoffset c (t - c) Hc) by lia. cbn [bind].
  replace (t - c + c) with t by lia. rewrite Z.eqb_refl.
  rewrite (local_seconds_constant utcoffset c (t - c - 24 * 3600) Hc) by lia. cbn [bind].
  replace (t + c - t =? t - c - 24 * 3600 + c - (t - c - 24 * 3600)) with true by lia.
  reflexivity.
Qed.

(** In UTC the time stamp of a reading is its instant. *)
Lemma timestamp_utc (utcoffset : zone) (d : datetime) :
  (forall x, utcoffset x = 0) ->
  datetime_min + timedelta_hours 24 <= d <= datetime_max ->
  timestamp utcoffset d = Ok (unix_seconds d).
Proof.
  intros Hc Hr. unfold timestamp, unix_seconds.
  assert (R : seconds_min + max_fold_seconds <= d / 1000000 <= seconds_max).
  { unfold datetime_min, datetime_max, timedelta_hours, seconds_min, seconds_max,
      max_fold_seconds in *.
    split; [apply Z.div_le_lower_bound; lia|].
    assert (d / 1000000 < 253402300800) by (apply Z.div_lt_upper_bound; lia). lia. }
  rewrite (local_to_seconds_constant utcoffset 0 _ Hc);
    [|unfold max_fold_seconds, seconds_min, seconds_max in *; lia|exact R].
  cbn [bind]. now rewrite Z.sub_0_r.
Qed.

(** C5, as the code has it.  In a process whose zone is UTC,
    [create_simple_jwt] produces exactly the token of the wire format:
    the base64url text of the JSON claims [sub], [userId], [email],
    [role], [groups], [exp], a dot, and the lowercase hexadecimal
    HMAC-SHA256 of that text under the secret, where [exp] is the clock
    reading plus 24 hours in seconds as a [float], which is that instant
    as nearly as binary64 arithmetic gives it; the lifetime is no
    argument of the call. *)
Theorem token_wire_format (rt : runtime) (u : DemoUser) (key : bytes) :
  pystr_identity u -> encode (JWT_SECRET rt) = Ok key ->
  (forall x, utcoffset rt x = 0) ->
  datetime_min <= utcnow rt -> utcnow rt + timedelta_hours 24 <= datetime_max ->
  create_simple_jwt rt u = Ok (spec_token_binary64 key u (utcnow rt)).
Proof.
  intros Hu Hk Hz Hmin Hmax.
  rewrite (create_simple_jwt_eq rt u key (unix_seconds (utcnow rt + timedelta_hours 24)) Hu Hk).
  - unfold wire_token, signed_token, signed_segment, spec_token_binary64, spec_token_with,
      timedelta_hours.
    now rewrite dumps_claims.
  - unfold datetime_min, datetime_max, timedelta_hours in *. lia.
  - apply timestamp_utc; [exact Hz|]. lia.
Qed.

Lemma token_wire_format_witness :
  create_simple_jwt (demo_runtime t0) admin
  = Ok (spec_token_binary64 (lit "demo-secret-key") admin t0).
Proof.
  apply (token_wire_format (demo_runtime t0) admin (lit "demo-secret-key")).
  - apply pystr_identityb_ok. vm_compute. reflexivity.
  - vm_compute. reflexivity.
  - reflexivity.
  - vm_compute. discriminate.
  - vm_compute. discriminate.
Defined.

(** The claim C5 fails where binary64 does not tell microseconds apart:
    the token issued in UTC in the first microsecond of the year 2300
    does not expire exactly 24 hours later, at 10413878400.000001, but
    at the nearest [float], which JSON writes 10413878400.000002. *)
Lemma token_wire_format_counterexample :
  create_simple_jwt (demo_runtime year_2300) admin
  <> Ok (spec_token (lit "demo-secret-key") admin year_2300)
  /\ create_simple_jwt (demo_runtime year_2300) admin
     = Ok (spec_token_with (lit "demo-secret-key") admin (lit "10413878400.000002"))
  /\ float_format (FFin (year_2300 + 24 * 3600 * 1000000) (-6)) = lit "10413878400.000001".
Proof.
  split; [|split; vm_compute; reflexivity].
  assert (N : match create_simple_jwt (demo_runtime year_2300) admin with
              | Ok t => str_eqb t (spec_token (lit "demo-secret-key") admin year_2300)
              | Raise _ => true
              end = false) by (vm_compute; reflexivity).
  intros H. rewrite H in N.
  change (str_eqb (spec_token (lit "demo-secret-key") admin year_2300)
                  (spec_token (lit "demo-secret-key") admin year_2300) = false) in N.
  rewrite str_eqb_refl in N. discriminate N.
Qed.

(* ================================================================== *)

(** A correctly signed token is verified as what its claims give. *)
Lemma verify_signed (rt : runtime) (token b64 sig : str) :
  split DOT token = [b64; sig] -> sign (JWT_SECRET rt) b64 = Ok sig ->
  verify_simple_jwt rt token
  = try_except (payload <- read_claims (recursion_limit rt) b64 ;;
                identity_of_claims rt payload) (Ok None).
Proof.
  intros Hs Hg. unfold verify_simple_jwt. now rewrite (verify_body_parts rt token b64 sig).
Qed.

(** C3, as the code has it: the expiry test is strict.  A correctly signed,
    parseable token whose expiry claim is equal to the current time has not
    expired: it is verified as the identity that its claims carry. *)
Theorem expiry_equal_to_now_is_accepted
    (rt : runtime) (token b64 sig : str) (d : list (str * json)) (v : json)
    (f now : pyfloat) (i e r : str) (gl : list json) (gs : list Group) :
  split DOT token = [b64; sig] -> sign (JWT_SECRET rt) b64 = Ok sig ->
  read_claims (recursion_limit rt) b64 = Ok (JDict d) ->
  dict_get d (lit "exp") = Some v -> number_value v = Some f ->
  timestamp (utcoffset rt) (utcnow rt) = Ok now -> float_eq f now ->
  dict_get d (lit "userId") = Some (JStr i) ->
  dict_get d (lit "email") = Some (JStr e) ->
  dict_get d (lit "role") = Some (JStr r) ->
  dict_get d (lit "groups") = Some (JList gl) ->
  Forall2 group_json gl gs ->
  verify_simple_jwt rt token = Ok (Some (MkDemoUser i e r gs)).
Proof.
  intros Hs Hg Hr Hx Hn Hnow Heq Hi He Hro Hgl Hgs.
  rewrite (verify_signed rt token b64 sig Hs Hg), Hr. cbn [bind].
  rewrite (identity_of_claims_ok rt d now i e r gl gs); try assumption; [reflexivity|].
  unfold get_default. rewrite Hx, (py_lt_number v f _ Hn).
  now rewrite (float_eq_not_lt _ _ Heq).
Qed.


(** C10. [sub] plays no part in verification: a correctly signed, unexpired
    token whose claims carry [userId], [email], [role] and [groups] is
    verified as the identity made of these four, whatever [sub] is and
    whether it is there at all. *)
Theorem sub_is_not_used
    (rt : runtime) (token b64 sig : str) (d : list (str * json)) (sub : option json)
    (now : pyfloat) (i e r : str) (gl : list json) (gs : list Group) :
  split DOT token = [b64; sig] -> sign (JWT_SECRET rt) b64 = Ok sig ->
  read_claims (recursion_limit rt) b64 = Ok (JDict d) ->
  timestamp (utcoffset rt) (utcnow rt) = Ok now ->
  py_lt (get_default d (lit "exp") (JInt 0)) now = Ok false ->
  dict_get d (lit "sub") = sub ->
  dict_get d (lit "userId") = Some (JStr i) ->
  dict_get d (lit "email") = Some (JStr e) ->
  dict_get d (lit "role") = Some (JStr r) ->
  dict_get d (lit "groups") = Some (JList gl) ->
  Forall2 group_json gl gs ->
  verify_simple_jwt rt token = Ok (Some (MkDemoUser i e r gs)).
Proof.
  intros Hs Hg Hr Hnow Hx _ Hi He Hro Hgl Hgs.
  rewrite (verify_signed rt token b64 sig Hs Hg), Hr. cbn [bind].
  now rewrite (identity_of_claims_ok rt d now i e r gl gs).
Qed.

Lemma sub_is_not_used_witness :
  verify_simple_jwt (demo_runtime t0) (signed_token demo_key (claims_without_sub 1700000001))
  = Ok (Some admin).
Proof.
  eapply (sub_is_not_used (demo_runtime t0) _ _ _ _ None).
  - vm_compute. reflexivity.
  - vm_compute. reflexivity.
  - vm_compute. reflexivity.
  - vm_compute. reflexivity.
  - vm_compute. reflexivity.
  - vm_compute. reflexivity.
  - vm_compute. reflexivity.
  - vm_compute. reflexivity.
  - vm_compute. reflexivity.
  - vm_compute. reflexivity.
  - exact (model_dump_group_json (user_groups admin)).
Defined.

Lemma expiry_equal_to_now_is_accepted_witness :
  verify_simple_jwt (demo_runtime (t0 + day))
    (signed_token demo_key (claims admin (unix_seconds (t0 + day))))
  = Ok (Some admin).
Proof.
  eapply (expiry_equal_to_now_is_accepted (demo_runtime (t0 + day))).
  - vm_compute. reflexivity.
  - vm_compute. reflexivity.
  - vm_compute. reflexivity.
  - vm_compute. reflexivity.
  - reflexivity.
  - vm_compute. reflexivity.
  - vm_compute. reflexivity.
  - vm_compute. reflexivity.
  - vm_compute. reflexivity.
  - vm_compute. reflexivity.
  - vm_compute. reflexivity.
  - exact (model_dump_group_json (user_groups admin)).
Defined.

(** The claim C3 fails on the token issued to [admin] at [t0] and presented
    exactly 24 hours later: it is correctly signed and parseable, its expiry
    is the current time, and it is accepted. *)
Lemma expiry_equal_to_now_counterexample :
  exists token b64 sig d f now,
    create_simple_jwt (demo_runtime t0) admin = Ok token
    /\ split DOT token = [b64; sig]
    /\ sign (JWT_SECRET (demo_runtime (t0 + day))) b64 = Ok sig
    /\ read_claims 1000 b64 = Ok (JDict d)
    /\ dict_get d (lit "exp") = Some (JFloat f)
    /\ timestamp (utcoffset (demo_runtime (t0 + day))) (utcnow (demo_runtime (t0 + day)))
       = Ok now
    /\ float_eq f now
    /\ verify_simple_jwt (demo_runtime (t0 + day)) token <> Ok None.
Proof.
  do 6 eexists. do 7 (split; [vm_compute; reflexivity|]).
  vm_compute. intros H. discriminate H.
Qed.


(* ================================================================== *)

Lemma count_in (c : Z) (s : str) : In c s -> (1 <= count c s)%nat.
Proof.
  induction s as [|x s IH]; cbn [In count]; [intros []|].
  intros [->|H]; [rewrite Z.eqb_refl; lia|].
  destruct (x =? c); [lia|auto].
Qed.

(** A token whose second segment is not the MAC of the first under the
    verifier's secret is rejected. *)
Lemma verify_unsigned (rt : runtime) (token b64 sig : str) :
  split DOT token = [b64; sig] -> sign (JWT_SECRET rt) b64 <> Ok sig ->
  verify_simple_jwt rt token = Ok None.
Proof.
  intros Hs N. unfold verify_simple_jwt.
  destruct (sign (JWT_SECRET rt) b64) as [sig'|e] eqn:G.
  - rewrite (verify_body_bad_signature rt token b64 sig sig' Hs G); [reflexivity|].
    intros ->. now apply N.
  - unfold verify_body. rewrite Hs. cbn [len List.length Z.of_nat].
    cbn [Z.eqb Pos.of_succ_nat Pos.succ Pos.eqb negb]. now rewrite G.
Qed.

(** Any change to the signature of a signed token makes it invalid. *)
Lemma altered_signature_is_rejected (rt : runtime) (b64 sig sig' : str) :
  ~ In DOT b64 -> sign (JWT_SECRET rt) b64 = Ok sig -> sig' <> sig ->
  verify_simple_jwt rt (b64 ++ [DOT] ++ sig') = Ok None.
Proof.
  intros Hb Hg N. destruct (in_dec Z.eq_dec DOT sig') as [Hin|Hout].
  - unfold verify_simple_jwt. rewrite verify_body_unless_one_dot; [reflexivity|].
    rewrite !count_app. cbn [count Z.eqb Pos.eqb].
    pose proof (count_in _ _ Hin). lia.
  - apply (verify_unsigned rt _ b64 sig'); [now apply split_token|].
    rewrite Hg. intros E. injection E as E. now apply N.
Qed.

(** A change to the claims of a signed token makes it invalid, unless the
    altered claims have the MAC of the original ones. *)
Lemma altered_claims_are_rejected (rt : runtime) (b64 b64' sig : str) :
  ~ In DOT sig -> sign (JWT_SECRET rt) b64' <> Ok sig ->
  verify_simple_jwt rt (b64' ++ [DOT] ++ sig) = Ok None.
Proof.
  intros Hs N. destruct (in_dec Z.eq_dec DOT b64') as [Hin|Hout].
  - unfold verify_simple_jwt. rewrite verify_body_unless_one_dot; [reflexivity|].
    rewrite !count_app. cbn [count Z.eqb Pos.eqb].
    pose proof (count_in _ _ Hin). lia.
  - apply (verify_unsigned rt _ b64' sig); [now apply split_token|exact N].
Qed.

Lemma create_simple_jwt_inv (rt : runtime) (u : DemoUser) (token : str) :
  pystr_identity u -> create_simple_jwt rt u = Ok token ->
  exists key expire,
    encode (JWT_SECRET rt) = Ok key /\ token = wire_token key u expire.
Proof.
  intros Hu. unfold create_simple_jwt.
  destruct (datetime_add _ _) as [expire_at|]; [|discriminate]. cbn [bind].
  destruct (timestamp _ _) as [x|]; [|discriminate]. cbn [bind].
  pose proof (dumps_claims_ascii u x Hu) as A.
  pose proof (payload_b64_chars u x Hu) as B.
  rewrite (encode_ascii _ A). cbn [bind].
  rewrite (decode_ascii _ (segment_chars_ascii _ B)). cbn [bind].
  destruct (encode (JWT_SECRET rt)) as [key|] eqn:K.
  - rewrite (sign_segment _ key _ K B). cbn [bind]. intros E. injection E as <-.
    now exists key, x.
  - unfold sign. rewrite K. discriminate.
Qed.

(** C6, as the code has it.  A token issued under secret A is rejected
    under secret B whenever the MAC that B gives to the claims segment is
    not the one that A gave it. *)
Theorem other_secret_is_rejected
    (rtA rtB : runtime) (u : DemoUser) (token b64 sig : str) :
  pystr_identity u -> create_simple_jwt rtA u = Ok token ->
  split DOT token = [b64; sig] ->
  sign (JWT_SECRET rtB) b64 <> sign (JWT_SECRET rtA) b64 ->
  verify_simple_jwt rtB token = Ok None.
Proof.
  intros Hu Hc Hs N.
  destruct (create_simple_jwt_inv rtA u token Hu Hc) as (key & x & K & ->).
  pose proof (payload_b64_chars u x Hu) as B.
  pose proof (split_token _ _ (segment_chars_no_dot _ B)
                (segment_chars_no_dot _ (signature_chars key
                   (urlsafe_b64encode (dumps (claims u x)))))) as Sp.
  unfold wire_token, signed_token, signed_segment in *. rewrite Sp in Hs. injection Hs as <- <-.
  apply (verify_unsigned rtB _ _ _ Sp).
  now rewrite <- (sign_segment _ key _ K B).
Qed.

Lemma other_secret_is_rejected_witness :
  verify_simple_jwt (MkRuntime (lit "another-secret") t0 1000 utc)
    (signed_token demo_key (claims admin (unix_seconds (t0 + day)))) = Ok None.
Proof.
  eapply (other_secret_is_rejected (demo_runtime t0) (MkRuntime (lit "another-secret") t0 1000 utc) admin).
  - apply pystr_identityb_ok. vm_compute. reflexivity.
  - vm_compute. reflexivity.
  - vm_compute. reflexivity.
  - vm_compute. discriminate.
Defined.

(** The claim C6 fails on two distinct secrets that HMAC takes for the same
    key: a token issued under the first is accepted under the second. *)
Lemma distinct_secrets_counterexample :
  long_secret <> digest_secret
  /\ exists token,
       create_simple_jwt (MkRuntime long_secret t0 1000 utc) admin = Ok token
       /\ verify_simple_jwt (MkRuntime digest_secret t0 1000 utc) token = Ok (Some admin).
Proof.
  split; [vm_compute; discriminate|].
  eexists. split; [vm_compute; reflexivity|]. vm_compute. reflexivity.
Qed.

(** C8. Against the demo credential store, whose stored hashes are the
    SHA-256 of the password bytes: the administrator's email with
    "password123" gives the administrator's identity, with "wrongpass"
    nothing; an email that is not in the store gives nothing, whatever the
    password. *)
Theorem credential_check :
  (exists db, demo_users_db = Ok db
     /\ map db_password db
        = [hexlify (sha256 (lit "password123")); hexlify (sha256 (lit "userpass"))])
  /\ authenticate_user (lit "admin@example.com") (lit "password123") = Ok (Some admin)
  /\ authenticate_user (lit "admin@example.com") (lit "wrongpass") = Ok None
  /\ (forall email password : str,
        get_user_by_email email = Ok None -> authenticate_user email password = Ok None).
Proof.
  split; [eexists; split; [vm_compute; reflexivity|vm_compute; reflexivity]|].
  split; [vm_compute; reflexivity|].
  split; [vm_compute; reflexivity|].
  intros email password H. unfold authenticate_user. now rewrite H.
Qed.

Lemma credential_check_witness :
  authenticate_user (lit "nobody@example.com") (lit "password123") = Ok None.
Proof.
  apply (proj2 (proj2 (proj2 credential_check))). vm_compute. reflexivity.
Defined.

(* ================================================================== *)
(** * The step bounds of the scanner are never reached *)

Lemma skip_ws_length (s : str) : (List.length (skip_ws s) <= List.length s)%nat.
Proof.
  induction s as [|c s IH]; cbn [skip_ws]; [lia|].
  destruct (is_ws c); cbn [List.length]; lia.
Qed.

Lemma progress_scanstring_step (X s : str) (a : Z) :
  (List.length X < List.length s)%nat -> progress X (scanstring X) ->
  progress s (' (t, rest) <- scanstring X ;; Ok (a :: t, rest)).
Proof.
  intros L H. destruct (scanstring X) as [[t r]|e]; cbn in *; [lia|exact H].
Qed.

Lemma progress_scanstring (s : str) : progress s (scanstring s).
Proof.
  remember (List.length s) as n eqn:E. revert s E.
  induction n as [n IH] using lt_wf_ind. intros s E.
  assert (R : forall X, (List.length X < List.length s)%nat -> progress X (scanstring X)).
  { intros X L. apply (IH (List.length X)); [lia|reflexivity]. }
  clear IH E.
  destruct s as [|c r]; [cbn; discriminate|].
  cbn [scanstring].
  repeat lazymatch goal with
  | |- progress _ (Raise _) => cbn; discriminate
  | |- progress _ (Ok _) => cbn [progress List.length]; lia
  | |- progress _ (bind (scanstring ?X) _) =>
      apply progress_scanstring_step; [cbn [List.length]; lia|apply R; cbn [List.length]; lia]
  | |- progress _ (if ?b then _ else _) => destruct b
  | |- progress _ (match ?x with _ => _ end) => destruct x
  end.
Qed.

Lemma span_digits_length (s d t : str) :
  span_digits s = (d, t) -> (List.length t <= List.length s)%nat.
Proof.
  revert d t. induction s as [|c s IH]; intros d t; cbn [span_digits].
  - intros E. injection E as <- <-. cbn. lia.
  - destruct (is_digit c).
    + destruct (span_digits s) as [d' t'] eqn:S. intros E. injection E as <- <-.
      specialize (IH _ _ eq_refl). cbn [List.length]. lia.
    + intros E. injection E as <- <-. lia.
Qed.

Lemma scan_int_part_length (s ip r : str) :
  scan_int_part s = Some (ip, r) -> (List.length r < List.length s)%nat.
Proof.
  unfold scan_int_part. destruct s as [|c s]; [discriminate|].
  destruct (c =? 48); [intros E; injection E as <- <-; cbn; lia|].
  destruct (is_digit c); [|discriminate].
  destruct (span_digits s) as [d t] eqn:S. intros E. injection E as <- <-.
  pose proof (span_digits_length _ _ _ S). cbn [List.length]. lia.
Qed.

Lemma scan_frac_length (s fp r : str) :
  scan_frac s = (fp, r) -> (List.length r <= List.length s)%nat.
Proof.
  unfold scan_frac. destruct s as [|c s]; [intros E; injection E as <- <-; lia|].
  destruct (c =? DOT); [|intros E; injection E as <- <-; lia].
  destruct (span_digits s) as [[|d0 d] t] eqn:S; intros E; injection E as <- <-; [lia|].
  pose proof (span_digits_length _ _ _ S). cbn [List.length]. lia.
Qed.

Lemma scan_exp_length (s : str) (ex : option Z) (r : str) :
  scan_exp s = (ex, r) -> (List.length r <= List.length s)%nat.
Proof.
  unfold scan_exp. destruct s as [|c s]; [intros E; injection E as <- <-; lia|].
  destruct ((c =? 101) || (c =? 69)); [|intros E; injection E as <- <-; lia].
  assert (L : forall (neg : bool) (r1 : str), (List.length r1 <= List.length s)%nat ->
    match span_digits r1 with
    | ([], _) => (None, c :: s)
    | (d, t) => (Some (if neg then - digits_value d else digits_value d), t)
    end = (ex, r) -> (List.length r <= List.length (c :: s))%nat).
  { intros neg r1 L1. destruct (span_digits r1) as [[|d0 d] t] eqn:S;
      intros E; injection E as <- <-; [lia|].
    pose proof (span_digits_length _ _ _ S). cbn [List.length]. lia. }
  destruct s as [|sg s']; [apply (L false []); cbn; lia|].
  destruct (sg =? 45); [apply (L true s'); cbn; lia|].
  destruct (sg =? 43); [apply (L false s')|apply (L false (sg :: s'))];
    cbn [List.length]; lia.
Qed.

Lemma progress_match_number (s : str) (res : result (json * str)) :
  match_number s = Some res -> progress s res.
Proof.
  unfold match_number.
  assert (H : forall (neg : bool) (s1 : str), (List.length s1 <= List.length s)%nat ->
    match scan_int_part s1 with
    | None => None
    | Some (ip, s2) =>
        let (fp, s3) := scan_frac s2 in
        let (ex, s4) := scan_exp s3 in
        let sgn := fun x : Z => if neg then - x else x in
        match fp, ex with
        | [], None =>
            if int_max_str_digits <? len ip then Some (Raise ValueError)
            else Some (Ok (JInt (sgn (digits_value ip)), s4))
        | _, _ =>
            let e := match ex with Some e => e | None => 0 end in
            Some (Ok (JFloat (round64 (FFin (sgn (digits_value (ip ++ fp))) (e - len fp))), s4))
        end
    end = Some res -> progress s res).
  { intros neg s1 L1. destruct (scan_int_part s1) as [[ip s2]|] eqn:I; [|discriminate].
    destruct (scan_frac s2) as [fp s3] eqn:F. destruct (scan_exp s3) as [ex s4] eqn:X.
    pose proof (scan_int_part_length _ _ _ I). pose proof (scan_frac_length _ _ _ F).
    pose proof (scan_exp_length _ _ _ X). cbv zeta.
    destruct fp; destruct ex; try destruct (_ <? _);
      intros E; injection E as <-; cbn; try lia; discriminate. }
  destruct s as [|c r]; [apply (H false []); lia|].
  destruct (c =? 45); [apply (H true r)|apply (H false (c :: r))];
    cbn [List.length]; lia.
Qed.

Lemma strip_prefix_length (p s r : str) :
  strip_prefix p s = Some r -> List.length s = (List.length p + List.length r)%nat.
Proof.
  revert s. induction p as [|a p IH]; intros s; cbn [strip_prefix].
  - intros E. injection E as <-. reflexivity.
  - destruct s as [|b s]; [discriminate|]. destruct (a =? b); [|discriminate].
    intros E. cbn [List.length]. rewrite (IH _ E). lia.
Qed.

Lemma progress_scan_literal (s : str) (x : json * str) :
  scan_literal s = Some x -> progress s (Ok x).
Proof.
  unfold scan_literal.
  repeat lazymatch goal with
  | |- match strip_prefix ?p s with _ => _ end = _ -> _ =>
      let E := fresh "E" in
      destruct (strip_prefix p s) eqn:E;
        [apply strip_prefix_length in E; cbn in E;
         let Q := fresh in intros Q; injection Q as <-; cbn; lia|]
  end.
  discriminate.
Qed.

Section Progress.

Variable scan : str -> result (json * str).
Hypothesis scan_progress : forall s, progress s (scan s).

Lemma progress_array_items (n : nat) (s : str) :
  (List.length s < n)%nat -> progress s (array_items scan n s).
Proof.
  revert s. induction n as [|n IH]; intros s L; [lia|].
  cbn [array_items]. pose proof (scan_progress s) as P.
  destruct (scan s) as [[v r]|e]; cbn [bind progress] in *; [|exact P].
  pose proof (skip_ws_length r) as W.
  destruct (skip_ws r) as [|c r']; [cbn; discriminate|]. cbn [List.length] in W.
  destruct (c =? 93); [cbn [progress]; lia|]. destruct (c =? 44); [|cbn; discriminate].
  pose proof (skip_ws_length r') as W'.
  specialize (IH (skip_ws r') ltac:(lia)).
  destruct (array_items scan n (skip_ws r')) as [[vs rest]|e]; cbn [bind progress] in *;
    [lia|exact IH].
Qed.

Lemma progress_parse_array (s : str) : progress_after s (parse_array scan s).
Proof.
  unfold parse_array. pose proof (skip_ws_length s) as W.
  destruct (skip_ws s) as [|c r] eqn:E; [cbn; discriminate|].
  destruct (c =? 93); [cbn [progress_after List.length] in *; lia|].
  pose proof (progress_array_items (S (List.length s)) (c :: r) ltac:(lia)) as P.
  destruct (array_items scan _ _) as [[vs rest]|e]; cbn [bind progress progress_after] in *;
    [lia|exact P].
Qed.

Lemma progress_object_pairs (n : nat) (s : str) :
  (List.length s < n)%nat -> progress s (object_pairs scan n s).
Proof.
  revert s. induction n as [|n IH]; intros s L; [lia|].
  cbn [object_pairs]. pose proof (progress_scanstring s) as P.
  destruct (scanstring s) as [[key r]|e]; cbn [bind progress] in *; [|exact P].
  pose proof (skip_ws_length r) as W.
  destruct (skip_ws r) as [|c r1]; [cbn; discriminate|]. cbn [List.length] in W.
  destruct (c =? 58); [|cbn; discriminate].
  pose proof (skip_ws_length r1) as W1. pose proof (scan_progress (skip_ws r1)) as P1.
  destruct (scan (skip_ws r1)) as [[v r2]|e]; cbn [bind progress] in *; [|exact P1].
  pose proof (skip_ws_length r2) as W2.
  destruct (skip_ws r2) as [|c2 r3]; [cbn; discriminate|]. cbn [List.length] in W2.
  destruct (c2 =? 125); [cbn [progress]; lia|]. destruct (c2 =? 44); [|cbn; discriminate].
  pose proof (skip_ws_length r3) as W3.
  destruct (skip_ws r3) as [|q r4]; [cbn; discriminate|]. cbn [List.length] in W3.
  destruct (q =? DQUOTE); [|cbn; discriminate].
  specialize (IH r4 ltac:(lia)).
  destruct (object_pairs scan n r4) as [[ps rest]|e]; cbn [bind progress] in *;
    [lia|exact IH].
Qed.

Lemma progress_parse_object (s : str) : progress_after s (parse_object scan s).
Proof.
  unfold parse_object. pose proof (skip_ws_length s) as W.
  destruct (skip_ws s) as [|c r] eqn:E; [cbn; discriminate|]. cbn [List.length] in W.
  destruct (c =? 125); [cbn [progress_after]; lia|].
  destruct (c =? DQUOTE); [|cbn; discriminate].
  pose proof (progress_object_pairs (S (List.length s)) r ltac:(lia)) as P.
  destruct (object_pairs scan _ _) as [[ps rest]|e]; cbn [bind progress progress_after] in *;
    [lia|exact P].
Qed.

End Progress.

Lemma progress_scan_once (depth : nat) (s : str) : progress s (scan_once depth s).
Proof.
  revert s. induction depth as [|d IH]; intros s;
    (destruct s as [|c r]; [cbn; discriminate|]); cbn [scan_once].
  all: destruct (c =? DQUOTE);
    [pose proof (progress_scanstring r) as P;
     destruct (scanstring r) as [[t rest]|e]; cbn [bind progress List.length] in *;
       [lia|exact P]|].
  all: destruct (c =? 123).
  1: cbn; discriminate.
  2: { pose proof (progress_parse_object _ IH r) as P.
       destruct (parse_object _ r) as [[v rest]|e]; cbn [progress progress_after List.length] in *;
         [lia|exact P]. }
  all: destruct (c =? 91).
  1: cbn; discriminate.
  2: { pose proof (progress_parse_array _ IH r) as P.
       destruct (parse_array _ r) as [[v rest]|e]; cbn [progress progress_after List.length] in *;
         [lia|exact P]. }
  all: destruct (scan_literal (c :: r)) as [x|] eqn:L;
    [now apply progress_scan_literal|].
  all: destruct (match_number (c :: r)) as [res|] eqn:M;
    [now apply progress_match_number|cbn; discriminate].
Qed.

(** [loads] never stops for lack of steps: when it fails, Python fails. *)
Theorem loads_steps_suffice (depth : nat) (s : str) : loads depth s <> Raise Unreachable.
Proof.
  unfold loads. destruct (startswith_bom s); [discriminate|].
  pose proof (progress_scan_once depth (skip_ws s)) as P.
  destruct (scan_once depth (skip_ws s)) as [[v r]|e]; cbn [bind progress] in *.
  - destruct (skip_ws r); discriminate.
  - intros E. injection E as ->. now apply P.
Qed.

Example create_simple_jwt_admin :
  create_simple_jwt (demo_runtime t0) admin = Ok admin_token.
Proof. vm_compute. reflexivity. Qed.

(** The failures that the [try] block of [verify_simple_jwt] turns into
    "no identity": a first segment that is no base64, no UTF-8, no JSON, no
    object, and claims with an expiry that is no number, without a field,
    or with a field of the wrong type. *)
Example verify_body_raises :
  let rt := demo_runtime t0 in
  verify_body rt (signed_segment demo_key (lit "A")) = Raise BinasciiError
  /\ verify_body rt (signed_segment demo_key (lit "_w==")) = Raise UnicodeDecodeError
  /\ verify_body rt (signed_token demo_key (JStr (lit "hello")))  = Raise AttributeError
  /\ verify_body rt (signed_segment demo_key (lit "e25vdCBqc29u")) = Raise JSONDecodeError
  /\ verify_body rt (signed_token demo_key (JDict [(lit "exp", JStr (lit "never"))]))
     = Raise TypeError
  /\ verify_body rt (signed_token demo_key (JDict [(lit "exp", JFloat (FInf false))]))
     = Raise KeyError
  /\ verify_body rt (signed_token demo_key (claims_with_role (JInt 1)))
     = Raise ValidationError.
Proof.
  cbv zeta. do 6 (split; [vm_compute; reflexivity|]). vm_compute. reflexivity.
Qed.

Example verify_simple_jwt_collapses :
  let rt := demo_runtime t0 in
  verify_simple_jwt rt (signed_segment demo_key (lit "A")) = Ok None
  /\ verify_simple_jwt rt (signed_token demo_key (claims_with_role (JInt 1))) = Ok None.
Proof.
  cbv zeta. split; [vm_compute; reflexivity|]. vm_compute. reflexivity.
Qed.

(* ================================================================== *)
(** * Passwords and their hashes *)

Lemma scalar_dec (c : Z) : {scalar c} + {~ scalar c}.
Proof.
  unfold scalar. destruct (Z_le_dec 0 c); [|right; lia].
  destruct (Z_le_dec c 0x10FFFF); [|right; lia].
  destruct (is_surrogate c); [right; intros [_ H]; discriminate|left; auto].
Defined.

Lemma utf8_encode_char_scalar (c : Z) :
  scalar c -> exists b, utf8_encode_char c = Ok b.
Proof.
  intros [R S]. unfold utf8_encode_char. rewrite S.
  destruct ((c <? 0) || (1114111 <? c)) eqn:E.
  - apply orb_true_iff in E. destruct E as [E|E]; [apply Z.ltb_lt in E|apply Z.ltb_lt in E]; lia.
  - destruct (c <? 128); [eauto|]. destruct (c <? 2048); [eauto|].
    destruct (c <? 65536); eauto.
Qed.

Lemma utf8_encode_char_not_scalar (c : Z) :
  ~ scalar c -> utf8_encode_char c = Raise UnicodeEncodeError.
Proof.
  intros N. unfold utf8_encode_char.
  destruct ((c <? 0) || (1114111 <? c)) eqn:E; [reflexivity|].
  apply orb_false_iff in E. destruct E as [E1 E2].
  apply Z.ltb_ge in E1. apply Z.ltb_ge in E2.
  destruct (is_surrogate c) eqn:S.
  - unfold is_surrogate in S. apply andb_true_iff in S. destruct S as [S1 S2].
    apply Z.leb_le in S1. apply Z.leb_le in S2.
    destruct (c <? 128) eqn:A; [apply Z.ltb_lt in A; lia|].
    destruct (c <? 2048) eqn:B; [apply Z.ltb_lt in B; lia|]. reflexivity.
  - exfalso. apply N. split; [lia|exact S].
Qed.

(** [s.encode()] succeeds on text and raises [UnicodeEncodeError] on every
    other string. *)
Lemma encode_cases (s : str) :
  (text s /\ exists b, encode s = Ok b)
  \/ (~ text s /\ encode s = Raise UnicodeEncodeError).
Proof.
  induction s as [|c r IH].
  - left. split; [constructor|now exists []].
  - cbn [encode]. destruct (scalar_dec c) as [Hc|Hc].
    + destruct (utf8_encode_char_scalar c Hc) as [b ->]. cbn [bind].
      destruct IH as [[T [bs ->]]|[T ->]].
      * left. split; [now constructor|]. cbn [bind]. eauto.
      * right. split; [|reflexivity]. intros H. inversion H. now apply T.
    + rewrite (utf8_encode_char_not_scalar c Hc). right. split; [|reflexivity].
      intros H. inversion H. now apply Hc.
Qed.

Lemma encode_not_text (s : str) : ~ text s -> encode s = Raise UnicodeEncodeError.
Proof.
  intros N. destruct (encode_cases s) as [[T _]|[_ E]]; [contradiction|exact E].
Qed.

Lemma encode_ok_text (s : str) (b : bytes) : encode s = Ok b -> text s.
Proof.
  intros E. destruct (encode_cases s) as [[T _]|[_ E']]; [exact T|congruence].
Qed.

Lemma sha_round_length (st : list Z) (kw : Z * Z) :
  List.length (sha_round st kw) = List.length st.
Proof.
  unfold sha_round.
  destruct st as [|a [|b [|c [|d [|e [|f [|g [|h [|]]]]]]]]]; reflexivity.
Qed.

Lemma fold_sha_round_length (l : list (Z * Z)) (st : list Z) :
  List.length (fold_left sha_round l st) = List.length st.
Proof.
  revert st. induction l as [|kw l IH]; intros st; [reflexivity|].
  cbn [fold_left]. now rewrite IH, sha_round_length.
Qed.

Lemma zip_add_length (a b : list Z) :
  List.length a = List.length b -> List.length (zip_add a b) = List.length a.
Proof.
  revert b. induction a as [|x a IH]; intros [|y b] H; try discriminate; [reflexivity|].
  cbn [zip_add List.length]. f_equal. apply IH. now injection H.
Qed.

Lemma sha_block_length (h block : list Z) :
  List.length (sha_block h block) = List.length h.
Proof.
  unfold sha_block. apply zip_add_length. now rewrite fold_sha_round_length.
Qed.

Lemma sha_blocks_length (n : nat) (h ws : list Z) :
  List.length (sha_blocks n h ws) = List.length h.
Proof.
  revert h ws. induction n as [|n IH]; intros h ws; [reflexivity|].
  cbn [sha_blocks]. destruct ws; [reflexivity|]. now rewrite IH, sha_block_length.
Qed.

Lemma flat_map_be_bytes_length (l : list Z) :
  List.length (flat_map (be_bytes 4) l) = (4 * List.length l)%nat.
Proof.
  induction l as [|x l IH]; [reflexivity|].
  cbn [flat_map]. rewrite length_app, IH. cbn [be_bytes List.length]. lia.
Qed.

(** A SHA-256 digest has 32 octets. *)
Lemma sha256_length (msg : bytes) : List.length (sha256 msg) = 32%nat.
Proof.
  unfold sha256. now rewrite flat_map_be_bytes_length, sha_blocks_length.
Qed.

Lemma hexlify_length (b : bytes) : List.length (hexlify b) = (2 * List.length b)%nat.
Proof.
  unfold hexlify. induction b as [|x b IH]; [reflexivity|].
  cbn [flat_map List.length app]. rewrite IH. lia.
Qed.

Lemma hex_digit_lower (n : Z) : 0 <= n < 16 -> lower_hex (hex_digit n).
Proof.
  intros H. unfold hex_digit, lower_hex. destruct (n <? 10) eqn:E.
  - apply Z.ltb_lt in E. lia.
  - apply Z.ltb_ge in E. lia.
Qed.

Lemma hexlify_lower_hex (b : bytes) : Forall is_byte b -> Forall lower_hex (hexlify b).
Proof.
  unfold hexlify. induction 1 as [|x b Hx _ IH]; [constructor|].
  cbn [flat_map app]. unfold is_byte in Hx.
  constructor; [apply hex_digit_lower; split; [apply Z.div_pos; lia|apply Z.div_lt_upper_bound; lia]|].
  constructor; [apply hex_digit_lower; apply Z.mod_pos_bound; lia|exact IH].
Qed.

Lemma lower_hexb_ok (s : str) : forallb lower_hexb s = true -> Forall lower_hex s.
Proof.
  intros H. apply Forall_forall. intros c Hc.
  rewrite forallb_forall in H. specialize (H c Hc). unfold lower_hexb in H. unfold lower_hex.
  apply orb_true_iff in H. destruct H as [H|H]; apply andb_true_iff in H; destruct H as [A B];
    apply Z.leb_le in A; apply Z.leb_le in B; lia.
Qed.

Lemma text_dec (s : str) : {text s} + {~ text s}.
Proof. apply Forall_dec, scalar_dec. Defined.

Lemma simple_hash_text (password : str) :
  text password ->
  exists h, simple_hash password = Ok h /\ List.length h = 64%nat /\ Forall lower_hex h.
Proof.
  intros T. unfold simple_hash. destruct (encode_text password T) as [b ->].
  cbn [bind]. eexists. split; [reflexivity|]. split.
  - now rewrite hexlify_length, sha256_length.
  - apply hexlify_lower_hex, sha256_range.
Qed.

Lemma simple_hash_not_text (password : str) :
  ~ text password -> simple_hash password = Raise UnicodeEncodeError.
Proof.
  intros N. unfold simple_hash. now rewrite (encode_not_text password N).
Qed.

(** X1. [simple_hash] gives 64 lowercase hexadecimal digits for every
    password that is text, and raises [UnicodeEncodeError] for every other
    string, one with a lone surrogate. *)
Theorem simple_hash_digest (password : str) :
  (text password
   /\ exists h, simple_hash password = Ok h
        /\ List.length h = 64%nat /\ Forall lower_hex h)
  \/ (~ text password /\ simple_hash password = Raise UnicodeEncodeError).
Proof.
  destruct (text_dec password) as [T|N].
  - left. split; [exact T|apply simple_hash_text, T].
  - right. split; [exact N|apply simple_hash_not_text, N].
Qed.

(** X2. [verify_simple_password] accepts a stored hash only if it is,
    character for character, the 64 lowercase hexadecimal digits that
    [simple_hash] gives for the password. *)
Theorem verify_simple_password_exact (plain_password hashed_password : str) :
  verify_simple_password plain_password hashed_password = Ok true ->
  simple_hash plain_password = Ok hashed_password
  /\ List.length hashed_password = 64%nat /\ Forall lower_hex hashed_password.
Proof.
  unfold verify_simple_password. intros H.
  destruct (text_dec plain_password) as [T|N].
  - destruct (simple_hash_text plain_password T) as (h & E & L & F).
    rewrite E in H. cbn [bind] in H.
    injection H as H. apply str_eqb_eq in H. subst h. now rewrite E.
  - rewrite (simple_hash_not_text plain_password N) in H. discriminate.
Qed.

Lemma verify_simple_password_exact_witness :
  simple_hash (lit "userpass")
  = Ok (lit "05d49692b755f99c4504b510418efeeeebfd466892540f27acf9a31a326d6504")
  /\ List.length (lit "05d49692b755f99c4504b510418efeeeebfd466892540f27acf9a31a326d6504") = 64%nat
  /\ Forall lower_hex (lit "05d49692b755f99c4504b510418efeeeebfd466892540f27acf9a31a326d6504").
Proof.
  apply (verify_simple_password_exact (lit "userpass")).
  vm_compute. reflexivity.
Defined.

(* ================================================================== *)
(** * The credential store *)

Lemma demo_users_db_records : demo_users_db = Ok [admin_record; user_record].
Proof. vm_compute. reflexivity. Qed.

Lemma first_with_email_found (db : list UserInDB) (email : str) (user : UserInDB) :
  first_with_email db email = Some user -> In user db /\ db_email user = email.
Proof.
  induction db as [|u db IH]; [discriminate|]. cbn [first_with_email].
  destruct (str_eqb (db_email u) email) eqn:E.
  - intros H. injection H as <-. apply str_eqb_eq in E. split; [now left|exact E].
  - intros H. destruct (IH H). split; [now right|assumption].
Qed.

Lemma first_with_email_missing (db : list UserInDB) (email : str) :
  first_with_email db email = None -> forall user, In user db -> db_email user <> email.
Proof.
  induction db as [|u db IH]; [intros _ ? []|]. cbn [first_with_email].
  destruct (str_eqb (db_email u) email) eqn:E; [discriminate|].
  intros H user [<-|Hin].
  - intros Q. apply str_eqb_eq in Q. congruence.
  - now apply IH.
Qed.

Lemma get_user_by_email_cases (email : str) :
  (email = lit "admin@example.com" /\ get_user_by_email email = Ok (Some admin_record))
  \/ (email = lit "user@example.com" /\ get_user_by_email email = Ok (Some user_record))
  \/ (email <> lit "admin@example.com" /\ email <> lit "user@example.com"
      /\ get_user_by_email email = Ok None).
Proof.
  unfold get_user_by_email. rewrite demo_users_db_records. cbn [bind first_with_email].
  change (db_email admin_record) with (lit "admin@example.com").
  change (db_email user_record) with (lit "user@example.com").
  destruct (str_eqb (lit "admin@example.com") email) eqn:A.
  - apply str_eqb_eq in A. left. split; [symmetry; exact A|reflexivity].
  - destruct (str_eqb (lit "user@example.com") email) eqn:B.
    + apply str_eqb_eq in B. right. left. split; [symmetry; exact B|reflexivity].
    + right. right. split; [|split; [|reflexivity]]; intros ->;
        rewrite str_eqb_refl in *; discriminate.
Qed.

(** X3. [get_user_by_email] finds a record exactly for the two addresses
    of the store, compared character for character; the record it finds
    has the address asked for, and for any other string it returns
    [None]. *)
Theorem get_user_by_email_lookup (email : str) :
  (exists user, get_user_by_email email = Ok (Some user) /\ db_email user = email
      /\ (email = lit "admin@example.com" \/ email = lit "user@example.com"))
  \/ (get_user_by_email email = Ok None
      /\ email <> lit "admin@example.com" /\ email <> lit "user@example.com").
Proof.
  destruct (get_user_by_email_cases email) as [[-> E]|[[-> E]|(A & B & E)]].
  - left. exists admin_record. split; [exact E|]. split; [reflexivity|left; reflexivity].
  - left. exists user_record. split; [exact E|]. split; [reflexivity|right; reflexivity].
  - right. split; [exact E|]. split; [exact A|exact B].
Qed.

Lemma get_user_by_email_address (email : str) (user_db : UserInDB) :
  get_user_by_email email = Ok (Some user_db) -> db_email user_db = email.
Proof.
  intros H. destruct (get_user_by_email_cases email) as [[-> E]|[[-> E]|(_ & _ & E)]];
    rewrite E in H; [| |discriminate]; injection H as <-; reflexivity.
Qed.

Lemma authenticate_user_inv (email password : str) (user : DemoUser) :
  authenticate_user email password = Ok (Some user) ->
  exists user_db,
    get_user_by_email email = Ok (Some user_db)
    /\ simple_hash password = Ok (db_password user_db)
    /\ user = identity_of user_db.
Proof.
  unfold authenticate_user, verify_simple_password.
  destruct (get_user_by_email email) as [[u|]|e] eqn:G; cbn [bind]; try discriminate.
  destruct (simple_hash password) as [h|e] eqn:S; cbn [bind]; [|discriminate].
  destruct (str_eqb h (db_password u)) eqn:Q; cbn [negb]; [|discriminate].
  intros H. injection H as <-. apply str_eqb_eq in Q. subst h.
  exists u. split; [reflexivity|]. split; [reflexivity|reflexivity].
Qed.

(** Whoever is authenticated is one of the two demo users. *)
Lemma authenticated_demo_user (email password : str) (user : DemoUser) :
  authenticate_user email password = Ok (Some user) -> user = admin \/ user = plain_user.
Proof.
  intros H. destruct (authenticate_user_inv _ _ _ H) as (u & G & _ & ->).
  destruct (get_user_by_email_cases email) as [[_ E]|[[_ E]|(_ & _ & E)]];
    rewrite E in G; [| |discriminate]; injection G as <-;
    [left; reflexivity|right; reflexivity].
Qed.

(** X4. [authenticate_user] returns an identity exactly when the store
    has a record for the address and the password hashes to the hash
    stored there; the identity is made of the fields of that record and
    carries the address that was given. *)
Theorem authenticate_user_accepts (email password : str) (user : DemoUser) :
  authenticate_user email password = Ok (Some user)
  <-> exists user_db,
        get_user_by_email email = Ok (Some user_db)
        /\ simple_hash password = Ok (db_password user_db)
        /\ user = identity_of user_db /\ user_email user = email.
Proof.
  split.
  - intros H. destruct (authenticate_user_inv _ _ _ H) as (u & G & S & ->).
    exists u. split; [exact G|]. split; [exact S|]. split; [reflexivity|].
    cbn [identity_of user_email]. apply get_user_by_email_address. exact G.
  - unfold authenticate_user, verify_simple_password.
    intros (u & -> & -> & -> & _). cbn [bind]. rewrite str_eqb_refl. reflexivity.
Qed.

(** X5. [authenticate_user] raises only [UnicodeEncodeError], and exactly
    when the address is one of the store and the password is no text: an
    unknown address is answered before the password is looked at. *)
Theorem authenticate_user_raises (email password : str) (e : exn) :
  authenticate_user email password = Raise e
  <-> e = UnicodeEncodeError /\ ~ text password
      /\ (email = lit "admin@example.com" \/ email = lit "user@example.com").
Proof.
  unfold authenticate_user, verify_simple_password.
  destruct (get_user_by_email_cases email) as [[-> E]|[[-> E]|(A & B & E)]];
    rewrite E; cbn [bind].
  1,2: destruct (text_dec password) as [T|T];
    [destruct (simple_hash_text password T) as (h & -> & _)
    |rewrite (simple_hash_not_text password T)]; cbn [bind].
  - split; [destruct (negb _); discriminate|intros (_ & N & _); contradiction].
  - split; [intros H; injection H as <-|intros (-> & _); reflexivity].
    split; [reflexivity|]. split; [exact T|left; reflexivity].
  - split; [destruct (negb _); discriminate|intros (_ & N & _); contradiction].
  - split; [intros H; injection H as <-|intros (-> & _); reflexivity].
    split; [reflexivity|]. split; [exact T|right; reflexivity].
  - split; [discriminate|intros (_ & _ & [H|H]); contradiction].
Qed.

Lemma get_demo_users_shown : get_demo_users = Ok [shown admin; shown plain_user].
Proof. vm_compute. reflexivity. Qed.

(** X6. Whoever [authenticate_user] accepts is listed by
    [get_demo_users], with the same [id], [email], [role] and [groups];
    the listing has these four keys and never the stored password. *)
Theorem authenticated_users_are_listed (email password : str) (user : DemoUser) :
  authenticate_user email password = Ok (Some user) ->
  exists users,
    get_demo_users = Ok users
    /\ In (JDict [(lit "id", JStr (user_id user));
                  (lit "email", JStr (user_email user));
                  (lit "role", JStr (user_role user));
                  (lit "groups", JList (map model_dump (user_groups user)))]) users
    /\ Forall (fun entry => exists d, entry = JDict d
                  /\ map fst d = [lit "id"; lit "email"; lit "role"; lit "groups"]) users.
Proof.
  intros H. apply authenticated_demo_user in H.
  exists [shown admin; shown plain_user]. split; [exact get_demo_users_shown|]. split.
  - destruct H as [-> | ->]; [left; reflexivity|right; left; reflexivity].
  - constructor; [|constructor; [|constructor]];
      eexists; (split; [reflexivity|reflexivity]).
Qed.

Lemma authenticated_users_are_listed_witness :
  exists users,
    get_demo_users = Ok users
    /\ In (JDict [(lit "id", JStr (user_id plain_user));
                  (lit "email", JStr (user_email plain_user));
                  (lit "role", JStr (user_role plain_user));
                  (lit "groups", JList (map model_dump (user_groups plain_user)))]) users
    /\ Forall (fun entry => exists d, entry = JDict d
                  /\ map fst d = [lit "id"; lit "email"; lit "role"; lit "groups"]) users.
Proof.
  apply (authenticated_users_are_listed (lit "user@example.com") (lit "userpass")).
  vm_compute. reflexivity.
Defined.

(* ================================================================== *)
(** * What an accepted token is *)

Lemma split_one (sep : Z) (s b : str) :
  split sep s = [b] -> s = b /\ ~ In sep b.
Proof.
  revert b. induction s as [|c r IH]; intros b; cbn [split].
  - intros H. injection H as <-. split; [reflexivity|intros []].
  - destruct (c =? sep) eqn:E.
    + intros H. injection H as _ H. now destruct (split_nonempty sep r).
    + destruct (split sep r) as [|p ps] eqn:S; [now destruct (split_nonempty sep r)|].
      intros H. injection H as <- ->. destruct (IH p eq_refl) as [-> N].
      split; [reflexivity|]. intros [Q|Q]; [apply Z.eqb_neq in E; congruence|contradiction].
Qed.

(** Two parts are what stands before and after the only separator. *)
Lemma split_two (sep : Z) (s a b : str) :
  split sep s = [a; b] -> s = a ++ [sep] ++ b /\ ~ In sep a /\ ~ In sep b.
Proof.
  revert a. induction s as [|c r IH]; intros a; cbn [split]; [discriminate|].
  destruct (c =? sep) eqn:E.
  - intros H. injection H as <- H. apply Z.eqb_eq in E. subst c.
    destruct (split_one sep r b H) as [-> N]. split; [reflexivity|]. split; [intros []|exact N].
  - destruct (split sep r) as [|p ps] eqn:S; [discriminate|].
    intros H. injection H as <- ->. destruct (IH p eq_refl) as (-> & Na & Nb).
    split; [reflexivity|]. split; [|exact Nb].
    intros [Q|Q]; [apply Z.eqb_neq in E; congruence|contradiction].
Qed.

Lemma mapM_inv {A B : Type} (f : A -> result B) (l : list A) (ys : list B) :
  mapM f l = Ok ys -> Forall2 (fun x y => f x = Ok y) l ys.
Proof.
  revert ys. induction l as [|x l IH]; intros ys; cbn [mapM].
  - intros H. injection H as <-. constructor.
  - destruct (f x) as [y|e] eqn:F; cbn [bind]; [|discriminate].
    destruct (mapM f l) as [ys'|e]; cbn [bind]; [|discriminate].
    intros H. injection H as <-. constructor; [exact F|now apply IH].
Qed.

Lemma required_str_inv (kw : list (str * json)) (name s : str) :
  required_str kw name = Ok s -> dict_get kw name = Some (JStr s).
Proof.
  unfold required_str. destruct (dict_get kw name) as [v|]; [|discriminate].
  destruct v; cbn [validate_str]; try discriminate. now intros [= ->].
Qed.

Lemma Group_of_json_inv (j : json) (g : Group) :
  (kw <- as_kwargs j ;; Group_init kw) = Ok g -> group_json j g.
Proof.
  destruct j as [| | | | |l|kw]; cbn [as_kwargs bind]; try discriminate.
  unfold Group_init.
  destruct (required_str kw (lit "type")) as [t|] eqn:T; cbn [bind]; [|discriminate].
  destruct (required_str kw (lit "id")) as [i|] eqn:I; cbn [bind]; [|discriminate].
  destruct (required_str kw (lit "name")) as [n|] eqn:N; cbn [bind]; [|discriminate].
  intros H. injection H as <-. exists kw. cbn [group_type group_id group_name].
  split; [reflexivity|]. split; [now apply required_str_inv|].
  split; now apply required_str_inv.
Qed.

Lemma validate_str_inv (v : json) (s : str) : validate_str v = Ok s -> v = JStr s.
Proof. destruct v; cbn [validate_str]; try discriminate. now intros [= ->]. Qed.

Lemma getitem_inv (d : list (str * json)) (k : str) (v : json) :
  getitem d k = Ok v -> dict_get d k = Some v.
Proof. unfold getitem. destruct (dict_get d k); [now intros [= ->]|discriminate]. Qed.

(** The claims from which an identity is made. *)
Lemma identity_of_claims_inv (rt : runtime) (payload : json) (user : DemoUser) :
  identity_of_claims rt payload = Ok (Some user) ->
  exists d now g items,
    payload = JDict d
    /\ timestamp (utcoffset rt) (utcnow rt) = Ok now
    /\ py_lt (get_default d (lit "exp") (JInt 0)) now = Ok false
    /\ dict_get d (lit "userId") = Some (JStr (user_id user))
    /\ dict_get d (lit "email") = Some (JStr (user_email user))
    /\ dict_get d (lit "role") = Some (JStr (user_role user))
    /\ dict_get d (lit "groups") = Some g /\ iterate g = Ok items
    /\ Forall2 group_json items (user_groups user).
Proof.
  unfold identity_of_claims.
  destruct payload as [| | | | | |d]; cbn [as_dict bind]; try discriminate.
  destruct (timestamp _ _) as [now|] eqn:N; cbn [bind]; [|discriminate].
  destruct (py_lt _ _) as [[|]|] eqn:X; cbn [bind]; try discriminate.
  destruct (getitem d (lit "userId")) as [i|] eqn:I; cbn [bind]; [|discriminate].
  destruct (getitem d (lit "email")) as [e|] eqn:E; cbn [bind]; [|discriminate].
  destruct (getitem d (lit "role")) as [r|] eqn:R; cbn [bind]; [|discriminate].
  destruct (getitem d (lit "groups")) as [g|] eqn:G; cbn [bind]; [|discriminate].
  destruct (iterate g) as [items|] eqn:It; cbn [bind]; [|discriminate].
  destruct (mapM _ items) as [groups|] eqn:M; cbn [bind]; [|discriminate].
  unfold DemoUser_init.
  destruct (validate_str i) as [i'|] eqn:Vi; cbn [bind]; [|discriminate].
  destruct (validate_str e) as [e'|] eqn:Ve; cbn [bind]; [|discriminate].
  destruct (validate_str r) as [r'|] eqn:Vr; cbn [bind]; [|discriminate].
  intros H. injection H as <-. cbn [user_id user_email user_role user_groups].
  apply validate_str_inv in Vi, Ve, Vr. subst i e r.
  apply getitem_inv in I, E, R, G.
  exists d, now, g, items. do 8 (split; [first [reflexivity|assumption]|]).
  apply mapM_inv in M. clear It.
  induction M as [|j y items groups F _ IH]; [constructor|].
  constructor; [now apply Group_of_json_inv|exact IH].
Qed.

Lemma verify_body_inv (rt : runtime) (token : str) (user : DemoUser) :
  verify_body rt token = Ok (Some user) ->
  exists b64 sig payload,
    split DOT token = [b64; sig] /\ sign (JWT_SECRET rt) b64 = Ok sig
    /\ read_claims (recursion_limit rt) b64 = Ok payload
    /\ identity_of_claims rt payload = Ok (Some user).
Proof.
  unfold verify_body.
  destruct (negb (len (split DOT token) =? 2)); [discriminate|].
  destruct (split DOT token) as [|b64 [|sig [|]]] eqn:S; try discriminate.
  destruct (sign (JWT_SECRET rt) b64) as [expected|] eqn:G; cbn [bind]; [|discriminate].
  destruct (str_eqb sig expected) eqn:Q; cbn [negb]; [|discriminate].
  apply str_eqb_eq in Q. subst expected.
  intros H. exists b64, sig.
  unfold read_claims.
  destruct (urlsafe_b64decode b64) as [raw|]; cbn [bind] in *; [|discriminate].
  destruct (decode raw) as [payload_str|]; cbn [bind] in *; [|discriminate].
  destruct (loads (recursion_limit rt) payload_str) as [payload|]; cbn [bind] in *; [|discriminate].
  exists payload. split; [reflexivity|]. split; [exact G|]. split; [reflexivity|].
  exact H.
Qed.

(** X7. [verify_simple_jwt] returns an identity only for a token that
    is a claims segment, one dot and the MAC of that segment under the
    secret, whose claims are a JSON object with an expiry that is not
    below the time stamp that the process computes from its clock in its
    time zone; the identity is made of the [userId], [email], [role] and
    [groups] of these claims and of nothing else. *)
Theorem verify_accepts_only_signed_claims (rt : runtime) (token : str) (user : DemoUser) :
  verify_simple_jwt rt token = Ok (Some user) ->
  exists b64 sig d now g items,
    token = b64 ++ [DOT] ++ sig /\ ~ In DOT b64 /\ ~ In DOT sig
    /\ sign (JWT_SECRET rt) b64 = Ok sig
    /\ read_claims (recursion_limit rt) b64 = Ok (JDict d)
    /\ timestamp (utcoffset rt) (utcnow rt) = Ok now
    /\ py_lt (get_default d (lit "exp") (JInt 0)) now = Ok false
    /\ dict_get d (lit "userId") = Some (JStr (user_id user))
    /\ dict_get d (lit "email") = Some (JStr (user_email user))
    /\ dict_get d (lit "role") = Some (JStr (user_role user))
    /\ dict_get d (lit "groups") = Some g /\ iterate g = Ok items
    /\ Forall2 group_json items (user_groups user).
Proof.
  unfold verify_simple_jwt. intros H.
  destruct (verify_body rt token) as [[u|]|e] eqn:B; cbn [try_except] in H; try discriminate.
  injection H as ->.
  destruct (verify_body_inv rt token user B) as (b64 & sig & payload & S & G & R & I).
  destruct (identity_of_claims_inv _ _ _ I)
    as (d & now & g & items & -> & N & X & Hi & He & Hr & Hg & It & F).
  destruct (split_two DOT token b64 sig S) as (T & Na & Nb).
  exists b64, sig, d, now, g, items.
  split; [exact T|]. split; [exact Na|]. split; [exact Nb|]. split; [exact G|].
  split; [exact R|]. split; [exact N|]. split; [exact X|]. split; [exact Hi|]. split; [exact He|].
  split; [exact Hr|]. split; [exact Hg|]. split; [exact It|exact F].
Qed.

Lemma verify_accepts_only_signed_claims_witness :
  exists b64 sig d now g items,
    admin_token = b64 ++ [DOT] ++ sig /\ ~ In DOT b64 /\ ~ In DOT sig
    /\ sign (JWT_SECRET (demo_runtime t0)) b64 = Ok sig
    /\ read_claims (recursion_limit (demo_runtime t0)) b64 = Ok (JDict d)
    /\ timestamp (utcoffset (demo_runtime t0)) (utcnow (demo_runtime t0)) = Ok now
    /\ py_lt (get_default d (lit "exp") (JInt 0)) now = Ok false
    /\ dict_get d (lit "userId") = Some (JStr (user_id admin))
    /\ dict_get d (lit "email") = Some (JStr (user_email admin))
    /\ dict_get d (lit "role") = Some (JStr (user_role admin))
    /\ dict_get d (lit "groups") = Some g /\ iterate g = Ok items
    /\ Forall2 group_json items (user_groups admin).
Proof.
  apply (verify_accepts_only_signed_claims (demo_runtime t0) admin_token admin).
  vm_compute. reflexivity.
Defined.

(** X8. A correctly signed token whose claims are no JSON object, or
    have an expiry that is no number, or lack one of [userId], [email]
    and [role] as a string, or lack [groups], is rejected. *)
Theorem malformed_claims_are_rejected
    (rt : runtime) (token b64 sig : str) (payload : json) :
  split DOT token = [b64; sig] -> sign (JWT_SECRET rt) b64 = Ok sig ->
  read_claims (recursion_limit rt) b64 = Ok payload ->
  (forall d, payload = JDict d ->
     number_value (get_default d (lit "exp") (JInt 0)) = None
     \/ ~ string_field d (lit "userId") \/ ~ string_field d (lit "email")
     \/ ~ string_field d (lit "role") \/ dict_get d (lit "groups") = None) ->
  verify_simple_jwt rt token = Ok None.
Proof.
  intros S G R M. rewrite (verify_signed rt token b64 sig S G), R. cbn [bind].
  destruct (identity_of_claims rt payload) as [[u|]|e] eqn:I; [|reflexivity|reflexivity].
  exfalso.
  destruct (identity_of_claims_inv _ _ _ I)
    as (d & now & g & items & -> & _ & X & Hi & He & Hr & Hg & _).
  destruct (M d eq_refl) as [N|[N|[N|[N|N]]]].
  - destruct (get_default d (lit "exp") (JInt 0)); cbn [number_value py_lt] in *; discriminate.
  - apply N. now exists (user_id u).
  - apply N. now exists (user_email u).
  - apply N. now exists (user_role u).
  - congruence.
Qed.

Lemma malformed_claims_are_rejected_witness :
  verify_simple_jwt (demo_runtime t0) (signed_token demo_key (claims_with_role (JInt 1)))
  = Ok None.
Proof.
  eapply (malformed_claims_are_rejected (demo_runtime t0)).
  - vm_compute. reflexivity.
  - vm_compute. reflexivity.
  - vm_compute. reflexivity.
  - intros d E. injection E as <-. right. right. right. left.
    intros [s H]. vm_compute in H. discriminate.
Defined.

(* ================================================================== *)
(** * The tokens that are issued *)

Lemma b64url_charb_ok (c : Z) : b64url_charb c = true -> b64url_char c.
Proof.
  unfold b64url_charb, b64url_char. intros H.
  repeat (apply orb_true_iff in H; destruct H as [H|H]);
    try (apply andb_true_iff in H; destruct H as [A B];
         apply Z.leb_le in A; apply Z.leb_le in B);
    try apply Z.eqb_eq in H; lia.
Qed.

Lemma alphabet_b64url (n : Z) :
  0 <= n < 64 -> b64url_char (urlsafe_encode_translation (b64_char n)).
Proof.
  intros H. apply b64url_charb_ok. revert n H.
  apply (forall_below 64). vm_compute. reflexivity.
Qed.

Lemma pad_b64url : b64url_char (urlsafe_encode_translation PAD).
Proof. apply b64url_charb_ok. reflexivity. Qed.

Lemma urlsafe_b64encode_alphabet (b : bytes) :
  Forall is_byte b -> Forall b64url_char (urlsafe_b64encode b).
Proof.
  unfold urlsafe_b64encode.
  induction b as [|x|x y|x y z r IH] using list_ind3; intros Hb.
  - constructor.
  - inversion_clear Hb as [|? ? Hx _].
    assert (H0 : is_byte 0) by (unfold is_byte; lia).
    destruct (sextets_first x 0 Hx H0) as (R1 & R2 & _).
    destruct (sextet_tails x Hx) as [T1 _].
    cbn [b2a_base64 map]. rewrite T1.
    repeat (apply Forall_cons;
            [first [apply alphabet_b64url; assumption|apply pad_b64url]|]).
    apply Forall_nil.
  - inversion_clear Hb as [|? ? Hx Hb']. inversion_clear Hb' as [|? ? Hy _].
    assert (H0 : is_byte 0) by (unfold is_byte; lia).
    destruct (sextets_first x y Hx Hy) as (R1 & R2 & _).
    destruct (sextets_second y 0 Hy H0) as (R3 & _).
    destruct (sextet_tails y Hy) as [_ T2].
    cbn [b2a_base64 map]. rewrite T2.
    repeat (apply Forall_cons;
            [first [apply alphabet_b64url; assumption|apply pad_b64url]|]).
    apply Forall_nil.
  - inversion_clear Hb as [|? ? Hx Hb']. inversion_clear Hb' as [|? ? Hy Hb''].
    inversion_clear Hb'' as [|? ? Hz Hr].
    destruct (sextets_first x y Hx Hy) as (R1 & R2 & _).
    destruct (sextets_second y z Hy Hz) as (R3 & R4 & _).
    cbn [b2a_base64 map].
    repeat (apply Forall_cons; [apply alphabet_b64url; assumption|]).
    apply IH, Hr.
Qed.

(** base64 text comes in groups of four characters. *)
Lemma urlsafe_b64encode_length (b : bytes) :
  exists n, List.length (urlsafe_b64encode b) = (4 * n)%nat.
Proof.
  unfold urlsafe_b64encode.
  induction b as [|x|x y|x y z r [n IH]] using list_ind3.
  - now exists O.
  - now exists 1%nat.
  - now exists 1%nat.
  - exists (S n). cbn [b2a_base64 map List.length]. rewrite IH. lia.
Qed.

(** X10. Every token that is issued is a claims segment, one dot and a
    signature: the claims segment is base64url text, in groups of four
    characters, and the signature is 64 lowercase hexadecimal digits, so
    that the token splits at its dot into exactly these two. *)
Theorem issued_token_shape (rt : runtime) (u : DemoUser) (token : str) :
  pystr_identity u -> create_simple_jwt rt u = Ok token ->
  exists b64 sig,
    token = b64 ++ [DOT] ++ sig /\ split DOT token = [b64; sig]
    /\ Forall b64url_char b64 /\ (exists n, List.length b64 = (4 * n)%nat)
    /\ List.length sig = 64%nat /\ Forall lower_hex sig.
Proof.
  intros Hu Hc.
  destruct (create_simple_jwt_inv rt u token Hu Hc) as (key & x & K & ->).
  unfold wire_token, signed_token, signed_segment.
  pose proof (payload_b64_chars u x Hu) as B.
  eexists. eexists. split; [reflexivity|]. split.
  - apply split_token; [apply segment_chars_no_dot, B|].
    apply segment_chars_no_dot, signature_chars.
  - split; [apply urlsafe_b64encode_alphabet, ascii_is_byte, dumps_claims_ascii, Hu|].
    split; [apply urlsafe_b64encode_length|]. split.
    + unfold hmac_sha256. now rewrite hexlify_length, sha256_length.
    + apply hexlify_lower_hex. unfold hmac_sha256. apply sha256_range.
Qed.

Lemma issued_token_shape_witness :
  exists b64 sig,
    admin_token = b64 ++ [DOT] ++ sig /\ split DOT admin_token = [b64; sig]
    /\ Forall b64url_char b64 /\ (exists n, List.length b64 = (4 * n)%nat)
    /\ List.length sig = 64%nat /\ Forall lower_hex sig.
Proof.
  apply (issued_token_shape (demo_runtime t0) admin admin_token).
  - apply pystr_identityb_ok. vm_compute. reflexivity.
  - vm_compute. reflexivity.
Defined.

(** X12. An expiry that is [NaN] or [Infinity], which [json.loads]
    reads, is never in the past: a correctly signed token with such an
    expiry is accepted at every time that the process can read from its
    clock as a time stamp. *)
Theorem non_finite_expiry_never_expires
    (rt : runtime) (token b64 sig : str) (d : list (str * json)) (f now : pyfloat)
    (i e r : str) (gl : list json) (gs : list Group) :
  split DOT token = [b64; sig] -> sign (JWT_SECRET rt) b64 = Ok sig ->
  read_claims (recursion_limit rt) b64 = Ok (JDict d) ->
  dict_get d (lit "exp") = Some (JFloat f) -> f = FNaN \/ f = FInf false ->
  timestamp (utcoffset rt) (utcnow rt) = Ok now ->
  dict_get d (lit "userId") = Some (JStr i) ->
  dict_get d (lit "email") = Some (JStr e) ->
  dict_get d (lit "role") = Some (JStr r) ->
  dict_get d (lit "groups") = Some (JList gl) ->
  Forall2 group_json gl gs ->
  verify_simple_jwt rt token = Ok (Some (MkDemoUser i e r gs)).
Proof.
  intros S G R X F N Hi He Hr Hg Hgs.
  rewrite (verify_signed rt token b64 sig S G), R. cbn [bind].
  rewrite (identity_of_claims_ok rt d now i e r gl gs); try assumption; [reflexivity|].
  unfold get_default. rewrite X. cbn [py_lt]. destruct F as [-> | ->]; destruct now as [? ?|[|]|]; reflexivity.
Qed.

Lemma non_finite_expiry_never_expires_witness :
  verify_simple_jwt (demo_runtime t0)
    (signed_token demo_key (claims_with_role (JStr (lit "admin"))))
  = Ok (Some (MkDemoUser (lit "user-1") (lit "admin@example.com") (lit "admin") [])).
Proof.
  eapply (non_finite_expiry_never_expires (demo_runtime t0)).
  - vm_compute. reflexivity.
  - vm_compute. reflexivity.
  - vm_compute. reflexivity.
  - vm_compute. reflexivity.
  - right. reflexivity.
  - vm_compute. reflexivity.
  - vm_compute. reflexivity.
  - vm_compute. reflexivity.
  - vm_compute. reflexivity.
  - vm_compute. reflexivity.
  - constructor.
Defined.

(** Where the clock cannot be read as a time stamp, as on the last day of
    the year 9999 nine hours ahead of UTC, the same token is rejected. *)
Example non_finite_expiry_without_clock :
  timestamp tokyo last_day = Raise ValueError
  /\ verify_simple_jwt (MkRuntime demo_key last_day 1000 tokyo)
       (signed_token demo_key (claims_with_role (JStr (lit "admin")))) = Ok None.
Proof. split; vm_compute; reflexivity. Qed.

Lemma local_seconds_raises (z : zone) (u : Z) (e : exn) :
  local_seconds z u = Raise e -> e = ValueError.
Proof.
  unfold local_seconds. destruct (_ || _); [now intros [= <-]|discriminate].
Qed.

Lemma local_to_seconds_raises (z : zone) (t : Z) (e : exn) :
  local_to_seconds z t = Raise e -> e = ValueError.
Proof.
  unfold local_to_seconds.
  repeat first
    [ discriminate
    | match goal with
      | |- context [local_seconds z ?u] =>
          let E := fresh "E" in
          destruct (local_seconds z u) as [?|?] eqn:E; cbn [bind];
          [|intros [= <-]; exact (local_seconds_raises _ _ _ E)]
      | |- context [if ?b then _ else _] => destruct b; cbn [bind]
      end ].
Qed.

Lemma timestamp_raises (z : zone) (d : datetime) (e : exn) :
  timestamp z d = Raise e -> e = ValueError.
Proof.
  unfold timestamp. destruct (local_to_seconds z (d / 1000000)) as [x|e'] eqn:E; cbn [bind].
  - discriminate.
  - intros [= <-]. exact (local_to_seconds_raises _ _ _ E).
Qed.

Lemma create_simple_jwt_overflow (rt : runtime) (u : DemoUser) :
  ~ (datetime_min <= utcnow rt + timedelta_hours 24 <= datetime_max) ->
  create_simple_jwt rt u = Raise OverflowError.
Proof.
  intros N. unfold create_simple_jwt, datetime_add.
  replace ((_ <? datetime_min) || (datetime_max <? _)) with true by lia.
  reflexivity.
Qed.

Lemma create_simple_jwt_no_timestamp (rt : runtime) (u : DemoUser) (e : exn) :
  datetime_min <= utcnow rt + timedelta_hours 24 <= datetime_max ->
  timestamp (utcoffset rt) (utcnow rt + timedelta_hours 24) = Raise e ->
  create_simple_jwt rt u = Raise e.
Proof.
  intros Ht He. unfold create_simple_jwt, datetime_add.
  replace ((_ <? datetime_min) || (datetime_max <? _)) with false by lia.
  cbn [bind]. now rewrite He.
Qed.

Lemma create_simple_jwt_bad_secret (rt : runtime) (u : DemoUser) (expire : pyfloat) :
  pystr_identity u ->
  datetime_min <= utcnow rt + timedelta_hours 24 <= datetime_max ->
  timestamp (utcoffset rt) (utcnow rt + timedelta_hours 24) = Ok expire ->
  ~ text (JWT_SECRET rt) ->
  create_simple_jwt rt u = Raise UnicodeEncodeError.
Proof.
  intros Hu Ht He N. unfold create_simple_jwt, datetime_add.
  replace ((_ <? datetime_min) || (datetime_max <? _)) with false by lia.
  cbn [bind]. rewrite He. cbn [bind].
  pose proof (dumps_claims_ascii u expire Hu) as A.
  pose proof (payload_b64_chars u expire Hu) as B.
  rewrite (encode_ascii _ A). cbn [bind].
  rewrite (decode_ascii _ (segment_chars_ascii _ B)). cbn [bind].
  unfold sign. now rewrite (encode_not_text _ N).
Qed.

(** X13. [create_simple_jwt] issues a token to every identity, unless
    the clock is within 24 hours of the last [datetime], where it raises
    [OverflowError], or else the expiry cannot be read as a time stamp in
    the time zone of the process, where it raises [ValueError], or else
    the secret is no text, where it raises [UnicodeEncodeError]; what the
    identity holds never makes it fail. *)
Theorem create_simple_jwt_errors (rt : runtime) (u : DemoUser) :
  pystr_identity u ->
  (datetime_min <= utcnow rt + timedelta_hours 24 <= datetime_max
   /\ (exists expire, timestamp (utcoffset rt) (utcnow rt + timedelta_hours 24) = Ok expire)
   /\ text (JWT_SECRET rt) /\ exists token, create_simple_jwt rt u = Ok token)
  \/ (~ (datetime_min <= utcnow rt + timedelta_hours 24 <= datetime_max)
      /\ create_simple_jwt rt u = Raise OverflowError)
  \/ (datetime_min <= utcnow rt + timedelta_hours 24 <= datetime_max
      /\ timestamp (utcoffset rt) (utcnow rt + timedelta_hours 24) = Raise ValueError
      /\ create_simple_jwt rt u = Raise ValueError)
  \/ (datetime_min <= utcnow rt + timedelta_hours 24 <= datetime_max
      /\ (exists expire, timestamp (utcoffset rt) (utcnow rt + timedelta_hours 24) = Ok expire)
      /\ ~ text (JWT_SECRET rt)
      /\ create_simple_jwt rt u = Raise UnicodeEncodeError).
Proof.
  intros Hu.
  destruct (Z_le_dec datetime_min (utcnow rt + timedelta_hours 24)) as [L|L];
    [|right; left; split; [lia|apply create_simple_jwt_overflow; lia]].
  destruct (Z_le_dec (utcnow rt + timedelta_hours 24) datetime_max) as [M|M];
    [|right; left; split; [lia|apply create_simple_jwt_overflow; lia]].
  destruct (timestamp (utcoffset rt) (utcnow rt + timedelta_hours 24)) as [expire|e] eqn:E.
  - destruct (text_dec (JWT_SECRET rt)) as [T|T].
    + left. split; [lia|]. split; [now exists expire|]. split; [exact T|].
      destruct (encode_text _ T) as [key K]. eexists.
      apply (create_simple_jwt_eq rt u key expire Hu K); [lia|exact E].
    + right. right. right. split; [lia|]. split; [now exists expire|]. split; [exact T|].
      apply (create_simple_jwt_bad_secret rt u expire); [exact Hu|lia|exact E|exact T].
  - pose proof (timestamp_raises _ _ _ E) as ->.
    right. right. left. split; [lia|]. split; [reflexivity|].
    apply create_simple_jwt_no_timestamp; [lia|exact E].
Qed.

Lemma create_simple_jwt_errors_witness :
  (datetime_min <= utcnow (demo_runtime datetime_max) + timedelta_hours 24 <= datetime_max
   /\ (exists expire,
         timestamp (utcoffset (demo_runtime datetime_max))
           (utcnow (demo_runtime datetime_max) + timedelta_hours 24) = Ok expire)
   /\ text (JWT_SECRET (demo_runtime datetime_max))
   /\ exists token, create_simple_jwt (demo_runtime datetime_max) admin = Ok token)
  \/ (~ (datetime_min <= utcnow (demo_runtime datetime_max) + timedelta_hours 24
         <= datetime_max)
      /\ create_simple_jwt (demo_runtime datetime_max) admin = Raise OverflowError)
  \/ (datetime_min <= utcnow (demo_runtime datetime_max) + timedelta_hours 24 <= datetime_max
      /\ timestamp (utcoffset (demo_runtime datetime_max))
           (utcnow (demo_runtime datetime_max) + timedelta_hours 24) = Raise ValueError
      /\ create_simple_jwt (demo_runtime datetime_max) admin = Raise ValueError)
  \/ (datetime_min <= utcnow (demo_runtime datetime_max) + timedelta_hours 24 <= datetime_max
      /\ (exists expire,
            timestamp (utcoffset (demo_runtime datetime_max))
              (utcnow (demo_runtime datetime_max) + timedelta_hours 24) = Ok expire)
      /\ ~ text (JWT_SECRET (demo_runtime datetime_max))
      /\ create_simple_jwt (demo_runtime datetime_max) admin = Raise UnicodeEncodeError).
Proof.
  apply (create_simple_jwt_errors (demo_runtime datetime_max) admin).
  apply pystr_identityb_ok. vm_compute. reflexivity.
Defined.

(** The three failures, each at an input: the last day of the calendar,
    the day before it nine hours ahead of UTC, and a secret with a lone
    surrogate. *)
Example create_simple_jwt_fails :
  create_simple_jwt (demo_runtime datetime_max) admin = Raise OverflowError
  /\ create_simple_jwt (MkRuntime demo_key last_day_but_one 1000 tokyo) admin
     = Raise ValueError
  /\ create_simple_jwt (MkRuntime [55296] t0 1000 utc) admin = Raise UnicodeEncodeError.
Proof. split; [|split]; vm_compute; reflexivity. Qed.

(* ================================================================== *)
(** * The session of the server *)

Lemma str_bool_false (s : str) : str_bool s = false <-> s = [].
Proof. destruct s; cbn; split; intros H; congruence. Qed.

Lemma str_bool_true (s : str) : str_bool s = true <-> s <> [].
Proof. destruct s; cbn; split; intros H; congruence. Qed.

Lemma verify_empty (rt : runtime) : verify_simple_jwt rt [] = Ok None.
Proof. reflexivity. Qed.

Lemma get_current_user_cookie (rt : runtime) (s : str) :
  get_current_user rt (Some s) = verify_simple_jwt rt s.
Proof. destruct s; reflexivity. Qed.

(** X14. [get_current_user] never raises: without a cookie it returns
    [None], and with one exactly what [verify_session_jwt] returns for
    its value, the empty string included. *)
Theorem get_current_user_verifies (rt : runtime) (session : option str) :
  get_current_user rt session
  = match session with
    | Some s => verify_simple_jwt rt s
    | None => Ok None
    end.
Proof.
  destruct session as [s|]; [apply get_current_user_cookie|reflexivity].
Qed.

Lemma demo_users_valid (u : DemoUser) : u = admin \/ u = plain_user -> valid_identity u.
Proof.
  intros [-> | ->]; apply valid_identityb_ok; vm_compute; reflexivity.
Qed.

(** X15. [login] answers 400 exactly when the address or the password is
    empty, and then neither looks at the credential store nor sets a
    cookie. *)
Theorem login_bad_request (rt : runtime) (NODE_ENV : option str)
    (request : LoginRequest) (response : Response) (status_code : Z) (detail : str) :
  login rt NODE_ENV request response = HTTPException status_code detail
  <-> (login_email request = [] \/ login_password request = [])
      /\ status_code = 400 /\ detail = lit "Email and password required".
Proof.
  unfold login.
  destruct (str_bool (login_email request)) eqn:E;
    destruct (str_bool (login_password request)) eqn:P; cbn [negb orb].
  - apply str_bool_true in E, P. split.
    + unfold call. destruct (authenticate_user _ _) as [[u|]|]; try discriminate.
      destruct (create_session_jwt rt u); discriminate.
    + intros ([H|H] & _); contradiction.
  - apply str_bool_false in P. split.
    + intros H. injection H as <- <-. split; [right; exact P|split; reflexivity].
    + intros (_ & -> & ->). reflexivity.
  - apply str_bool_false in E. split.
    + intros H. injection H as <- <-. split; [left; exact E|split; reflexivity].
    + intros (_ & -> & ->). reflexivity.
  - apply str_bool_false in E. split.
    + intros H. injection H as <- <-. split; [left; exact E|split; reflexivity].
    + intros (_ & -> & ->). reflexivity.
Qed.

(** What [login] returns. *)
Lemma login_returns (rt : runtime) (NODE_ENV : option str)
    (request : LoginRequest) (response response' : Response) (r : LoginResponse) :
  login rt NODE_ENV request response = Return (r, response') ->
  (authenticate_user (login_email request) (login_password request) = Ok None
   /\ r = MkLoginResponse false None (Some (lit "Invalid credentials"))
   /\ response' = response)
  \/ (exists u token,
        authenticate_user (login_email request) (login_password request) = Ok (Some u)
        /\ create_simple_jwt rt u = Ok token
        /\ r = MkLoginResponse true (Some (shown u)) None
        /\ response' = response ++ [MkCookie (lit "session") token true
                                      (production NODE_ENV) (lit "lax") 86400]).
Proof.
  unfold login.
  destruct (negb _ || negb _); [discriminate|]. unfold call.
  destruct (authenticate_user _ _) as [[u|]|] eqn:A; [| |discriminate].
  - unfold create_session_jwt. destruct (create_simple_jwt rt u) as [token|] eqn:C; [|discriminate].
    intros H. injection H as <- <-. right. exists u, token.
    split; [first [exact A|reflexivity]|]. split; [first [exact C|reflexivity]|].
    split; reflexivity.
  - intros H. injection H as <- <-. left.
    split; [first [exact A|reflexivity]|]. split; reflexivity.
Qed.

(** X16. [login] sets a cookie only when it answers with success: a
    failed login leaves the response as it was and says
    "Invalid credentials", whether the address is unknown or the
    password wrong; a successful one sets one cookie, [session], that is
    HTTP-only and holds the token issued to the authenticated user, and
    shows [id], [email], [role] and [groups] of that user. *)
Theorem login_sets_cookie_on_success (rt : runtime) (NODE_ENV : option str)
    (request : LoginRequest) (response response' : Response) (r : LoginResponse) :
  login rt NODE_ENV request response = Return (r, response') ->
  (response_success r = false /\ response' = response
   /\ response_user r = None /\ response_error r = Some (lit "Invalid credentials")
   /\ authenticate_user (login_email request) (login_password request) = Ok None)
  \/ (response_success r = true /\ response_error r = None
      /\ exists u token,
           authenticate_user (login_email request) (login_password request) = Ok (Some u)
           /\ create_session_jwt rt u = Ok token
           /\ response_user r
              = Some (JDict [(lit "id", JStr (user_id u));
                             (lit "email", JStr (user_email u));
                             (lit "role", JStr (user_role u));
                             (lit "groups", JList (map model_dump (user_groups u)))])
           /\ response' = response ++ [MkCookie (lit "session") token true
                                         (production NODE_ENV) (lit "lax") 86400]).
Proof.
  intros H. destruct (login_returns _ _ _ _ _ _ H) as [(A & -> & ->)|(u & token & A & C & -> & ->)].
  - left. split; [reflexivity|]. split; [reflexivity|]. split; [reflexivity|].
    split; [reflexivity|exact A].
  - right. split; [reflexivity|]. split; [reflexivity|]. exists u, token.
    split; [exact A|]. split; [exact C|]. split; reflexivity.
Qed.

Lemma login_sets_cookie_on_success_witness :
  (response_success (MkLoginResponse true (Some (shown admin)) None) = false
   /\ [MkCookie (lit "session") admin_token true false (lit "lax") 86400] = []
   /\ response_user (MkLoginResponse true (Some (shown admin)) None) = None
   /\ response_error (MkLoginResponse true (Some (shown admin)) None)
      = Some (lit "Invalid credentials")
   /\ authenticate_user
        (login_email (MkLoginRequest (lit "admin@example.com") (lit "password123")))
        (login_password (MkLoginRequest (lit "admin@example.com") (lit "password123")))
      = Ok None)
  \/ (response_success (MkLoginResponse true (Some (shown admin)) None) = true
      /\ response_error (MkLoginResponse true (Some (shown admin)) None) = None
      /\ exists u token,
           authenticate_user
             (login_email (MkLoginRequest (lit "admin@example.com") (lit "password123")))
             (login_password (MkLoginRequest (lit "admin@example.com") (lit "password123")))
           = Ok (Some u)
           /\ create_session_jwt (demo_runtime t0) u = Ok token
           /\ response_user (MkLoginResponse true (Some (shown admin)) None)
              = Some (JDict [(lit "id", JStr (user_id u));
                             (lit "email", JStr (user_email u));
                             (lit "role", JStr (user_role u));
                             (lit "groups", JList (map model_dump (user_groups u)))])
           /\ [MkCookie (lit "session") admin_token true false (lit "lax") 86400]
              = [] ++ [MkCookie (lit "session") token true
                         (production None) (lit "lax") 86400]).
Proof.
  apply (login_sets_cookie_on_success (demo_runtime t0) None
           (MkLoginRequest (lit "admin@example.com") (lit "password123")) []).
  vm_compute. reflexivity.
Defined.

(** X21. [GET /api/auth/me] fails in one way only, by 401: without a
    cookie, and with a cookie that [verify_session_jwt] does not accept,
    whatever it holds, it answers 401; with an accepted one it shows
    [id], [email], [role] and [groups] of the identity in the token. *)
Theorem get_me_answers (rt : runtime) (session : option str) :
  (get_me_request rt session = HTTPException 401 (lit "Not authenticated")
   /\ forall s, session = Some s -> verify_session_jwt rt s = Ok None)
  \/ (exists s u,
        session = Some s /\ verify_session_jwt rt s = Ok (Some u)
        /\ get_me_request rt session
           = Return (JDict [(lit "user",
                             JDict [(lit "id", JStr (user_id u));
                                    (lit "email", JStr (user_email u));
                                    (lit "role", JStr (user_role u));
                                    (lit "groups",
                                     JList (map model_dump (user_groups u)))])])).
Proof.
  unfold get_me_request. destruct session as [s|].
  - rewrite get_current_user_cookie. unfold verify_session_jwt, verify_simple_jwt.
    destruct (verify_body rt s) as [[u|]|e] eqn:B; cbn [try_except call get_me].
    + right. exists s, u. split; [reflexivity|]. rewrite B. split; reflexivity.
    + left. split; [reflexivity|]. intros s' E. injection E as <-. now rewrite B.
    + left. split; [reflexivity|]. intros s' E. injection E as <-. now rewrite B.
  - left. split; [reflexivity|]. intros s E. discriminate.
Qed.

(* ================================================================== *)
(** * The identity in the format of Vortex *)

Lemma colon_separated (a b a' b' : str) :
  ~ In COLON a -> ~ In COLON a' ->
  a ++ [COLON] ++ b = a' ++ [COLON] ++ b' -> a = a' /\ b = b'.
Proof.
  intros Na Na' H.
  pose proof (split_app_sep COLON a b Na) as S.
  pose proof (split_app_sep COLON a' b' Na') as S'.
  cbn [app] in H. rewrite H in S. rewrite S in S'. injection S' as ->.
  split; [reflexivity|]. now apply app_inv_head in H; injection H.
Qed.

Lemma vortex_groups_determine (gs hs : list Group) :
  Forall (fun g => ~ In COLON (group_type g)) gs ->
  Forall (fun g => ~ In COLON (group_type g)) hs ->
  map (fun group => JStr (group_type group ++ [COLON] ++ group_id group)) gs
  = map (fun group => JStr (group_type group ++ [COLON] ++ group_id group)) hs ->
  map (fun g => (group_type g, group_id g)) gs = map (fun g => (group_type g, group_id g)) hs.
Proof.
  intros Hg. revert hs. induction Hg as [|g gs Ng _ IH]; intros hs Hh E.
  - destruct hs; [reflexivity|discriminate].
  - destruct hs as [|h hs]; [discriminate|]. inversion_clear Hh as [|? ? Nh Hh'].
    cbn [map] in *. injection E as E1 E2.
    destruct (colon_separated _ _ _ _ Ng Nh E1) as [-> ->].
    f_equal. now apply IH.
Qed.

(** X18. [demo_user_to_vortex_format] keeps [id], [email] and [role] and
    writes each group as its type, a colon and its id, dropping the
    name.  When no group type holds a colon, two identities with the
    same format have the same [id], [email], [role] and the same types
    and ids of groups, in the same order. *)
Theorem vortex_format_determines_identity (u v : DemoUser) :
  Forall (fun g => ~ In COLON (group_type g)) (user_groups u) ->
  Forall (fun g => ~ In COLON (group_type g)) (user_groups v) ->
  demo_user_to_vortex_format u = demo_user_to_vortex_format v ->
  user_id u = user_id v /\ user_email u = user_email v /\ user_role u = user_role v
  /\ map (fun g => (group_type g, group_id g)) (user_groups u)
     = map (fun g => (group_type g, group_id g)) (user_groups v).
Proof.
  intros Hu Hv E. unfold demo_user_to_vortex_format in E.
  injection E as Ei Ee Eg Er.
  split; [exact Ei|]. split; [exact Ee|]. split; [exact Er|].
  now apply vortex_groups_determine.
Qed.

Lemma vortex_format_determines_identity_witness :
  user_id admin = user_id admin_renamed /\ user_email admin = user_email admin_renamed
  /\ user_role admin = user_role admin_renamed
  /\ map (fun g => (group_type g, group_id g)) (user_groups admin)
     = map (fun g => (group_type g, group_id g)) (user_groups admin_renamed).
Proof.
  apply (vortex_format_determines_identity admin admin_renamed).
  - repeat constructor; vm_compute; intuition discriminate.
  - repeat constructor; vm_compute; intuition discriminate.
  - reflexivity.
Defined.

(** With a colon in a group type the format is ambiguous: the groups
    [a:b] with id [c] and [a] with id [b:c] are written alike. *)
Example vortex_format_ambiguous :
  demo_user_to_vortex_format
    (MkDemoUser (lit "u") (lit "e") (lit "r") [MkGroup (lit "a:b") (lit "c") (lit "n")])
  = demo_user_to_vortex_format
      (MkDemoUser (lit "u") (lit "e") (lit "r") [MkGroup (lit "a") (lit "b:c") (lit "n")]).
Proof. reflexivity. Qed.

(* ================================================================== *)
(** * The route that issues a Vortex token *)

Section VortexProperties.

Variables Vortex JwtPayload Jwt SdkError : Type.
Variable JwtPayload_init : json -> json -> json -> json -> JwtPayload + SdkError.
Variable client_generate_jwt : Vortex -> JwtPayload -> Jwt + SdkError.
Variable exception_str : @raised SdkError -> str.

(** X19. [generate_jwt] answers with a token, with 503 when there is no
    client, or with 500; it never answers 401 and lets no exception
    escape: the 401 that it raises for a request without a session is
    raised inside its own [try] block and comes out as 500. *)
Theorem generate_jwt_never_answers_401 (vortex_client : option Vortex)
    (request : option JwtRequest) (current_user : option DemoUser) :
  (exists v, generate_jwt JwtPayload_init client_generate_jwt exception_str
               vortex_client request current_user = Return v)
  \/ (vortex_client = None
      /\ generate_jwt JwtPayload_init client_generate_jwt exception_str
           vortex_client request current_user
         = HTTPException 503 (lit "Vortex SDK not available"))
  \/ (exists e,
        generate_jwt JwtPayload_init client_generate_jwt exception_str
          vortex_client request current_user
        = HTTPException 500 (lit "Failed to generate JWT: " ++ exception_str e)
        /\ (names_user request = false -> current_user = None ->
            e = RaisedHTTP 401 (lit "Authentication required"))).
Proof.
  unfold generate_jwt. destruct vortex_client as [client|].
  - destruct (generate_jwt_try _ _ client request current_user) as [v|e] eqn:T.
    + left. now exists v.
    + right. right. exists e. split; [reflexivity|]. intros N ->.
      unfold generate_jwt_try in T. destruct request as [request|].
      * cbn [names_user] in N. rewrite N in T. now injection T.
      * now injection T.
  - right. left. split; reflexivity.
Qed.

(** X20. When the request names a user, with a user id and identifiers
    that are not empty, [generate_jwt] does not look at the session: the
    token is generated for the named user, whoever is logged in and
    whether anybody is. *)
Theorem generate_jwt_for_named_user (vortex_client : option Vortex)
    (request : option JwtRequest) (current_user other_user : option DemoUser) :
  names_user request = true ->
  generate_jwt JwtPayload_init client_generate_jwt exception_str
    vortex_client request current_user
  = generate_jwt JwtPayload_init client_generate_jwt exception_str
      vortex_client request other_user.
Proof.
  intros N. unfold generate_jwt, generate_jwt_try.
  destruct vortex_client as [client|]; [|reflexivity].
  destruct request as [request|]; [|discriminate].
  cbn [names_user] in N. rewrite N. reflexivity.
Qed.

End VortexProperties.

Lemma generate_jwt_for_named_user_witness :
  generate_jwt toy_payload toy_generate_jwt toy_str (Some tt)
    (Some (MkJwtRequest (Some (lit "user-1")) (Some [(lit "email", lit "a@b.c")]) None None))
    None
  = generate_jwt toy_payload toy_generate_jwt toy_str (Some tt)
      (Some (MkJwtRequest (Some (lit "user-1")) (Some [(lit "email", lit "a@b.c")]) None None))
      (Some plain_user).
Proof.
  apply (generate_jwt_for_named_user _ _ _ _ toy_payload toy_generate_jwt toy_str).
  reflexivity.
Defined.

(** A request without a body and without a session, answered by 500. *)
Example generate_jwt_unauthenticated :
  generate_jwt toy_payload toy_generate_jwt toy_str (Some tt) None None
  = HTTPException 500 (lit "Failed to generate JWT: 401: Authentication required").
Proof. vm_compute. reflexivity. Qed.
